(** * Verification of the Quran reader client

  A shallow embedding of the logic of the React Native client:
  the content-API wrapper ([executeQuranQuery]), the subscription
  status cache and check ([useStripeSubscription]), the audio service
  and playback context, the reading-position helper of the read
  screen, the bookmark hook and the footnote stripper; and, around
  these, the query functions built on the wrapper, the playback
  controls, the route and restore helpers of the read screen, the
  thematic bookmarks, the cache helpers, first-check effect and
  checkout of the subscription hook, the verse marker numerals and the
  footnote reference parser of the Quran context.

  JavaScript values that cross a trust boundary (server responses,
  stored strings) are carried by a small JSON data type; exceptions
  and promise rejections by an explicit outcome type; effects on the
  outside world (storage, network, the native sound object) by
  explicit state passing. Numbers that the code only compares, adds
  or prints (times in milliseconds, layout offsets, verse and surah
  numbers) are integers, standing for JavaScript's safe integers
  ([Js.safe_integer]). An [async] function that is awaited alone is one
  step of the model from its call to its last [await]; where calls can
  overlap ([checkSubscription], the bookmark mutations) the call is cut
  at its [await] into a start and a completion that are separate
  steps. *)

From Stdlib Require Import ZArith List String Ascii Bool Lia.
From Stdlib Require Import DecimalString DecimalZ DecimalFacts.
From Stdlib Require QArith.
From stdpp Require Import gmap strings list sorting.

#[local] Set Warnings "-register-all".
Local Open Scope string_scope.
Local Open Scope list_scope.
Local Open Scope Z_scope.

(* ===================================================================== *)
(** * Part I: the embedding                                               *)
(* ===================================================================== *)

(** ** A fragment of the JavaScript runtime *)

Module Js.

(** JSON documents, as produced by [JSON.parse] or [response.json()].
    Numbers are carried as integers: the code only tests them for
    truthiness or passes them on. *)
Inductive Json : Type :=
| JNull
| JBool (b : bool)
| JNum (n : Z)
| JStr (s : string)
| JArr (items : list Json)
| JObj (fields : list (string * Json)).

(** A JavaScript value read from a JSON document: [None] is
    [undefined]. *)
Definition JsVal : Type := option Json.

Definition undefined : JsVal := None.

(** What a [throw] or a rejected promise carries: an [Error] object
    with its [message], or some other value. *)
Inductive Thrown : Type :=
| ThrownError (message : string)
| ThrownValue.

Inductive Outcome (A : Type) : Type :=
| Returns (a : A)
| Throws (t : Thrown).
Arguments Returns {A} a.
Arguments Throws {A} t.

(** Last binding wins, as in [JSON.parse] on duplicate keys. *)
Fixpoint lookup_field (k : string) (fields : list (string * Json)) : JsVal :=
  match fields with
  | [] => None
  | (k', v) :: rest =>
      match lookup_field k rest with
      | Some v' => Some v'
      | None => if String.eqb k k' then Some v else None
      end
  end.

(** Property read [v.k] for the data properties the client reads
    ([success], [message], [data], [count], [userId],
    [subscriptions]): a [TypeError] on [null], [undefined] on
    primitives and arrays, the field on objects. *)
Definition get (k : string) (v : Json) : Outcome JsVal :=
  match v with
  | JNull =>
      Throws (ThrownError ("Cannot read property '" +:+ k +:+ "' of null"))
  | JObj fields => Returns (lookup_field k fields)
  | _ => Returns undefined
  end.

(** ToBoolean. *)
Definition truthy (v : JsVal) : bool :=
  match v with
  | None => false
  | Some JNull => false
  | Some (JBool b) => b
  | Some (JNum n) => negb (Z.eqb n 0)
  | Some (JStr s) => negb (String.eqb s "")
  | Some (JArr _) => true
  | Some (JObj _) => true
  end.

(** [!s] on an optional string such as an environment variable or a
    stored item: missing and empty are both falsy. *)
Definition falsy_str (s : option string) : bool :=
  match s with
  | None => true
  | Some s => String.eqb s ""
  end.

(** The numbers of the model are integers, held exactly. They stand for
    the JavaScript numbers that are safe integers, of magnitude at most
    2^53 - 1: on these [+], [-] and the comparisons are exact,
    [parseInt] of a digit string with such a value is that value, and
    [String(n)] is the plain decimal text. Time stamps ([Date.now()], of
    magnitude at most 8.64e15), verse and surah numbers of the bundled
    data and reciter ids are safe integers. For a number that the caller
    is free to choose, the model says nothing outside this range, nor
    of fractions and [NaN] (which [parseInt10] alone can return, as
    [None]). *)
Definition MAX_SAFE_INTEGER : Z := 9007199254740991.

Definition safe_integer (n : Z) : Prop :=
  - MAX_SAFE_INTEGER <= n <= MAX_SAFE_INTEGER.

(** [String(n)] and template interpolation of a safe integer: its
    decimal text (from 1e21 on, outside the safe integers, JavaScript
    prints an exponent). *)
Definition String_of_Z (n : Z) : string :=
  NilZero.string_of_int (Z.to_int n).

(** An optional string seen through a truthiness test: the empty string
    counts as absent. *)
Definition truthy_str (s : option string) : option string :=
  match s with
  | Some s => if String.eqb s "" then None else Some s
  | None => None
  end.

(** [hay.includes(needle)] *)
Fixpoint includes (needle hay : string) : bool :=
  if String.prefix needle hay then true
  else match hay with
       | String _ rest => includes needle rest
       | EmptyString => false
       end.

Definition is_digit (c : ascii) : bool :=
  let n := N_of_ascii c in (48 <=? n)%N && (n <=? 57)%N.

Definition digit_value (c : ascii) : Z := Z.of_N (N_of_ascii c) - 48.

(** White space skipped by [parseInt] (the ASCII part). *)
Definition is_space (c : ascii) : bool :=
  let n := N_of_ascii c in
  (n =? 32)%N || ((9 <=? n)%N && (n <=? 13)%N).

Fixpoint skip_spaces (s : string) : string :=
  match s with
  | String c rest => if is_space c then skip_spaces rest else s
  | EmptyString => s
  end.

(** The value of the longest prefix of decimal digits; [None] is [NaN]
    (no digit at all). *)
Fixpoint parse_digits (acc : option Z) (s : string) : option Z :=
  match s with
  | String c rest =>
      if is_digit c then
        parse_digits
          (Some (10 * (match acc with Some a => a | None => 0 end)
                 + digit_value c)) rest
      else acc
  | EmptyString => acc
  end.

(** [parseInt(s, 10)] *)
Definition parseInt10 (s : string) : option Z :=
  match skip_spaces s with
  | String "-"%char rest => option_map Z.opp (parse_digits None rest)
  | String "+"%char rest => parse_digits None rest
  | t => parse_digits None t
  end.

(** A state-and-exception monad for asynchronous code: the state is
    the part of the outside world the function touches. *)
Definition Async (S A : Type) : Type := S -> S * Outcome A.

Definition ret {S A} (a : A) : Async S A := fun s => (s, Returns a).
Definition throw {S A} (t : Thrown) : Async S A := fun s => (s, Throws t).
Definition bind {S A B} (m : Async S A) (k : A -> Async S B) : Async S B :=
  fun s =>
    match m s with
    | (s', Returns a) => k a s'
    | (s', Throws t) => (s', Throws t)
    end.
(** [try { m } catch (e) { h e }] *)
Definition try_catch {S A} (m : Async S A) (h : Thrown -> Async S A)
  : Async S A :=
  fun s =>
    match m s with
    | (s', Returns a) => (s', Returns a)
    | (s', Throws t) => h t s'
    end.
Definition lift {S A} (o : Outcome A) : Async S A := fun s => (s, o).
(** [try { m } finally { f }] *)
Definition try_finally {S A} (m : Async S A) (f : Async S unit)
  : Async S A :=
  fun s =>
    match m s with
    | (s', o) =>
        match f s' with
        | (s'', Returns _) => (s'', o)
        | (s'', Throws t) => (s'', Throws t)
        end
    end.
(** A state update that cannot fail (a React setter, a ref write). *)
Definition modify {S} (f : S -> S) : Async S unit :=
  fun s => (f s, Returns tt).
Definition read {S} : Async S S := fun s => (s, Returns s).

End Js.

Import Js.

Declare Scope async_scope.
Delimit Scope async_scope with async.
Notation "'let*' x ':=' m 'in' k" := (bind m (fun x => k))
  (at level 10, x name, m at level 200, k at level 200) : async_scope.

(** ** services/quranApi.ts *)

Module QuranApi.

(** An element of the [params: unknown[]] argument: a plain JSON value,
    or a value on which [JSON.stringify] throws (a BigInt, a cyclic
    object, an object whose [toJSON] throws). *)
Inductive Param : Type :=
| PValue (v : Json)
| PUnserialisable (t : Thrown).

(** The request body [{ sql, params }] before it is put on the wire. *)
Record QueryBody : Type := { body_sql : string; body_params : list Json }.

Record Request : Type :=
  { req_url : string;
    req_method : string;
    req_content_type : string;
    req_body : QueryBody }.

(** A response object; [resp_json] is the outcome of
    [response.json()]. *)
Record Response : Type := { resp_json : Outcome Json }.

Record QueryResult : Type :=
  { success : bool;
    data : JsVal;
    count : JsVal;
    error : JsVal }.

Fixpoint stringify_params (ps : list Param) : Outcome (list Json) :=
  match ps with
  | [] => Returns []
  | PValue v :: rest =>
      match stringify_params rest with
      | Returns vs => Returns (v :: vs)
      | Throws t => Throws t
      end
  | PUnserialisable t :: _ => Throws t
  end.

(** The request that [fetch] is called with. *)
Definition query_request (base : string) (body : QueryBody) : Request :=
  {| req_url := base +:+ "/api/quran/query";
     req_method := "POST";
     req_content_type := "application/json";
     req_body := body |}.

(** [JSON.stringify({ sql, params })] *)
Definition JSON_stringify (sql : string) (params : list Param)
  : Outcome QueryBody :=
  match stringify_params params with
  | Returns vs => Returns {| body_sql := sql; body_params := vs |}
  | Throws t => Throws t
  end.

Section WithEnvironment.

(** [process.env.EXPO_PUBLIC_QURAN_API_BASE_URL] *)
Variable API_BASE_URL : option string.
(** The network: what [fetch] does with a request. *)
Variable fetch : Request -> Outcome Response.

(** The world is the log of requests put on the wire. *)
Definition do_fetch (r : Request) : Async (list Request) Response :=
  fun log => (log ++ [r], fetch r).

(** The object returned on every failure path. *)
Definition failure (msg : JsVal) : QueryResult :=
  {| success := false; data := Some JNull; count := Some (JNum 0);
     error := msg |}.

Definition executeQuranQuery (sql : string) (params : list Param)
  : Async (list Request) QueryResult :=
  match truthy_str API_BASE_URL with
  | None =>
      ret (failure (Some (JStr "Missing EXPO_PUBLIC_QURAN_API_BASE_URL")))
  | Some base =>
      try_catch
        (let* body := lift (JSON_stringify sql params) in
         let* response := do_fetch (query_request base body) in
         let* data := lift (resp_json response) in
         let* ok := lift (get "success" data) in
         if truthy ok then
           let* d := lift (get "data" data) in
           let* c := lift (get "count" data) in
           ret {| success := true; data := d; count := c;
                  error := undefined |}
         else
           let* m := lift (get "message" data) in
           ret (failure (if truthy m then m
                         else Some (JStr "Query failed"))))%async
        (fun e =>
           ret (failure
                  (Some (JStr (match e with
                               | ThrownError message => message
                               | ThrownValue => "Network error"
                               end)))))
  end.

End WithEnvironment.

End QuranApi.

(** ** services/quranAudioService.ts *)

Module AudioService.

Record VerseTiming : Type :=
  { verse_key : string;
    timestamp_from : Z;  (* milliseconds *)
    timestamp_to : Z;    (* milliseconds *)
    segments : list (list Z) }.

Record SurahAudioData : Type :=
  { audioUrl : string;
    verseTimings : list VerseTiming;
    duration : Z;
    chapterId : Z }.

Record ApiAudioFile : Type :=
  { audio_url : string;
    verse_timings : option (list VerseTiming);
    chapter_id : Z;
    file_duration : option Z }.

Record ApiResponse : Type :=
  { audio_file : option ApiAudioFile;
    audio_files : option (list ApiAudioFile) }.

(** Reciter ids of the [RECITERS] table. *)
Inductive ReciterId : Type :=
| MISHARY_ALAFASY | ABDUL_BASIT | SUDAIS | MINSHAWI | HUSARY.

Definition reciter_number (r : ReciterId) : Z :=
  match r with
  | MISHARY_ALAFASY => 7
  | ABDUL_BASIT => 1
  | SUDAIS => 2
  | MINSHAWI => 5
  | HUSARY => 4
  end.

Record Request : Type :=
  { req_url : string;
    req_apikey : string;
    req_content_type : string }.

Record Response : Type :=
  { resp_ok : bool;
    resp_status : Z;
    resp_statusText : string;
    resp_json : Outcome ApiResponse }.

Section WithEnvironment.

(** [process.env.EXPO_PUBLIC_SUPABASE_URL] and
    [process.env.EXPO_PUBLIC_SUPABASE_PUBLISHABLE_KEY] *)
Variable SUPABASE_URL : option string.
Variable SUPABASE_ANON_KEY : option string.
Variable fetch : Request -> Outcome Response.

(** The world is the log of requests put on the wire. *)
Definition do_fetch (r : Request) : Async (list Request) Response :=
  fun log => (log ++ [r], fetch r).

(** [data.audio_files?.[0] || data.audio_file] *)
Definition pick_audio_file (d : ApiResponse) : option ApiAudioFile :=
  match audio_files d with
  | Some (f :: _) => Some f
  | _ => audio_file d
  end.

(** [surahId] ranges over the integers; a fraction, or [NaN], which
    passes the range test, is outside the model. *)
Definition fetchSurahAudio (surahId : Z) (reciterId : ReciterId)
  : Async (list Request) SurahAudioData :=
  match truthy_str SUPABASE_URL, truthy_str SUPABASE_ANON_KEY with
  | Some base, Some key =>
      if (surahId <? 1) || (surahId >? 114) then
        throw (ThrownError
          ("Invalid surah ID: " +:+ String_of_Z surahId
             +:+ ". Must be between 1 and 114."))
      else
        (let url := base +:+ "/functions/v1/quran-audio-proxy?reciterId="
                      +:+ String_of_Z (reciter_number reciterId)
                      +:+ "&chapter=" +:+ String_of_Z surahId in
         let* response :=
           do_fetch {| req_url := url; req_apikey := key;
                       req_content_type := "application/json" |} in
         if negb (resp_ok response) then
           throw (ThrownError
             ("Failed to fetch audio data: "
                +:+ String_of_Z (resp_status response) +:+ " "
                +:+ resp_statusText response))
         else
           let* data := lift (resp_json response) in
           match pick_audio_file data with
           | None =>
               throw (ThrownError
                 ("No audio file found for surah " +:+ String_of_Z surahId))
           | Some audioFile =>
               ret {| audioUrl := audio_url audioFile;
                      verseTimings :=
                        match verse_timings audioFile with
                        | Some ts => ts
                        | None => []
                        end;
                      duration :=
                        match file_duration audioFile with
                        | Some d => d
                        | None => 0
                        end;
                      chapterId := chapter_id audioFile |}
           end)%async
  | _, _ =>
      throw (ThrownError
        "Missing EXPO_PUBLIC_SUPABASE_URL or EXPO_PUBLIC_SUPABASE_PUBLISHABLE_KEY")
  end.

End WithEnvironment.

(** The interval test of the loop body. *)
Definition contains_time (currentTimeMs : Z) (timing : VerseTiming) : bool :=
  (currentTimeMs >=? timestamp_from timing)
  && (currentTimeMs <? timestamp_to timing).

Fixpoint findCurrentVerseTiming (currentTimeMs : Z)
  (verseTimings : list VerseTiming) : option VerseTiming :=
  match verseTimings with
  | [] => None
  | timing :: rest =>
      if contains_time currentTimeMs timing then Some timing
      else findCurrentVerseTiming currentTimeMs rest
  end.

(** [verseTimings.find((t) => t.verse_key === verseKey) || null] *)
Definition getVerseTimingByNumber (surahId verseNumber : Z)
  (verseTimings : list VerseTiming) : option VerseTiming :=
  let verseKey := String_of_Z surahId +:+ ":" +:+ String_of_Z verseNumber in
  List.find (fun t => String.eqb (verse_key t) verseKey) verseTimings.

End AudioService.

(** ** screens/ReadScreen.tsx: the last verse scrolled past *)

Module ReadScreen.

Section GetLastViewedVerse.

(** [verseOffsetsRef.current]: layout offset recorded for each verse
    number by [onVerseLayout]. Its keys are verse numbers, so
    [Number(key)] gives the key back and is never [NaN]. *)
Variable offsets : gmap Z Z.
(** [insets.top] *)
Variable insets_top : Z.

(** [Object.keys(offsets).map(Number).filter(...).sort((a, b) => a - b)] *)
Definition verseNumbers : list Z :=
  merge_sort Z.le (elements (dom offsets)).

(** [offsets[verseNumber] <= viewportTop]; a missing entry compares
    false. *)
Definition offset_at_most (viewportTop verseNumber : Z) : bool :=
  match offsets !! verseNumber with
  | Some o => o <=? viewportTop
  | None => false
  end.

(** The [for] loop with its early [break]. *)
Fixpoint scan (viewportTop candidate : Z) (rest : list Z) : Z :=
  match rest with
  | [] => candidate
  | verseNumber :: rest' =>
      if offset_at_most viewportTop verseNumber
      then scan viewportTop verseNumber rest'
      else candidate
  end.

Definition getLastViewedVerse (scrollY : Z) : option Z :=
  match verseNumbers with
  | [] => None
  | first :: _ =>
      let viewportTop := scrollY + insets_top + 56 + 12 in
      Some (scan viewportTop first verseNumbers)
  end.

End GetLastViewedVerse.

End ReadScreen.

(** ** contexts/QuranAudioContext.tsx *)

Module AudioContext.

Import AudioService.

Inductive PlaybackState : Type := idle | loading | playing | paused.

(** The loaded case of expo-av's playback status. *)
Record LoadedStatus : Type :=
  { positionMillis : Z;
    durationMillis : option Z;
    isPlaying : bool;
    didJustFinish : bool }.

Inductive PlaybackStatus : Type :=
| NotLoaded
| Loaded (status : LoadedStatus).

(** Calls on the native [Audio.Sound] object. *)
Inductive SoundCommand : Type :=
| PauseAsync
| PlayAsync
| SetPositionAsync (ms : Z).

(** What the status callback closes over when [ensureSound] creates it. *)
Record SoundClosure : Type :=
  { captured_currentVerseKey : option string;
    captured_verseTimings : list VerseTiming }.

(** [pendingActionRef.current]: the deferred call. *)
Inductive PendingAction : Type :=
| PendingPlayVerse (surahId verseNumber : Z)
| PendingPlaySurah (surahId : Z) (fromVerse : option Z).

(** The provider's state cells and refs, and the commands sent to the
    sound object so far. *)
Record World : Type :=
  { audioUrl : option string;
    verseTimings : list VerseTiming;
    currentChapterId : option Z;
    currentVerseKey : option string;
    playbackState : PlaybackState;
    currentTime : QArith_base.Q;
    duration : QArith_base.Q;
    isSingleVerseMode : bool;
    pendingVerseNumber : option Z;
    soundRef : option SoundClosure;
    pendingActionRef : option PendingAction;
    singleVerseEndTimeRef : option Z;
    sound_commands : list SoundCommand }.

Definition setCurrentVerseKey (k : option string) (w : World) : World :=
  {| audioUrl := audioUrl w; verseTimings := verseTimings w;
     currentChapterId := currentChapterId w; currentVerseKey := k;
     playbackState := playbackState w; currentTime := currentTime w;
     duration := duration w; isSingleVerseMode := isSingleVerseMode w;
     pendingVerseNumber := pendingVerseNumber w; soundRef := soundRef w;
     pendingActionRef := pendingActionRef w;
     singleVerseEndTimeRef := singleVerseEndTimeRef w;
     sound_commands := sound_commands w |}.

Definition setPlaybackState (p : PlaybackState) (w : World) : World :=
  {| audioUrl := audioUrl w; verseTimings := verseTimings w;
     currentChapterId := currentChapterId w;
     currentVerseKey := currentVerseKey w;
     playbackState := p; currentTime := currentTime w;
     duration := duration w; isSingleVerseMode := isSingleVerseMode w;
     pendingVerseNumber := pendingVerseNumber w; soundRef := soundRef w;
     pendingActionRef := pendingActionRef w;
     singleVerseEndTimeRef := singleVerseEndTimeRef w;
     sound_commands := sound_commands w |}.

Definition setTimes (t d : QArith_base.Q) (w : World) : World :=
  {| audioUrl := audioUrl w; verseTimings := verseTimings w;
     currentChapterId := currentChapterId w;
     currentVerseKey := currentVerseKey w;
     playbackState := playbackState w; currentTime := t;
     duration := d; isSingleVerseMode := isSingleVerseMode w;
     pendingVerseNumber := pendingVerseNumber w; soundRef := soundRef w;
     pendingActionRef := pendingActionRef w;
     singleVerseEndTimeRef := singleVerseEndTimeRef w;
     sound_commands := sound_commands w |}.

Definition setIsSingleVerseMode (b : bool) (w : World) : World :=
  {| audioUrl := audioUrl w; verseTimings := verseTimings w;
     currentChapterId := currentChapterId w;
     currentVerseKey := currentVerseKey w;
     playbackState := playbackState w; currentTime := currentTime w;
     duration := duration w; isSingleVerseMode := b;
     pendingVerseNumber := pendingVerseNumber w; soundRef := soundRef w;
     pendingActionRef := pendingActionRef w;
     singleVerseEndTimeRef := singleVerseEndTimeRef w;
     sound_commands := sound_commands w |}.

Definition setPendingVerseNumber (v : option Z) (w : World) : World :=
  {| audioUrl := audioUrl w; verseTimings := verseTimings w;
     currentChapterId := currentChapterId w;
     currentVerseKey := currentVerseKey w;
     playbackState := playbackState w; currentTime := currentTime w;
     duration := duration w; isSingleVerseMode := isSingleVerseMode w;
     pendingVerseNumber := v; soundRef := soundRef w;
     pendingActionRef := pendingActionRef w;
     singleVerseEndTimeRef := singleVerseEndTimeRef w;
     sound_commands := sound_commands w |}.

Definition setSoundRef (c : option SoundClosure) (w : World) : World :=
  {| audioUrl := audioUrl w; verseTimings := verseTimings w;
     currentChapterId := currentChapterId w;
     currentVerseKey := currentVerseKey w;
     playbackState := playbackState w; currentTime := currentTime w;
     duration := duration w; isSingleVerseMode := isSingleVerseMode w;
     pendingVerseNumber := pendingVerseNumber w; soundRef := c;
     pendingActionRef := pendingActionRef w;
     singleVerseEndTimeRef := singleVerseEndTimeRef w;
     sound_commands := sound_commands w |}.

Definition setPendingActionRef (a : option PendingAction) (w : World)
  : World :=
  {| audioUrl := audioUrl w; verseTimings := verseTimings w;
     currentChapterId := currentChapterId w;
     currentVerseKey := currentVerseKey w;
     playbackState := playbackState w; currentTime := currentTime w;
     duration := duration w; isSingleVerseMode := isSingleVerseMode w;
     pendingVerseNumber := pendingVerseNumber w; soundRef := soundRef w;
     pendingActionRef := a;
     singleVerseEndTimeRef := singleVerseEndTimeRef w;
     sound_commands := sound_commands w |}.

Definition setSingleVerseEndTimeRef (e : option Z) (w : World) : World :=
  {| audioUrl := audioUrl w; verseTimings := verseTimings w;
     currentChapterId := currentChapterId w;
     currentVerseKey := currentVerseKey w;
     playbackState := playbackState w; currentTime := currentTime w;
     duration := duration w; isSingleVerseMode := isSingleVerseMode w;
     pendingVerseNumber := pendingVerseNumber w; soundRef := soundRef w;
     pendingActionRef := pendingActionRef w;
     singleVerseEndTimeRef := e;
     sound_commands := sound_commands w |}.

Definition send (c : SoundCommand) (w : World) : World :=
  {| audioUrl := audioUrl w; verseTimings := verseTimings w;
     currentChapterId := currentChapterId w;
     currentVerseKey := currentVerseKey w;
     playbackState := playbackState w; currentTime := currentTime w;
     duration := duration w; isSingleVerseMode := isSingleVerseMode w;
     pendingVerseNumber := pendingVerseNumber w; soundRef := soundRef w;
     pendingActionRef := pendingActionRef w;
     singleVerseEndTimeRef := singleVerseEndTimeRef w;
     sound_commands := sound_commands w ++ [c] |}.

(** [ms / 1000] *)
Definition seconds (ms : Z) : QArith_base.Q := QArith_base.Qmake ms 1000.

(** [key === current] for a key and a nullable current key. *)
Definition same_key (key : string) (current : option string) : bool :=
  match current with
  | Some k => String.eqb key k
  | None => false
  end.

(** The callback registered by [sound.setOnPlaybackStatusUpdate].
    [verseTimings] and [currentVerseKey] are the values captured when
    the sound was created; [singleVerseEndTimeRef] is read live. *)
Definition onPlaybackStatusUpdate (closure : SoundClosure)
  (status : PlaybackStatus) (w : World) : World :=
  match status with
  | NotLoaded => w
  | Loaded st =>
      let w := setTimes (seconds (positionMillis st))
                 (seconds (match durationMillis st with
                           | Some d => d
                           | None => 0
                           end)) w in
      let w :=
        if isPlaying st then setPlaybackState playing w
        else if (positionMillis st >? 0) && negb (didJustFinish st)
             then setPlaybackState paused w
             else w in
      let w :=
        match singleVerseEndTimeRef w with
        | Some endTime =>
            if positionMillis st >=? endTime then
              setSingleVerseEndTimeRef None
                (setIsSingleVerseMode false
                   (setPlaybackState paused (send PauseAsync w)))
            else w
        | None => w
        end in
      if isPlaying st
         && negb (Nat.eqb (length (captured_verseTimings closure)) 0)
      then
        match findCurrentVerseTiming (positionMillis st)
                (captured_verseTimings closure) with
        | Some timing =>
            if same_key (verse_key timing) (captured_currentVerseKey closure)
            then w
            else setCurrentVerseKey (Some (verse_key timing)) w
        | None => w
        end
      else w
  end.

(** A status event delivered by the native player to the registered
    callback, if a sound exists. *)
Definition status_update (status : PlaybackStatus) (w : World) : World :=
  match soundRef w with
  | Some closure => onPlaybackStatusUpdate closure status w
  | None => w
  end.

Definition ensureSound : Async World unit :=
  fun w =>
    match soundRef w with
    | Some _ => (w, Returns tt)
    | None =>
        (setSoundRef
           (Some {| captured_currentVerseKey := currentVerseKey w;
                    captured_verseTimings := verseTimings w |}) w,
         Returns tt)
    end.

Definition clearVerseEndBoundary : Async World unit :=
  modify (setSingleVerseEndTimeRef None).

Section WithEnvironment.

(** Whether the native player rejects an awaited call. *)
Variable sound_rejects : SoundCommand -> option Thrown.
(** [loadSurahAudio], which fetches and loads the recitation. *)
Variable loadSurahAudio : Z -> Async World unit.

(** [await sound.cmd()] *)
Definition await_sound (c : SoundCommand) : Async World unit :=
  fun w =>
    (send c w,
     match sound_rejects c with
     | Some t => Throws t
     | None => Returns tt
     end).

Definition playVerse (surahId verseNumber : Z) : Async World unit :=
  (let* _ := ensureSound in
   let* _ := modify (setPendingVerseNumber (Some verseNumber)) in
   let* w := read in
   if negb (match currentChapterId w with
            | Some c => c =? surahId
            | None => false
            end)
      || falsy_str (audioUrl w)
   then
     let* _ := modify (setPendingActionRef
                         (Some (PendingPlayVerse surahId verseNumber))) in
     loadSurahAudio surahId
   else
     match getVerseTimingByNumber surahId verseNumber (verseTimings w) with
     | None => modify (setPendingVerseNumber None)
     | Some timing =>
         let* _ := clearVerseEndBoundary in
         let* _ := await_sound (SetPositionAsync (timestamp_from timing)) in
         let* _ := modify (setCurrentVerseKey (Some (verse_key timing))) in
         let* _ := modify (setIsSingleVerseMode true) in
         let* _ := modify (setSingleVerseEndTimeRef
                             (Some (timestamp_to timing))) in
         try_finally
           (try_catch
              (let* _ := await_sound PlayAsync in
               modify (setPlaybackState playing))
              (fun _ =>
                 let* _ := modify (setPlaybackState idle) in
                 modify (setSingleVerseEndTimeRef None)))
           (modify (setPendingVerseNumber None))
     end)%async.

End WithEnvironment.

End AudioContext.

(** ** hooks/useBookmarks.ts *)

Module Bookmarks.

Record Bookmark : Type :=
  { id : string;
    surah_number : Z;
    verse_number : Z;
    note : option string;
    created_at : string }.

Record ThematicBookmark : Type :=
  { thematic_id : string;
    passage_id : string;
    thematic_surah_number : Z;
    theme_name : string;
    thematic_note : option string;
    thematic_created_at : string }.

Record User : Type := { user_id : string }.

Record Toast : Type :=
  { title : string;
    description : string;
    destructive : bool }.

(** The error object of a failed backend call, with its [code]. *)
Record DbError : Type := { code : option string }.

(** The hook's state cells, and the alerts shown. *)
Record World : Type :=
  { bookmarks : list Bookmark;
    thematicBookmarks : list ThematicBookmark;
    loading : bool;
    toasts : list Toast }.

Definition setBookmarks (f : list Bookmark -> list Bookmark) (w : World)
  : World :=
  {| bookmarks := f (bookmarks w);
     thematicBookmarks := thematicBookmarks w;
     loading := loading w; toasts := toasts w |}.

Definition setThematicBookmarks (l : list ThematicBookmark) (w : World)
  : World :=
  {| bookmarks := bookmarks w; thematicBookmarks := l;
     loading := loading w; toasts := toasts w |}.

Definition setLoading (b : bool) (w : World) : World :=
  {| bookmarks := bookmarks w; thematicBookmarks := thematicBookmarks w;
     loading := b; toasts := toasts w |}.

Definition toast (t : Toast) (w : World) : World :=
  {| bookmarks := bookmarks w; thematicBookmarks := thematicBookmarks w;
     loading := loading w; toasts := toasts w ++ [t] |}.

(** The row sent to [insert]. *)
Record InsertRow : Type :=
  { row_user_id : string;
    row_surah_number : Z;
    row_verse_number : Z;
    row_note : option string }.

Section WithBackend.

(** [supabase.auth.getUser()] *)
Variable getUser : option User.
(** [Date.now()] and [new Date().toISOString()] at the time of the call *)
Variable now : Z.
Variable nowISO : string.
(** [from("verse_bookmarks").insert(row)]: resolves with an optional
    error, or rejects. *)
Variable insert_verse_bookmark : InsertRow -> Outcome (option DbError).
(** [from("verse_bookmarks").delete().eq(...)...] *)
Variable delete_verse_bookmark : string -> Z -> Z -> Outcome (option DbError).
(** The two [select] calls of [fetchBookmarks]: rows (or [null]) and an
    optional error. *)
Variable select_verse_bookmarks
  : string -> option (list Bookmark) * option DbError.
Variable select_thematic_bookmarks
  : string -> option (list ThematicBookmark) * option DbError.

(** A caught value: the only thing the handlers inspect is [code]. *)
Definition thrown_code (e : Thrown + DbError) : option string :=
  match e with
  | inl _ => None
  | inr err => code err
  end.

Definition fetchBookmarks (w : World) : World :=
  match getUser with
  | None => setLoading false w
  | Some user =>
      match select_verse_bookmarks (user_id user) with
      | (_, Some _) => setLoading false w
      | (verseData, None) =>
          let w := setBookmarks
                     (fun _ => match verseData with
                               | Some l => l
                               | None => []
                               end) w in
          match select_thematic_bookmarks (user_id user) with
          | (_, Some _) => setLoading false w
          | (thematicData, None) =>
              setLoading false
                (setThematicBookmarks
                   (match thematicData with
                    | Some l => l
                    | None => []
                    end) w)
          end
      end
  end.

Definition isBookmarked (surahNumber verseNumber : Z) (w : World) : bool :=
  existsb
    (fun b => (surah_number b =? surahNumber)
              && (verse_number b =? verseNumber))
    (bookmarks w).

Definition addBookmark_failed (optimistic_id : string)
  (e : Thrown + DbError) (w : World) : World :=
  let w := setBookmarks
             (List.filter (fun b => negb (String.eqb (id b) optimistic_id))) w in
  match thrown_code e with
  | Some "23505" =>
      toast {| title := "Already bookmarked";
               description := "This verse is already in your bookmarks";
               destructive := false |} w
  | _ =>
      toast {| title := "Error";
               description := "Failed to add bookmark";
               destructive := true |} w
  end.

(** A call of [addBookmark] run from start to end with no other update
    of the hook's state in between: the optimistic insert, the backend
    call, and then either the rollback or the toast and the refresh
    ([fetchBookmarks()] is started without [await]; here it has
    completed when the call is over). The call cut at its [await] is
    [addBookmark_begin] and [addBookmark_settle] below. *)
Definition addBookmark (surahNumber verseNumber : Z) (note : option string)
  (w : World) : World :=
  match getUser with
  | None =>
      toast {| title := "Sign in to bookmark";
               description := "Please sign in to save verses";
               destructive := true |} w
  | Some user =>
      let optimisticBookmark :=
        {| id := "temp-" +:+ String_of_Z now;
           surah_number := surahNumber;
           verse_number := verseNumber;
           note := note;
           created_at := nowISO |} in
      let w := setBookmarks (fun prev => optimisticBookmark :: prev) w in
      match insert_verse_bookmark
              {| row_user_id := user_id user;
                 row_surah_number := surahNumber;
                 row_verse_number := verseNumber;
                 row_note := note |} with
      | Returns None =>
          toast {| title := "Bookmark added";
                   description :=
                     "Surah " +:+ String_of_Z surahNumber +:+ ", Verse "
                       +:+ String_of_Z verseNumber
                       +:+ " has been bookmarked";
                   destructive := false |}
            (fetchBookmarks w)
      | Returns (Some err) =>
          addBookmark_failed (id optimisticBookmark) (inr err) w
      | Throws t =>
          addBookmark_failed (id optimisticBookmark) (inl t) w
      end
  end.

(** The hook's [bookmarks] binding is the list of the render the
    callback belongs to; calls come from the current render, so it is
    the list held when the call starts. *)
Definition removeBookmark (surahNumber verseNumber : Z) (w : World)
  : World :=
  match getUser with
  | None => w
  | Some user =>
      let previousBookmarks := bookmarks w in
      let w := setBookmarks
                 (List.filter (fun b =>
                            negb ((surah_number b =? surahNumber)
                                  && (verse_number b =? verseNumber)))) w in
      match delete_verse_bookmark (user_id user) surahNumber verseNumber with
      | Returns None =>
          toast {| title := "Bookmark removed";
                   description :=
                     "Surah " +:+ String_of_Z surahNumber +:+ ", Verse "
                       +:+ String_of_Z verseNumber
                       +:+ " bookmark has been removed";
                   destructive := false |} w
      | _ =>
          toast {| title := "Error";
                   description := "Failed to remove bookmark";
                   destructive := true |}
            (setBookmarks (fun _ => previousBookmarks) w)
      end
  end.

(** *** The mutations cut at the backend call

    [addBookmark] and [removeBookmark] suspend at [await supabase...];
    until the backend answers, other calls and a refresh started
    earlier can update the list. What a call holds across the [await]
    is returned by its first half and given to its second half, which
    runs on the state of the moment the backend answers. *)

(** What [addBookmark] holds while the insert is pending. *)
Record PendingAdd : Type :=
  { optimisticBookmark : Bookmark;
    inserted_row : InsertRow }.

(** [addBookmark] up to the [await] of the insert. *)
Definition addBookmark_begin (surahNumber verseNumber : Z)
  (note : option string) (w : World) : World * option PendingAdd :=
  match getUser with
  | None =>
      (toast {| title := "Sign in to bookmark";
                description := "Please sign in to save verses";
                destructive := true |} w,
       None)
  | Some user =>
      let optimisticBookmark :=
        {| id := "temp-" +:+ String_of_Z now;
           surah_number := surahNumber;
           verse_number := verseNumber;
           note := note;
           created_at := nowISO |} in
      (setBookmarks (fun prev => optimisticBookmark :: prev) w,
       Some {| optimisticBookmark := optimisticBookmark;
               inserted_row :=
                 {| row_user_id := user_id user;
                    row_surah_number := surahNumber;
                    row_verse_number := verseNumber;
                    row_note := note |} |})
  end.

(** [addBookmark] from the moment the insert has settled with [result].
    The flag tells whether [fetchBookmarks()] was started; the refresh
    is not awaited and lands later, as a step of its own. *)
Definition addBookmark_settle (p : PendingAdd)
  (result : Outcome (option DbError)) (w : World) : World * bool :=
  match result with
  | Returns None =>
      (toast {| title := "Bookmark added";
                description :=
                  "Surah " +:+ String_of_Z (row_surah_number (inserted_row p))
                    +:+ ", Verse "
                    +:+ String_of_Z (row_verse_number (inserted_row p))
                    +:+ " has been bookmarked";
                destructive := false |} w,
       true)
  | Returns (Some err) =>
      (addBookmark_failed (id (optimisticBookmark p)) (inr err) w, false)
  | Throws t =>
      (addBookmark_failed (id (optimisticBookmark p)) (inl t) w, false)
  end.

(** [removeBookmark] up to the [await] of the delete; it holds
    [previousBookmarks] across it. *)
Definition removeBookmark_begin (surahNumber verseNumber : Z) (w : World)
  : World * option (list Bookmark) :=
  match getUser with
  | None => (w, None)
  | Some user =>
      (setBookmarks
         (List.filter (fun b =>
                    negb ((surah_number b =? surahNumber)
                          && (verse_number b =? verseNumber)))) w,
       Some (bookmarks w))
  end.

(** [removeBookmark] from the moment the delete has settled. *)
Definition removeBookmark_settle (surahNumber verseNumber : Z)
  (previousBookmarks : list Bookmark) (result : Outcome (option DbError))
  (w : World) : World :=
  match result with
  | Returns None =>
      toast {| title := "Bookmark removed";
               description :=
                 "Surah " +:+ String_of_Z surahNumber +:+ ", Verse "
                   +:+ String_of_Z verseNumber
                   +:+ " bookmark has been removed";
               destructive := false |} w
  | _ =>
      toast {| title := "Error";
               description := "Failed to remove bookmark";
               destructive := true |}
        (setBookmarks (fun _ => previousBookmarks) w)
  end.

End WithBackend.

End Bookmarks.

(** ** hooks/useStripeSubscription.ts *)

Module StripeSubscription.

Record ProductSubscription : Type :=
  { subscribed : bool;
    subscription_end : option string }.

Record StripeSubscriptions : Type :=
  { read : ProductSubscription;
    audiobook : ProductSubscription;
    bundle : ProductSubscription }.

Definition SUBSCRIPTION_CACHE_KEY : string := "subscription_status".
Definition SUBSCRIPTION_CACHE_EXPIRY_KEY : string :=
  "subscription_status_expiry".
Definition CACHE_DURATION_MS : Z := 3600000.

Record CachedSubscription : Type :=
  { cached_subscriptions : StripeSubscriptions;
    cached_userId : string }.

Definition unsubscribed : ProductSubscription :=
  {| subscribed := false; subscription_end := None |}.

Definition DEFAULT_SUBSCRIPTIONS : StripeSubscriptions :=
  {| read := unsubscribed; audiobook := unsubscribed;
     bundle := unsubscribed |}.

(** The JSON documents that the records denote. *)
Definition json_of_product (p : ProductSubscription) : Json :=
  JObj [("subscribed", JBool (subscribed p));
        ("subscription_end",
         match subscription_end p with
         | Some e => JStr e
         | None => JNull
         end)].

Definition json_of_subscriptions (s : StripeSubscriptions) : Json :=
  JObj [("read", json_of_product (read s));
        ("audiobook", json_of_product (audiobook s));
        ("bundle", json_of_product (bundle s))].

Definition json_of_cached (c : CachedSubscription) : Json :=
  JObj [("subscriptions", json_of_subscriptions (cached_subscriptions c));
        ("userId", JStr (cached_userId c))].

(** Calls on the native key-value store. *)
Inductive StorageOp : Type :=
| GetItem (key : string)
| SetItem (key value : string)
| MultiRemove (keys : list string).

Definition null : JsVal := Some JNull.

Section Cache.

(** Whether the native store rejects a call. *)
Variable storage_rejects : StorageOp -> option Thrown.
Variable JSON_stringify : Json -> string.
Variable JSON_parse : string -> Outcome Json.

Definition getItem (key : string)
  : Async (gmap string string) (option string) :=
  fun store =>
    match storage_rejects (GetItem key) with
    | Some t => (store, Throws t)
    | None => (store, Returns (store !! key))
    end.

Definition setItem (key value : string)
  : Async (gmap string string) unit :=
  fun store =>
    match storage_rejects (SetItem key value) with
    | Some t => (store, Throws t)
    | None => (<[key := value]> store, Returns tt)
    end.

Definition multiRemove (keys : list string)
  : Async (gmap string string) unit :=
  fun store =>
    match storage_rejects (MultiRemove keys) with
    | Some t => (store, Throws t)
    | None => (foldr delete store keys, Returns tt)
    end.

(** [parsed.userId !== userId] *)
Definition differs_from (v : JsVal) (userId : string) : bool :=
  match v with
  | Some (JStr u) => negb (String.eqb u userId)
  | _ => true
  end.

(** [Date.now() > parseInt(expiry, 10)]; a comparison with [NaN] is
    false. *)
Definition expired (now : Z) (expiry : string) : bool :=
  match parseInt10 expiry with
  | Some e => now >? e
  | None => false
  end.

(** [now] is the value of [Date.now()] during the call. *)
Definition getCachedSubscription (now : Z) (userId : string)
  : Async (gmap string string) JsVal :=
  try_catch
    (let* cached := getItem SUBSCRIPTION_CACHE_KEY in
     let* expiry := getItem SUBSCRIPTION_CACHE_EXPIRY_KEY in
     match cached, expiry with
     | Some cached, Some expiry =>
         if String.eqb cached "" || String.eqb expiry "" then ret null
         else if expired now expiry then
           let* _ := multiRemove [SUBSCRIPTION_CACHE_KEY;
                                  SUBSCRIPTION_CACHE_EXPIRY_KEY] in
           ret null
         else
           let* parsed := lift (JSON_parse cached) in
           let* uid := lift (get "userId" parsed) in
           if differs_from uid userId then
             let* _ := multiRemove [SUBSCRIPTION_CACHE_KEY;
                                    SUBSCRIPTION_CACHE_EXPIRY_KEY] in
             ret null
           else
             let* subs := lift (get "subscriptions" parsed) in
             ret subs
     | _, _ => ret null
     end)%async
    (fun _ => ret null).

Definition cacheSubscription (now : Z) (userId : string)
  (subscriptions : StripeSubscriptions)
  : Async (gmap string string) unit :=
  try_catch
    (let cached := {| cached_subscriptions := subscriptions;
                      cached_userId := userId |} in
     let* _ := setItem SUBSCRIPTION_CACHE_KEY
                 (JSON_stringify (json_of_cached cached)) in
     setItem SUBSCRIPTION_CACHE_EXPIRY_KEY
       (String_of_Z (now + CACHE_DURATION_MS)))%async
    (fun _ => ret tt).

End Cache.

(** *** The subscription check *)

Record User : Type := { user_id : string }.
Record Session : Type := { access_token : option string }.

Record SubscriptionPlan : Type :=
  { stripe_product_id : option string;
    product_type : string }.

(** An entry of [data.subscriptions]. *)
Record ApiSubscription : Type :=
  { product_id : string;
    api_subscription_end : option string;
    status : option string }.

(** The [data] of the [check-subscription] function. *)
Record CheckData : Type :=
  { data_error : option string;
    data_subscriptions : option (list ApiSubscription) }.

(** What [supabase.functions.invoke] resolves with. *)
Record InvokeResult : Type :=
  { invoke_data : option CheckData;
    invoke_error : option string (* fnError.message *) }.

(** What the backend answers during one check, and the clock when the
    result is cached. *)
Record CheckEnv : Type :=
  { env_getSession : Outcome (option Session);
    env_invoke : Outcome InvokeResult;
    env_now : Z }.

(** [!session?.access_token] *)
Definition no_token (s : option Session) : bool :=
  match s with
  | Some s => falsy_str (access_token s)
  | None => true
  end.

(** [newSubscriptions[productType] = value] *)
Definition set_product (productType : string) (value : ProductSubscription)
  (s : StripeSubscriptions) : StripeSubscriptions :=
  if String.eqb productType "read" then
    {| read := value; audiobook := audiobook s; bundle := bundle s |}
  else if String.eqb productType "audiobook" then
    {| read := read s; audiobook := value; bundle := bundle s |}
  else if String.eqb productType "bundle" then
    {| read := read s; audiobook := audiobook s; bundle := value |}
  else s.

(** The body of [for (const plan of currentPlans)] for one plan. *)
Definition apply_plan (sub : ApiSubscription) (s : StripeSubscriptions)
  (plan : SubscriptionPlan) : StripeSubscriptions :=
  match stripe_product_id plan with
  | Some pid =>
      if String.eqb pid (product_id sub) then
        let value := {| subscribed := true;
                        subscription_end := api_subscription_end sub |} in
        let s := set_product (product_type plan) value s in
        if String.eqb (product_type plan) "bundle" then
          {| read := value; audiobook := value; bundle := bundle s |}
        else s
      else s
  | None => s
  end.

Definition is_canceled (sub : ApiSubscription) : bool :=
  match status sub with
  | Some st => String.eqb st "canceled" || String.eqb st "cancelled"
  | None => false
  end.

(** The callback of [data.subscriptions.forEach]. *)
Definition apply_subscription (currentPlans : list SubscriptionPlan)
  (s : StripeSubscriptions) (sub : ApiSubscription) : StripeSubscriptions :=
  if is_canceled sub then s
  else fold_left (apply_plan sub) currentPlans s.

Definition compute_subscriptions (currentPlans : list SubscriptionPlan)
  (subs : option (list ApiSubscription)) : StripeSubscriptions :=
  match subs with
  | Some subs =>
      fold_left (apply_subscription currentPlans) subs DEFAULT_SUBSCRIPTIONS
  | None => DEFAULT_SUBSCRIPTIONS
  end.

(** The closure of a running [performCheck]. *)
Record PendingCheck : Type :=
  { promise : nat;
    currentUser : User;
    currentPlans : list SubscriptionPlan }.

(** The hook's state cells and refs, the key-value store, and the checks
    that have started and not yet settled. *)
Record World : Type :=
  { subscriptions : StripeSubscriptions;
    loading : bool;
    error : option string;
    hasCachedData : bool;
    inFlightRequestRef : option nat;
    lastCheckedUserIdRef : option string;
    hasCompletedInitialCheckRef : bool;
    store : gmap string string;
    pending : list PendingCheck;
    next_promise : nat }.

Definition setSubscriptions (s : StripeSubscriptions) (w : World) : World :=
  {| subscriptions := s; loading := loading w; error := error w;
     hasCachedData := hasCachedData w;
     inFlightRequestRef := inFlightRequestRef w;
     lastCheckedUserIdRef := lastCheckedUserIdRef w;
     hasCompletedInitialCheckRef := hasCompletedInitialCheckRef w;
     store := store w; pending := pending w;
     next_promise := next_promise w |}.

Definition setLoading (b : bool) (w : World) : World :=
  {| subscriptions := subscriptions w; loading := b; error := error w;
     hasCachedData := hasCachedData w;
     inFlightRequestRef := inFlightRequestRef w;
     lastCheckedUserIdRef := lastCheckedUserIdRef w;
     hasCompletedInitialCheckRef := hasCompletedInitialCheckRef w;
     store := store w; pending := pending w;
     next_promise := next_promise w |}.

Definition setError (e : option string) (w : World) : World :=
  {| subscriptions := subscriptions w; loading := loading w; error := e;
     hasCachedData := hasCachedData w;
     inFlightRequestRef := inFlightRequestRef w;
     lastCheckedUserIdRef := lastCheckedUserIdRef w;
     hasCompletedInitialCheckRef := hasCompletedInitialCheckRef w;
     store := store w; pending := pending w;
     next_promise := next_promise w |}.

Definition setHasCachedData (b : bool) (w : World) : World :=
  {| subscriptions := subscriptions w; loading := loading w;
     error := error w; hasCachedData := b;
     inFlightRequestRef := inFlightRequestRef w;
     lastCheckedUserIdRef := lastCheckedUserIdRef w;
     hasCompletedInitialCheckRef := hasCompletedInitialCheckRef w;
     store := store w; pending := pending w;
     next_promise := next_promise w |}.

Definition setInFlightRequestRef (p : option nat) (w : World) : World :=
  {| subscriptions := subscriptions w; loading := loading w;
     error := error w; hasCachedData := hasCachedData w;
     inFlightRequestRef := p;
     lastCheckedUserIdRef := lastCheckedUserIdRef w;
     hasCompletedInitialCheckRef := hasCompletedInitialCheckRef w;
     store := store w; pending := pending w;
     next_promise := next_promise w |}.

Definition setLastCheckedUserIdRef (u : option string) (w : World) : World :=
  {| subscriptions := subscriptions w; loading := loading w;
     error := error w; hasCachedData := hasCachedData w;
     inFlightRequestRef := inFlightRequestRef w;
     lastCheckedUserIdRef := u;
     hasCompletedInitialCheckRef := hasCompletedInitialCheckRef w;
     store := store w; pending := pending w;
     next_promise := next_promise w |}.

Definition setHasCompletedInitialCheckRef (b : bool) (w : World) : World :=
  {| subscriptions := subscriptions w; loading := loading w;
     error := error w; hasCachedData := hasCachedData w;
     inFlightRequestRef := inFlightRequestRef w;
     lastCheckedUserIdRef := lastCheckedUserIdRef w;
     hasCompletedInitialCheckRef := b;
     store := store w; pending := pending w;
     next_promise := next_promise w |}.

Definition setStore (st : gmap string string) (w : World) : World :=
  {| subscriptions := subscriptions w; loading := loading w;
     error := error w; hasCachedData := hasCachedData w;
     inFlightRequestRef := inFlightRequestRef w;
     lastCheckedUserIdRef := lastCheckedUserIdRef w;
     hasCompletedInitialCheckRef := hasCompletedInitialCheckRef w;
     store := st; pending := pending w;
     next_promise := next_promise w |}.

Definition setPending (l : list PendingCheck) (n : nat) (w : World) : World :=
  {| subscriptions := subscriptions w; loading := loading w;
     error := error w; hasCachedData := hasCachedData w;
     inFlightRequestRef := inFlightRequestRef w;
     lastCheckedUserIdRef := lastCheckedUserIdRef w;
     hasCompletedInitialCheckRef := hasCompletedInitialCheckRef w;
     store := store w; pending := l; next_promise := n |}.

(** The three setters of the signed-out and auth-error branches. *)
Definition reset_to_default (w : World) : World :=
  setHasCachedData false
    (setLoading false (setSubscriptions DEFAULT_SUBSCRIPTIONS w)).

Definition mentions_auth (message : string) : bool :=
  includes "Auth" message || includes "session" message.

(** How a call of [checkSubscription] ends for its caller. *)
Inductive CallResult : Type :=
| ReturnedEarly           (* resolved at once, no check behind it *)
| Joined (p : nat)        (* follows the check already in flight *)
| Started (p : nat).      (* follows a check started by this call *)

Section Check.

Variable storage_rejects : StorageOp -> option Thrown.
Variable JSON_stringify : Json -> string.

(** Run a storage action on the store inside the hook's world. *)
Definition on_store {A} (m : Async (gmap string string) A)
  : Async World A :=
  fun w => match m (store w) with (st, o) => (setStore st w, o) end.

(** [performCheck] after its first [await]: the [try] block, the
    [catch] and the [finally]. *)
Definition performCheck_settle (env : CheckEnv) (pc : PendingCheck)
  : Async World unit :=
  try_finally
    (try_catch
       (let* freshSession := lift (env_getSession env) in
        if no_token freshSession then modify reset_to_default
        else
          let* result := lift (env_invoke env) in
          match invoke_error result with
          | Some message =>
              if mentions_auth message then modify reset_to_default
              else throw (ThrownError message)
          | None =>
              match invoke_data result with
              | None =>
                  throw (ThrownError
                           "Cannot read property 'subscriptions' of null")
              | Some data =>
                  match truthy_str (data_error data) with
                  | Some e =>
                      if mentions_auth e then modify reset_to_default
                      else throw (ThrownError e)
                  | None =>
                      let newSubscriptions :=
                        compute_subscriptions (currentPlans pc)
                          (data_subscriptions data) in
                      let* _ := on_store
                        (cacheSubscription storage_rejects JSON_stringify
                           (env_now env) (user_id (currentUser pc))
                           newSubscriptions) in
                      let* _ := modify (setLastCheckedUserIdRef
                                  (Some (user_id (currentUser pc)))) in
                      let* _ := modify
                                  (setHasCompletedInitialCheckRef true) in
                      let* _ := modify (setSubscriptions newSubscriptions) in
                      let* _ := modify (setHasCachedData true) in
                      modify (setError None)
                  end
              end
          end)%async
       (fun err =>
          let errorMessage :=
            match err with
            | ThrownError message => message
            | ThrownValue => "Failed to check subscription"
            end in
          if negb (includes "Auth" errorMessage)
             && negb (includes "session" errorMessage)
          then modify (setError (Some errorMessage))
          else ret tt))
    (let* _ := modify (setLoading false) in
     modify (setInFlightRequestRef None))%async.

(** The tail of [checkSubscription]: [performCheck] runs up to its first
    [await] and its promise is stored in the in-flight slot. *)
Definition start_check (user : User) (plans : list SubscriptionPlan)
  (silent : bool) (w : World) : World * CallResult :=
  let p := next_promise w in
  let w := if negb silent && negb (hasCompletedInitialCheckRef w)
           then setLoading true w else w in
  (setInFlightRequestRef (Some p)
     (setPending
        (pending w ++ [{| promise := p; currentUser := user;
                          currentPlans := plans |}])
        (S p) w),
   Started p).

(** A call of [checkSubscription(options)] from a render whose [user],
    [session] and plans are the given ones: the synchronous part, up to
    the first [await] of [performCheck]. *)
Definition checkSubscription (user : option User) (session : option Session)
  (plans : list SubscriptionPlan) (silent force : bool) (w : World)
  : World * CallResult :=
  match user with
  | Some currentUser =>
      if no_token session then
        (setHasCompletedInitialCheckRef true (reset_to_default w),
         ReturnedEarly)
      else
        match inFlightRequestRef w with
        | Some p =>
            if negb force then (w, Joined p)
            else start_check currentUser plans silent w
        | None => start_check currentUser plans silent w
        end
  | None =>
      (setHasCompletedInitialCheckRef true (reset_to_default w),
       ReturnedEarly)
  end.

(** The check behind promise [p] settles with the backend answers
    [env]. *)
Definition settle (p : nat) (env : CheckEnv) (w : World) : World :=
  match List.find (fun pc => Nat.eqb (promise pc) p) (pending w) with
  | Some pc =>
      fst (performCheck_settle env pc
             (setPending
                (List.filter (fun pc => negb (Nat.eqb (promise pc) p))
                   (pending w))
                (next_promise w) w))
  | None => w
  end.

(** What can happen to the hook: a call, or a running check settling. *)
Inductive Event : Type :=
| Call (user : option User) (session : option Session)
    (plans : list SubscriptionPlan) (silent force : bool)
| Settle (p : nat) (env : CheckEnv).

Definition step (e : Event) (w : World) : World :=
  match e with
  | Call user session plans silent force =>
      fst (checkSubscription user session plans silent force w)
  | Settle p env => settle p env w
  end.

Definition run (events : list Event) (w : World) : World :=
  fold_left (fun w e => step e w) events w.

End Check.

Definition hasReadAccess (s : StripeSubscriptions) : bool :=
  subscribed (read s) || subscribed (bundle s).
Definition hasAudiobookAccess (s : StripeSubscriptions) : bool :=
  subscribed (audiobook s) || subscribed (bundle s).
Definition hasBundleAccess (s : StripeSubscriptions) : bool :=
  subscribed (bundle s).

End StripeSubscription.

(** ** utils/stripFootnoteTags.ts *)

Module Footnotes.

(** A JavaScript string is its sequence of UTF-16 code units. *)
Definition code_units (s : string) : list N :=
  map N_of_ascii (list_ascii_of_string s).

(** The character class [\s]. *)
Definition is_white_space (u : N) : bool :=
  ((9 <=? u) && (u <=? 13) || (u =? 32) || (u =? 160) || (u =? 5760)
   || (8192 <=? u) && (u <=? 8202) || (u =? 8232) || (u =? 8233)
   || (u =? 8239) || (u =? 8287) || (u =? 12288) || (u =? 65279))%N.

(** Canonicalisation under the [i] flag. Against the ASCII characters of
    the three patterns only the ASCII letters fold: a code unit above
    127 never canonicalises to an ASCII one. *)
Definition canonicalize (u : N) : N :=
  if ((97 <=? u) && (u <=? 122))%N then (u - 32)%N else u.

Inductive CharSet : Type :=
| Literal (u : N)      (* a pattern character *)
| WhiteSpace           (* \s *)
| NotChar (u : N).     (* [^c] *)

Inductive Atom : Type :=
| One (c : CharSet)
| Many (c : CharSet)   (* c*, greedy *)
| Many1 (c : CharSet). (* c+, greedy *)

(** Does a code unit belong to a character set, ignoring case? *)
Definition in_set (c : CharSet) (u : N) : bool :=
  match c with
  | Literal l => (canonicalize u =? canonicalize l)%N
  | WhiteSpace => is_white_space u
  | NotChar l => negb (canonicalize u =? canonicalize l)%N
  end.

(** Greedy repetition with backtracking: take as many as possible, give
    back one at a time until the rest of the pattern matches. *)
Fixpoint many (p : N -> bool) (k : list N -> option (list N))
  (s : list N) : option (list N) :=
  match s with
  | u :: rest =>
      if p u then
        match many p k rest with
        | Some r => Some r
        | None => k s
        end
      else k s
  | [] => k []
  end.

(** Match a pattern at the start of [s]; the result is the input left
    after the match. *)
Fixpoint match_here (re : list Atom) (s : list N) : option (list N) :=
  match re with
  | [] => Some s
  | One c :: re' =>
      match s with
      | u :: rest => if in_set c u then match_here re' rest else None
      | [] => None
      end
  | Many c :: re' => many (in_set c) (match_here re') s
  | Many1 c :: re' =>
      match s with
      | u :: rest =>
          if in_set c u then many (in_set c) (match_here re') rest else None
      | [] => None
      end
  end.

(** [s.replace(re, "")] with the [g] flag: scan left to right, drop each
    match and resume after it. [skip] counts the code units of the
    current match still to drop. *)
Fixpoint replace_from (re : list Atom) (skip : nat) (s : list N) : list N :=
  match s with
  | [] => []
  | u :: rest =>
      match skip with
      | S k => replace_from re k rest
      | O =>
          match match_here re s with
          | Some remaining =>
              replace_from re
                (length s - length remaining - 1)%nat rest
          | None => u :: replace_from re O rest
          end
      end
  end.

Definition replace_all (re : list Atom) (s : list N) : list N :=
  replace_from re O s.

Definition literal (s : string) : list Atom :=
  map (fun u => One (Literal u)) (code_units s).

Definition gt : N := 62. (* > *)
Definition lt : N := 60. (* < *)

(** [/<footnote\s+[^>]*>/gi] *)
Definition footnote_open : list Atom :=
  literal "<footnote"
    ++ [Many1 WhiteSpace; Many (NotChar gt); One (Literal gt)].

(** [/<\/footnote>/gi] *)
Definition footnote_close : list Atom := literal "</footnote>".

(** [/<footnote[^>]*\/>/gi] *)
Definition footnote_self_closing : list Atom :=
  literal "<footnote" ++ [Many (NotChar gt)] ++ literal "/>".

(** [text] is [None] for [null] and [undefined]. *)
Definition stripFootnoteTags (text : option (list N)) : list N :=
  replace_all footnote_self_closing
    (replace_all footnote_close
       (replace_all footnote_open
          (match text with
           | Some t => t
           | None => []
           end))).

(** Does some substring of [s] match the pattern? *)
Fixpoint has_match (re : list Atom) (s : list N) : bool :=
  match match_here re s with
  | Some _ => true
  | None =>
      match s with
      | [] => false
      | _ :: rest => has_match re rest
      end
  end.

End Footnotes.

(** ** Vocabulary of the statements *)

Module Spec.

Import QuranApi.

(** The message that a [catch] block reads off a thrown value. *)
Definition thrown_message (t : Thrown) : string :=
  match t with
  | ThrownError message => message
  | ThrownValue => "Network error"
  end.

(** What one query meets on its way: something throws (serialising the
    request, the fetch, reading the body), or a body arrives. *)
Inductive Exchange : Type :=
| Failed (t : Thrown)
| Body (j : Json).

Definition exchange (fetch : Request -> Outcome Response) (base sql : string)
  (params : list Param) : Exchange :=
  match JSON_stringify sql params with
  | Throws t => Failed t
  | Returns body =>
      match fetch (query_request base body) with
      | Throws t => Failed t
      | Returns response =>
          match resp_json response with
          | Throws t => Failed t
          | Returns j => Body j
          end
      end
  end.

(** The value of [j.k], [undefined] where the read is impossible. *)
Definition field (k : string) (j : Json) : JsVal :=
  match get k j with
  | Returns v => v
  | Throws _ => undefined
  end.

(** The body "reports success": it has a truthy [success]. *)
Definition reports_success (j : Json) : bool := truthy (field "success" j).

(** The interval test of [findCurrentVerseTiming], as a proposition. *)
Definition contains (t : Z) (x : AudioService.VerseTiming) : Prop :=
  AudioService.timestamp_from x <= t < AudioService.timestamp_to x.

(** Reading position: a verse number has a layout offset on record. *)
Definition recorded (offsets : gmap Z Z) (v : Z) : Prop :=
  is_Some (offsets !! v).

(** A recorded verse whose offset is at most the viewport top. *)
Definition qualifies (offsets : gmap Z Z) (top v : Z) : Prop :=
  exists o, offsets !! v = Some o /\ o <= top.

Definition smallest_recorded (offsets : gmap Z Z) (v : Z) : Prop :=
  recorded offsets v /\ forall u, recorded offsets u -> v <= u.

(** Every recorded verse up to and including [v] qualifies. *)
Definition run_up_to (offsets : gmap Z Z) (top v : Z) : Prop :=
  recorded offsets v
  /\ forall u, recorded offsets u -> u <= v -> qualifies offsets top u.

(** Offsets do not decrease with the verse number. *)
Definition monotone (offsets : gmap Z Z) : Prop :=
  forall u v ou ov,
    offsets !! u = Some ou -> offsets !! v = Some ov -> u <= v -> ou <= ov.

(** Playback: a status event that does not reach the boundary [e]. *)
Definition before_boundary (e : Z) (status : AudioContext.PlaybackStatus)
  : Prop :=
  match status with
  | AudioContext.NotLoaded => True
  | AudioContext.Loaded st => AudioContext.positionMillis st < e
  end.

(** The world after a sequence of status events. *)
Definition status_updates (events : list AudioContext.PlaybackStatus)
  (w : AudioContext.World) : AudioContext.World :=
  fold_left (fun w status => AudioContext.status_update status w) events w.


(** The id given to the optimistic bookmark at time [now]. *)
Definition optimistic_id (now : Z) : string := "temp-" +:+ String_of_Z now.

(** Subscriptions: whoever has the bundle has both parts. *)
Definition bundle_implies_parts (s : StripeSubscription.StripeSubscriptions)
  : Prop :=
  StripeSubscription.subscribed (StripeSubscription.bundle s) = true ->
  StripeSubscription.subscribed (StripeSubscription.read s) = true
  /\ StripeSubscription.subscribed (StripeSubscription.audiobook s) = true.

(** The subscription check: a step that is not a forced call. *)
Definition unforced (e : StripeSubscription.Event) : Prop :=
  match e with
  | StripeSubscription.Call _ _ _ _ force => force = false
  | StripeSubscription.Settle _ _ => True
  end.

(** The in-flight slot names the running checks: none when it is empty,
    exactly the one it holds otherwise. *)
Definition slot_tracks (w : StripeSubscription.World) : Prop :=
  map StripeSubscription.promise (StripeSubscription.pending w)
  = match StripeSubscription.inFlightRequestRef w with
    | Some p => [p]
    | None => []
    end.

(** Footnote markup. [name] spells the pattern text [text] up to ASCII
    case. *)
Definition spells (text : string) (name : list N) : Prop :=
  Forall2 (fun l u => Footnotes.canonicalize u = Footnotes.canonicalize l)
    (Footnotes.code_units text) name.

(** A translation string cut into plain text and footnote tags. *)
Inductive Token : Type :=
| Text (s : list N)
| OpenTag (name ws attrs : list N)      (* <footnote, white space, attributes, > *)
| CloseTag (name : list N)              (* </footnote> *)
| SelfClosingTag (name attrs : list N). (* <footnote, attributes, /> *)

Definition render (t : Token) : list N :=
  match t with
  | Text s => s
  | OpenTag name ws attrs => name ++ ws ++ attrs ++ [Footnotes.gt]
  | CloseTag name => name
  | SelfClosingTag name attrs => name ++ attrs ++ Footnotes.code_units "/>"
  end.

(** Plain text has no [<]; the attributes of a tag have neither [<] nor
    [>]; the white space of an opening tag is not empty. *)
Definition well_formed (t : Token) : Prop :=
  match t with
  | Text s => Forall (fun u => u <> Footnotes.lt) s
  | OpenTag name ws attrs =>
      spells "<footnote" name
      /\ ws <> []
      /\ Forall (fun u => Footnotes.is_white_space u = true) ws
      /\ Forall (fun u => u <> Footnotes.lt /\ u <> Footnotes.gt) attrs
  | CloseTag name => spells "</footnote>" name
  | SelfClosingTag name attrs =>
      spells "<footnote" name
      /\ Forall (fun u => u <> Footnotes.lt /\ u <> Footnotes.gt) attrs
  end.

Definition markup (ts : list Token) : list N := concat (map render ts).

(** The text of the tokens with every tag left out. *)
Definition plain_text (ts : list Token) : list N :=
  concat (map (fun t => match t with Text s => s | _ => [] end) ts).

End Spec.

(** ** Notions used in the proofs *)

Module Notions.

Import Spec.

(** [m] takes every state to a state related to it by [R]. *)
Definition respects {S A} (R : S -> S -> Prop) (m : Async S A) : Prop :=
  forall s, R s (fst (m s)).

(** Either the subscriptions are left as they were, or the value written
    satisfies the invariant. *)
Definition kept_or_good (w w' : StripeSubscription.World) : Prop :=
  StripeSubscription.subscriptions w' = StripeSubscription.subscriptions w
  \/ bundle_implies_parts (StripeSubscription.subscriptions w').

(** The running checks are left as they were. *)
Definition same_pending (w w' : StripeSubscription.World) : Prop :=
  StripeSubscription.pending w' = StripeSubscription.pending w.

(** The value of a digit sequence read left to right from [acc]. *)
Fixpoint uint_value (acc : Z) (d : Decimal.uint) : Z :=
  match d with
  | Decimal.Nil => acc
  | Decimal.D0 l => uint_value (10 * acc + 0) l
  | Decimal.D1 l => uint_value (10 * acc + 1) l
  | Decimal.D2 l => uint_value (10 * acc + 2) l
  | Decimal.D3 l => uint_value (10 * acc + 3) l
  | Decimal.D4 l => uint_value (10 * acc + 4) l
  | Decimal.D5 l => uint_value (10 * acc + 5) l
  | Decimal.D6 l => uint_value (10 * acc + 6) l
  | Decimal.D7 l => uint_value (10 * acc + 7) l
  | Decimal.D8 l => uint_value (10 * acc + 8) l
  | Decimal.D9 l => uint_value (10 * acc + 9) l
  end.

(** The three patterns start with the character [<]. *)
Definition starts_with_lt (re : list Footnotes.Atom) : Prop :=
  exists re', re = Footnotes.One (Footnotes.Literal Footnotes.lt) :: re'.

Definition starts_with_space (s : list N) : bool :=
  match s with
  | u :: _ => Footnotes.is_white_space u
  | [] => false
  end.

(** The tokens that each pass leaves in place. *)
Definition survives_open (t : Token) : bool :=
  match t with
  | OpenTag _ _ _ => false
  | SelfClosingTag _ attrs => negb (starts_with_space attrs)
  | _ => true
  end.

Definition survives_close (t : Token) : bool :=
  match t with
  | CloseTag _ => false
  | _ => true
  end.

Definition survives_self_closing (t : Token) : bool :=
  match t with
  | SelfClosingTag _ _ => false
  | _ => true
  end.

Definition not_open (t : Token) : Prop :=
  match t with
  | OpenTag _ _ _ => False
  | _ => True
  end.

End Notions.

(** ** Sample data for the worked runs *)

Module Samples.

Import AudioService AudioContext.

Definition timing_1_1 : VerseTiming :=
  {| verse_key := "1:1"; timestamp_from := 0; timestamp_to := 4000;
     segments := [] |}.

Definition timing_1_2 : VerseTiming :=
  {| verse_key := "1:2"; timestamp_from := 4000; timestamp_to := 9000;
     segments := [[1; 4000; 5200]; [2; 5200; 9000]] |}.

(** The first surah is loaded and nothing plays. *)
Definition loaded_world : World :=
  {| audioUrl := Some "https://audio.example/7/1.mp3";
     verseTimings := [timing_1_1; timing_1_2];
     currentChapterId := Some 1;
     currentVerseKey := None;
     playbackState := idle;
     currentTime := QArith_base.Qmake 0 1;
     duration := QArith_base.Qmake 0 1;
     isSingleVerseMode := false;
     pendingVerseNumber := None;
     soundRef := None;
     pendingActionRef := None;
     singleVerseEndTimeRef := None;
     sound_commands := [] |}.

Definition status_at (ms : Z) : LoadedStatus :=
  {| positionMillis := ms; durationMillis := Some 60000;
     isPlaying := true; didJustFinish := false |}.

Definition bookmark_1_5 : Bookmarks.Bookmark :=
  {| Bookmarks.id := "temp-5"; Bookmarks.surah_number := 1;
     Bookmarks.verse_number := 5; Bookmarks.note := None;
     Bookmarks.created_at := "1970-01-01T00:00:00.005Z" |}.

Definition bookmark_2_255 : Bookmarks.Bookmark :=
  {| Bookmarks.id := "0b9b7c1e"; Bookmarks.surah_number := 2;
     Bookmarks.verse_number := 255; Bookmarks.note := None;
     Bookmarks.created_at := "2024-03-01T10:00:00.000Z" |}.

Definition bookmarks_world (l : list Bookmarks.Bookmark) : Bookmarks.World :=
  {| Bookmarks.bookmarks := l; Bookmarks.thematicBookmarks := [];
     Bookmarks.loading := false; Bookmarks.toasts := [] |}.

Definition reader : Bookmarks.User := {| Bookmarks.user_id := "user-1" |}.

(** A verse translation with an opening tag, a closing tag in capitals and
    two self-closing tags. *)
Definition translation : list Spec.Token :=
  [Spec.Text (Footnotes.code_units "In the name");
   Spec.OpenTag (Footnotes.code_units "<footnote")
     (Footnotes.code_units " ")
     (Footnotes.code_units "id=1155 number=166");
   Spec.Text (Footnotes.code_units "a > b");
   Spec.CloseTag (Footnotes.code_units "</FOOTNOTE>");
   Spec.SelfClosingTag (Footnotes.code_units "<footnote")
     (Footnotes.code_units " id=7 ");
   Spec.SelfClosingTag (Footnotes.code_units "<Footnote") [];
   Spec.Text (Footnotes.code_units " of God")].

Definition quoted (s : string) : string :=
  String (ascii_of_nat 34) (s +:+ String (ascii_of_nat 34) "").

(** A serialiser for the JSON documents of the samples (their strings
    need no escaping). *)
Fixpoint print_json (j : Json) : string :=
  match j with
  | JNull => "null"
  | JBool true => "true"
  | JBool false => "false"
  | JNum n => String_of_Z n
  | JStr s => quoted s
  | JArr items =>
      "[" +:+ (fix items_text (l : list Json) : string :=
                 match l with
                 | [] => ""
                 | [x] => print_json x
                 | x :: rest => print_json x +:+ "," +:+ items_text rest
                 end) items +:+ "]"
  | JObj fields =>
      "{" +:+ (fix fields_text (l : list (string * Json)) : string :=
                 match l with
                 | [] => ""
                 | [(k, v)] => quoted k +:+ ":" +:+ print_json v
                 | (k, v) :: rest =>
                     quoted k +:+ ":" +:+ print_json v +:+ ","
                       +:+ fields_text rest
                 end) fields +:+ "}"
  end.

(** A parser that knows the one document [j]. *)
Definition parse_only (j : Json) (text : string) : Outcome Json :=
  if String.eqb text (print_json j) then Returns j
  else Throws (ThrownError "JSON Parse error: Unexpected token").

Import StripeSubscription.

Definition subscriber : User := {| user_id := "user-1" |}.

Definition signed_in : Session := {| access_token := Some "jwt-1" |}.

Definition plans : list SubscriptionPlan :=
  [{| stripe_product_id := Some "prod_bundle"; product_type := "bundle" |};
   {| stripe_product_id := Some "prod_read"; product_type := "read" |};
   {| stripe_product_id := Some "prod_audio"; product_type := "audiobook" |}].

(** A bundle subscription followed by a read subscription that ends
    later. *)
Definition bundle_then_read : list ApiSubscription :=
  [{| product_id := "prod_bundle";
      api_subscription_end := Some "2025-01-31T00:00:00Z";
      status := Some "active" |};
   {| product_id := "prod_read";
      api_subscription_end := Some "2026-06-30T00:00:00Z";
      status := Some "active" |}].

Definition answer : CheckEnv :=
  {| env_getSession := Returns (Some signed_in);
     env_invoke :=
       Returns {| invoke_data :=
                    Some {| data_error := None;
                            data_subscriptions := Some bundle_then_read |};
                  invoke_error := None |};
     env_now := 1700000000000 |}.

(** The hook right after mounting. *)
Definition fresh_hook : World :=
  {| subscriptions := DEFAULT_SUBSCRIPTIONS;
     loading := true;
     error := None;
     hasCachedData := false;
     inFlightRequestRef := None;
     lastCheckedUserIdRef := None;
     hasCompletedInitialCheckRef := false;
     store := ∅;
     pending := [];
     next_promise := 0 |}.

(** A native store that accepts reads and removals and rejects every
    write. *)
Definition full_disk (op : StorageOp) : option Thrown :=
  match op with
  | SetItem _ _ => Some (ThrownError "SQLITE_FULL: database or disk is full")
  | _ => None
  end.

Definition bundle_subscriber : StripeSubscriptions :=
  {| read := {| subscribed := true;
                subscription_end := Some "2025-01-31T00:00:00Z" |};
     audiobook := {| subscribed := true;
                     subscription_end := Some "2025-01-31T00:00:00Z" |};
     bundle := {| subscribed := true;
                  subscription_end := Some "2025-01-31T00:00:00Z" |} |}.

End Samples.

(** ** services/quranApi.ts: the query functions *)

Module QuranQueries.

Import QuranApi.

(** The SQL text of each function, as written in the source. *)
Definition fetchAllSurahs_sql : string :=
  "SELECT * FROM Chapters ORDER BY id".

Definition getSurah_sql : string :=
  "SELECT v.*, 
            c.name_english, c.name_spanish, c.name_transliteration, c.name_arabic,
            c.number_of_verses, c.revelation_type, c.bismillah_prefix,
            c.introduction_english, c.introduction_spanish, c.pages
     FROM Verses v
     JOIN Chapters c ON v.chapter_number = c.id
     WHERE v.chapter_number = ?
     ORDER BY v.page_number, v.verse_number".

Definition getVersesByPage_sql : string :=
  "SELECT v.*, 
            c.name_english, c.name_spanish, c.name_transliteration, c.name_arabic
     FROM Verses v
     JOIN Chapters c ON v.chapter_number = c.id
     WHERE v.page_number = ?
     ORDER BY v.chapter_number, v.verse_number".

Definition fetchThemeCategories_sql : string :=
  "SELECT c.id, c.name, c.name_spanish, c.icon_name,
            COUNT(cm.theme_id) AS theme_count
     FROM ThemeCategories c
     LEFT JOIN ThemeCategoryMap cm ON c.id = cm.category_id
     GROUP BY c.id
     ORDER BY c.id".

Definition fetchThemesByCategory_sql : string :=
  "SELECT t.id, t.theme_name_english, t.theme_name_spanish,
            t.chapter_number, t.start_verse, t.end_verse
     FROM Themes t
     JOIN ThemeCategoryMap tcm ON t.id = tcm.theme_id
     WHERE tcm.category_id = ?
     ORDER BY t.chapter_number, t.start_verse".

Definition fetchThemesBySurah_sql : string :=
  "SELECT id, theme_name_english, theme_name_spanish,
            chapter_number, start_verse, end_verse
     FROM Themes
     WHERE chapter_number = ?
     ORDER BY start_verse".

Definition fetchVersesForThemes_sql (placeholders : string) : string :=
  "SELECT v.verse_key, v.text_english, v.text_spanish, v.text_uthmani, v.text_indopak,
            v.chapter_number, v.verse_number, v.page_number, tv.theme_id
     FROM Verses v
     JOIN ThemeVerses tv ON v.verse_key = tv.verse_key
     WHERE tv.theme_id IN ("
  +:+ placeholders +:+
  ")
     ORDER BY tv.theme_id, v.chapter_number, v.verse_number".

Definition countVersesInTheme_sql : string :=
  "SELECT COUNT(*) AS count FROM ThemeVerses WHERE theme_id = ?".

Definition fetchFootnote_sql : string :=
  "SELECT * FROM Footnotes WHERE id = ?".

Definition fetchFootnotesByIds_sql (placeholders : string) : string :=
  "SELECT * FROM Footnotes WHERE id IN ("
  +:+ placeholders +:+
  ")".

Definition fetchSurahsPaginated_sql : string :=
  "SELECT * FROM Chapters ORDER BY id LIMIT ? OFFSET ?".

Definition fetchVersesPaginated_sql : string :=
  "SELECT v.*, 
            c.name_english, c.name_spanish, c.name_transliteration, c.name_arabic,
            c.number_of_verses, c.revelation_type, c.bismillah_prefix,
            c.introduction_english, c.introduction_spanish, c.pages
     FROM Verses v
     JOIN Chapters c ON v.chapter_number = c.id
     WHERE v.chapter_number = ?
     ORDER BY v.page_number, v.verse_number
     LIMIT ? OFFSET ?".

(** [ids.map(() => "?").join(", ")] *)
Definition placeholders (ids : list Z) : string :=
  String.concat ", " (map (fun _ => "?") ids).

(** A [number[]] passed as [params]. *)
Definition numbers (ns : list Z) : list Param :=
  map (fun n => PValue (JNum n)) ns.

(** [{ success: true, data: [], count: 0 }] *)
Definition empty_result : QueryResult :=
  {| success := true; data := Some (JArr []); count := Some (JNum 0);
     error := undefined |}.

Section WithEnvironment.

Variable API_BASE_URL : option string.
Variable fetch : Request -> Outcome Response.

Definition fetchAllSurahs : Async (list Request) QueryResult :=
  executeQuranQuery API_BASE_URL fetch fetchAllSurahs_sql [].

Definition getSurah (surahId : Z) : Async (list Request) QueryResult :=
  executeQuranQuery API_BASE_URL fetch getSurah_sql (numbers [surahId]).

Definition getVersesByPage (pageNumber : Z)
  : Async (list Request) QueryResult :=
  executeQuranQuery API_BASE_URL fetch getVersesByPage_sql
    (numbers [pageNumber]).

Definition fetchThemeCategories : Async (list Request) QueryResult :=
  executeQuranQuery API_BASE_URL fetch fetchThemeCategories_sql [].

Definition fetchThemesByCategory (categoryId : Z)
  : Async (list Request) QueryResult :=
  executeQuranQuery API_BASE_URL fetch fetchThemesByCategory_sql
    (numbers [categoryId]).

Definition fetchThemesBySurah (surahNumber : Z)
  : Async (list Request) QueryResult :=
  executeQuranQuery API_BASE_URL fetch fetchThemesBySurah_sql
    (numbers [surahNumber]).

Definition fetchVersesForThemes (themeIds : list Z)
  : Async (list Request) QueryResult :=
  if Nat.eqb (length themeIds) 0 then ret empty_result
  else
    executeQuranQuery API_BASE_URL fetch
      (fetchVersesForThemes_sql (placeholders themeIds)) (numbers themeIds).

Definition countVersesInTheme (themeId : Z)
  : Async (list Request) QueryResult :=
  executeQuranQuery API_BASE_URL fetch countVersesInTheme_sql
    (numbers [themeId]).

Definition fetchFootnote (footnoteId : Z)
  : Async (list Request) QueryResult :=
  executeQuranQuery API_BASE_URL fetch fetchFootnote_sql
    (numbers [footnoteId]).

Definition fetchFootnotesByIds (footnoteIds : list Z)
  : Async (list Request) QueryResult :=
  if Nat.eqb (length footnoteIds) 0 then ret empty_result
  else
    executeQuranQuery API_BASE_URL fetch
      (fetchFootnotesByIds_sql (placeholders footnoteIds))
      (numbers footnoteIds).

Definition fetchSurahsPaginated (pageSize pageIndex : Z)
  : Async (list Request) QueryResult :=
  executeQuranQuery API_BASE_URL fetch fetchSurahsPaginated_sql
    (numbers [pageSize; pageIndex * pageSize]).

Definition fetchVersesPaginated (surahId pageSize pageIndex : Z)
  : Async (list Request) QueryResult :=
  executeQuranQuery API_BASE_URL fetch fetchVersesPaginated_sql
    (numbers [surahId; pageSize; pageIndex * pageSize]).

End WithEnvironment.

End QuranQueries.

(** ** screens/ReadScreen.tsx: route parameter and context verse *)

Module ReadScreenNav.

(** [parseInt(surahNumber || "1", 10) || 1] on the route parameter. *)
Definition surahId (surahNumber : option string) : Z :=
  let currentSurahNumber :=
    match truthy_str surahNumber with
    | Some s => s
    | None => "1"
    end in
  match parseInt10 currentSurahNumber with
  | Some n => if n =? 0 then 1 else n
  | None => 1
  end.



(** The first element of [text.split(":")]. *)
Fixpoint text_before_colon (text : string) : string :=
  match text with
  | String c rest =>
      if Ascii.eqb c ":" then "" else String c (text_before_colon rest)
  | EmptyString => ""
  end.

(** What follows the first colon; [None] when there is no colon. *)
Fixpoint text_after_colon (text : string) : option string :=
  match text with
  | String c rest =>
      if Ascii.eqb c ":" then Some rest else text_after_colon rest
  | EmptyString => None
  end.

(** [text.split(":")[1]]; [None] is [undefined]. *)
Definition split_colon_1 (text : string) : option string :=
  option_map text_before_colon (text_after_colon text).

(** [currentVerseKey ? parseInt(currentVerseKey.split(":")[1], 10) : 1];
    [None] is [NaN]. *)
Definition contextVerseNumber (currentVerseKey : option string) : option Z :=
  match truthy_str currentVerseKey with
  | Some key =>
      match split_colon_1 key with
      | Some text => parseInt10 text
      | None => None
      end
  | None => Some 1
  end.

End ReadScreenNav.

(** ** contexts/QuranAudioContext.tsx: the playback controls *)

(** Each control is called from the current render: the state it closes
    over ([audioUrl], [currentChapterId], [verseTimings],
    [playbackState], [selectedReciterId]) is the state when the call
    starts. [loadSurahAudio] and [seekTo] are not modelled here. *)
Module AudioControls.

Import AudioService AudioContext.

Definition setAudioUrl (u : option string) (w : World) : World :=
  {| audioUrl := u; verseTimings := verseTimings w;
     currentChapterId := currentChapterId w;
     currentVerseKey := currentVerseKey w;
     playbackState := playbackState w; currentTime := currentTime w;
     duration := duration w; isSingleVerseMode := isSingleVerseMode w;
     pendingVerseNumber := pendingVerseNumber w; soundRef := soundRef w;
     pendingActionRef := pendingActionRef w;
     singleVerseEndTimeRef := singleVerseEndTimeRef w;
     sound_commands := sound_commands w |}.

Definition setCurrentChapterId (c : option Z) (w : World) : World :=
  {| audioUrl := audioUrl w; verseTimings := verseTimings w;
     currentChapterId := c;
     currentVerseKey := currentVerseKey w;
     playbackState := playbackState w; currentTime := currentTime w;
     duration := duration w; isSingleVerseMode := isSingleVerseMode w;
     pendingVerseNumber := pendingVerseNumber w; soundRef := soundRef w;
     pendingActionRef := pendingActionRef w;
     singleVerseEndTimeRef := singleVerseEndTimeRef w;
     sound_commands := sound_commands w |}.

Definition setVerseTimings (ts : list VerseTiming) (w : World) : World :=
  {| audioUrl := audioUrl w; verseTimings := ts;
     currentChapterId := currentChapterId w;
     currentVerseKey := currentVerseKey w;
     playbackState := playbackState w; currentTime := currentTime w;
     duration := duration w; isSingleVerseMode := isSingleVerseMode w;
     pendingVerseNumber := pendingVerseNumber w; soundRef := soundRef w;
     pendingActionRef := pendingActionRef w;
     singleVerseEndTimeRef := singleVerseEndTimeRef w;
     sound_commands := sound_commands w |}.

(** The provider: the state of [AudioContext] and the selected
    reciter. *)
Record Provider : Type :=
  { world : World;
    selectedReciterId : ReciterId }.

(** [pause]: the call on the sound is not awaited. *)
Definition pause (w : World) : World :=
  match soundRef w with
  | Some _ =>
      setSingleVerseEndTimeRef None (setPlaybackState paused (send PauseAsync w))
  | None => w
  end.

(** [stop]: neither call on the sound is awaited. *)
Definition stop (w : World) : World :=
  let w :=
    match soundRef w with
    | Some _ => send (SetPositionAsync 0) (send PauseAsync w)
    | None => w
    end in
  setSingleVerseEndTimeRef None
    (setIsSingleVerseMode false
       (setCurrentVerseKey None (setPlaybackState idle w))).

(** [setReciter] *)
Definition setReciter (reciterId : ReciterId) (p : Provider) : Provider :=
  if negb (reciter_number reciterId =? reciter_number (selectedReciterId p))
  then
    {| world :=
         setVerseTimings []
           (setCurrentChapterId None (setAudioUrl None (world p)));
       selectedReciterId := reciterId |}
  else p.

Section WithEnvironment.

Variable sound_rejects : SoundCommand -> option Thrown.
Variable loadSurahAudio : Z -> Async World unit.

(** [resume] *)
Definition resume : Async World unit :=
  (let* w := read in
   match soundRef w with
   | None => ret tt
   | Some _ =>
       if falsy_str (audioUrl w) then ret tt
       else
         let* _ := modify (setIsSingleVerseMode false) in
         let* _ := clearVerseEndBoundary in
         try_catch
           (let* _ := await_sound sound_rejects PlayAsync in
            modify (setPlaybackState playing))
           (fun _ => ret tt)
   end)%async.

(** [togglePlayPause]; [isPlaying] is [playbackState === "playing"]. *)
Definition togglePlayPause : Async World unit :=
  (let* w := read in
   match playbackState w with
   | playing => modify pause
   | _ => resume
   end)%async.

(** [if (fromVerse)] on an optional number. *)
Definition truthy_number (n : option Z) : option Z :=
  match n with
  | Some n => if n =? 0 then None else Some n
  | None => None
  end.

(** [playSurah] *)
Definition playSurah (surahId : Z) (fromVerse : option Z)
  : Async World unit :=
  (let* _ := ensureSound in
   let* w := read in
   if negb (match currentChapterId w with
            | Some c => c =? surahId
            | None => false
            end)
      || falsy_str (audioUrl w)
   then
     let* _ := modify (setPendingActionRef
                         (Some (PendingPlaySurah surahId fromVerse))) in
     loadSurahAudio surahId
   else
     let* _ := clearVerseEndBoundary in
     let* _ := modify (setIsSingleVerseMode false) in
     let* _ :=
       match truthy_number fromVerse with
       | Some fromVerse =>
           match getVerseTimingByNumber surahId fromVerse (verseTimings w)
           with
           | Some timing =>
               let* _ := await_sound sound_rejects
                           (SetPositionAsync (timestamp_from timing)) in
               modify (setCurrentVerseKey (Some (verse_key timing)))
           | None => ret tt
           end
       | None => ret tt
       end in
     try_catch
       (let* _ := await_sound sound_rejects PlayAsync in
        modify (setPlaybackState playing))
       (fun _ => modify (setPlaybackState idle)))%async.

End WithEnvironment.

End AudioControls.

(** ** hooks/useBookmarks.ts: toggling, thematic passages *)

Module ThematicBookmarks.

Import Bookmarks.

(** [setThematicBookmarks((prev) => f(prev))] *)
Definition updateThematicBookmarks
  (f : list ThematicBookmark -> list ThematicBookmark) (w : World) : World :=
  setThematicBookmarks (f (thematicBookmarks w)) w.

(** The row sent to [insert]. *)
Record ThematicRow : Type :=
  { row_user_id : string;
    row_passage_id : string;
    row_surah_number : Z;
    row_theme_name : string;
    row_note : option string }.

(** [`"${text}"`] *)
Definition in_quotes (text : string) : string :=
  String (ascii_of_nat 34) (text +:+ String (ascii_of_nat 34) "").

Section WithBackend.

Variable getUser : option User.
Variable now : Z.
Variable nowISO : string.
Variable insert_verse_bookmark : InsertRow -> Outcome (option DbError).
Variable delete_verse_bookmark : string -> Z -> Z -> Outcome (option DbError).
(** [from("thematic_passage_bookmarks").insert(row)] and
    [.delete().eq("user_id", id).eq("passage_id", passageId)] *)
Variable insert_thematic_bookmark : ThematicRow -> Outcome (option DbError).
Variable delete_thematic_bookmark : string -> string
                                    -> Outcome (option DbError).
Variable select_verse_bookmarks
  : string -> option (list Bookmark) * option DbError.
Variable select_thematic_bookmarks
  : string -> option (list ThematicBookmark) * option DbError.

Definition toggleBookmark (surahNumber verseNumber : Z) (w : World)
  : World :=
  if isBookmarked surahNumber verseNumber w
  then removeBookmark getUser delete_verse_bookmark surahNumber verseNumber w
  else addBookmark getUser now nowISO insert_verse_bookmark
         select_verse_bookmarks select_thematic_bookmarks
         surahNumber verseNumber None w.

Definition isThematicPassageBookmarked (passageId : string) (w : World)
  : bool :=
  existsb (fun b => String.eqb (passage_id b) passageId)
    (thematicBookmarks w).

Definition addThematicPassageBookmark_failed (optimistic_id : string)
  (e : Thrown + DbError) (w : World) : World :=
  let w := updateThematicBookmarks
             (List.filter
                (fun b => negb (String.eqb (thematic_id b) optimistic_id)))
             w in
  match thrown_code e with
  | Some "23505" =>
      toast {| title := "Already bookmarked";
               description := "This theme is already in your bookmarks";
               destructive := false |} w
  | _ =>
      toast {| title := "Error";
               description := "Failed to add bookmark";
               destructive := true |} w
  end.

(** A call of [addThematicPassageBookmark] run from start to end with no
    other update of the hook's state in between. After a successful
    insert the refresh is started without [await]; here it has completed
    when the call is over (its state updates commute with the toast).
    The call cut at its [await] is [addThematicPassageBookmark_begin]
    and [addThematicPassageBookmark_settle] below. *)
Definition addThematicPassageBookmark (passageId : string) (surahNumber : Z)
  (themeName : string) (note : option string) (w : World) : World :=
  match getUser with
  | None =>
      toast {| title := "Sign in to bookmark";
               description := "Please sign in to save themes";
               destructive := true |} w
  | Some user =>
      let optimisticBookmark :=
        {| thematic_id := "temp-" +:+ String_of_Z now;
           passage_id := passageId;
           thematic_surah_number := surahNumber;
           theme_name := themeName;
           thematic_note := note;
           thematic_created_at := nowISO |} in
      let w := updateThematicBookmarks
                 (fun prev => optimisticBookmark :: prev) w in
      match insert_thematic_bookmark
              {| row_user_id := user_id user;
                 row_passage_id := passageId;
                 row_surah_number := surahNumber;
                 row_theme_name := themeName;
                 row_note := note |} with
      | Returns None =>
          toast {| title := "Theme bookmarked";
                   description :=
                     in_quotes themeName
                       +:+ " has been saved to your bookmarks";
                   destructive := false |}
            (fetchBookmarks getUser select_verse_bookmarks
               select_thematic_bookmarks w)
      | Returns (Some err) =>
          addThematicPassageBookmark_failed
            (thematic_id optimisticBookmark) (inr err) w
      | Throws t =>
          addThematicPassageBookmark_failed
            (thematic_id optimisticBookmark) (inl t) w
      end
  end.

Definition removeThematicPassageBookmark (passageId : string) (w : World)
  : World :=
  match getUser with
  | None => w
  | Some user =>
      let previousBookmarks := thematicBookmarks w in
      let bookmark :=
        List.find (fun b => String.eqb (passage_id b) passageId)
          (thematicBookmarks w) in
      let w := updateThematicBookmarks
                 (List.filter
                    (fun b => negb (String.eqb (passage_id b) passageId)))
                 w in
      match delete_thematic_bookmark (user_id user) passageId with
      | Returns None =>
          toast {| title := "Bookmark removed";
                   description :=
                     in_quotes (match bookmark with
                                | Some b => theme_name b
                                | None => "undefined"
                                end)
                       +:+ " has been removed from your bookmarks";
                   destructive := false |} w
      | _ =>
          toast {| title := "Error";
                   description := "Failed to remove bookmark";
                   destructive := true |}
            (setThematicBookmarks previousBookmarks w)
      end
  end.

Definition toggleThematicPassageBookmark (passageId : string)
  (surahNumber : Z) (themeName : string) (w : World) : World :=
  if isThematicPassageBookmarked passageId w
  then removeThematicPassageBookmark passageId w
  else addThematicPassageBookmark passageId surahNumber themeName None w.

(** *** The thematic mutations cut at the backend call *)

(** What [addThematicPassageBookmark] holds while the insert is
    pending. *)
Record PendingThematicAdd : Type :=
  { optimisticThematicBookmark : ThematicBookmark;
    inserted_thematic_row : ThematicRow }.

(** [addThematicPassageBookmark] up to the [await] of the insert. *)
Definition addThematicPassageBookmark_begin (passageId : string)
  (surahNumber : Z) (themeName : string) (note : option string) (w : World)
  : World * option PendingThematicAdd :=
  match getUser with
  | None =>
      (toast {| title := "Sign in to bookmark";
                description := "Please sign in to save themes";
                destructive := true |} w,
       None)
  | Some user =>
      let optimisticBookmark :=
        {| thematic_id := "temp-" +:+ String_of_Z now;
           passage_id := passageId;
           thematic_surah_number := surahNumber;
           theme_name := themeName;
           thematic_note := note;
           thematic_created_at := nowISO |} in
      (updateThematicBookmarks (fun prev => optimisticBookmark :: prev) w,
       Some {| optimisticThematicBookmark := optimisticBookmark;
               inserted_thematic_row :=
                 {| row_user_id := user_id user;
                    row_passage_id := passageId;
                    row_surah_number := surahNumber;
                    row_theme_name := themeName;
                    row_note := note |} |})
  end.

(** [addThematicPassageBookmark] from the moment the insert has settled
    with [result]. The flag tells whether [fetchBookmarks()] was
    started; the refresh lands later, as a step of its own. *)
Definition addThematicPassageBookmark_settle (p : PendingThematicAdd)
  (result : Outcome (option DbError)) (w : World) : World * bool :=
  match result with
  | Returns None =>
      (toast {| title := "Theme bookmarked";
                description :=
                  in_quotes (theme_name (optimisticThematicBookmark p))
                    +:+ " has been saved to your bookmarks";
                destructive := false |} w,
       true)
  | Returns (Some err) =>
      (addThematicPassageBookmark_failed
         (thematic_id (optimisticThematicBookmark p)) (inr err) w,
       false)
  | Throws t =>
      (addThematicPassageBookmark_failed
         (thematic_id (optimisticThematicBookmark p)) (inl t) w,
       false)
  end.




End WithBackend.

End ThematicBookmarks.

(** ** hooks/useStripeSubscription.ts: cache helpers, mount effect,
    checkout *)

Module SubscriptionHook.

Import StripeSubscription.

(** [v !== null] *)
Definition is_not_null (v : JsVal) : bool :=
  match v with
  | Some JNull => false
  | _ => true
  end.

Section Cache.

Variable storage_rejects : StorageOp -> option Thrown.
Variable JSON_parse : string -> Outcome Json.

Definition clearSubscriptionCache : Async (gmap string string) unit :=
  try_catch
    (multiRemove storage_rejects
       [SUBSCRIPTION_CACHE_KEY; SUBSCRIPTION_CACHE_EXPIRY_KEY])
    (fun _ => ret tt).

Definition getCachedSubscriptionExists (now : Z) (userId : option string)
  : Async (gmap string string) bool :=
  match truthy_str userId with
  | None => ret false
  | Some userId =>
      (let* cached :=
         getCachedSubscription storage_rejects JSON_parse now userId in
       ret (is_not_null cached))%async
  end.

End Cache.

(** [!user?.id] *)
Definition no_user_id (user : option User) : bool :=
  match user with
  | Some u => String.eqb (user_id u) ""
  | None => true
  end.

(** [lastCheckedUserIdRef.current === user.id] *)
Definition last_checked_is (w : World) (userId : string) : bool :=
  match lastCheckedUserIdRef w with
  | Some u => String.eqb u userId
  | None => false
  end.

(** The effect that runs the first check, for a render whose auth and
    plans state are the given ones. *)
Definition initialCheckEffect (authLoading plansLoading : bool)
  (user : option User) (session : option Session)
  (plans : list SubscriptionPlan) (w : World) : World :=
  if authLoading || plansLoading then w
  else
    match user with
    | Some u =>
        if no_token session || no_user_id user then
          setHasCompletedInitialCheckRef true
            (setHasCachedData false
               (setLoading false (setSubscriptions DEFAULT_SUBSCRIPTIONS w)))
        else if last_checked_is w (user_id u)
                && hasCompletedInitialCheckRef w
        then w
        else fst (checkSubscription user session plans false false w)
    | None =>
        setHasCompletedInitialCheckRef true
          (setHasCachedData false
             (setLoading false (setSubscriptions DEFAULT_SUBSCRIPTIONS w)))
    end.

(** [!hasCachedData && (authLoading || plansLoading || loading)] *)
Definition isLoading (authLoading plansLoading : bool) (w : World) : bool :=
  negb (hasCachedData w) && (authLoading || plansLoading || loading w).

(** *** Checkout and customer portal *)

Inductive BillingPeriod : Type := monthly | biannual | annual.

(** The fields of a plan that [createCheckout] reads. *)
Record PricedPlan : Type :=
  { plan_id : string;
    plan_product_type : string;
    stripe_price_monthly_id : option string;
    stripe_price_biannual_id : option string;
    stripe_price_annual_id : option string }.

Definition getPlanByProductType (plans : list PricedPlan)
  (productType : string) : option PricedPlan :=
  List.find (fun p => String.eqb (plan_product_type p) productType) plans.

Definition getStripePriceId (plan : PricedPlan) (period : BillingPeriod)
  : option string :=
  match period with
  | monthly => stripe_price_monthly_id plan
  | biannual => stripe_price_biannual_id plan
  | annual => stripe_price_annual_id plan
  end.

Record CheckoutOptions : Type :=
  { extendedTrial : option bool;
    challengeEnrollmentId : option string }.

(** The [body] of the [create-checkout] call: by plan and period, or,
    when the plan has no price id for the period, the (falsy) price id
    alone. *)
Inductive CheckoutBody : Type :=
| ByPlan (planId : string) (billingPeriod : BillingPeriod)
    (extendedTrial : option bool) (challengeEnrollmentId : option string)
| ByPrice (priceId : option string)
    (extendedTrial : option bool) (challengeEnrollmentId : option string).

(** The [data] that the two functions answer. *)
Record LinkData : Type :=
  { link_error : option string;
    link_url : option string }.

Record LinkResult : Type :=
  { link_data : option LinkData;
    link_fnError : option Thrown }.

(** What the two functions do to the outside world. *)
Inductive Effect : Type :=
| Invoked (name : string) (body : option CheckoutBody)
    (authorization : string)
| OpenedURL (url : string).

Section Checkout.

Variable session : option Session.
Variable plans : list PricedPlan.
(** [supabase.functions.invoke(name, { body, headers })] *)
Variable invoke : string -> option CheckoutBody -> string
                  -> Outcome LinkResult.
(** Whether [Linking.openURL] rejects. *)
Variable openURL_rejects : string -> option Thrown.

Definition do_invoke (name : string) (body : option CheckoutBody)
  (authorization : string) : Async (list Effect) LinkResult :=
  fun log => (log ++ [Invoked name body authorization],
              invoke name body authorization).

Definition openURL (url : string) : Async (list Effect) unit :=
  fun log => (log ++ [OpenedURL url],
              match openURL_rejects url with
              | Some t => Throws t
              | None => Returns tt
              end).

(** The common tail: throw the errors, open the URL, return [data]. *)
Definition follow_link (result : LinkResult)
  : Async (list Effect) (option LinkData) :=
  match link_fnError result with
  | Some fnError => throw fnError
  | None =>
      match link_data result with
      | None => ret None
      | Some data =>
          match truthy_str (link_error data) with
          | Some e => throw (ThrownError e)
          | None =>
              match truthy_str (link_url data) with
              | Some url => (let* _ := openURL url in ret (Some data))%async
              | None => ret (Some data)
              end
          end
      end
  end.

Definition createCheckout (productType : string)
  (billingPeriod : BillingPeriod) (options : option CheckoutOptions)
  : Async (list Effect) (option LinkData) :=
  match session with
  | Some {| access_token := Some token |} =>
      if String.eqb token "" then
        throw (ThrownError "You must be logged in to subscribe")
      else
        match getPlanByProductType plans productType with
        | None =>
            throw (ThrownError
                     ("Plan not found for product type: " +:+ productType))
        | Some plan =>
            let priceId := getStripePriceId plan billingPeriod in
            let trial := match options with
                         | Some o => extendedTrial o
                         | None => None
                         end in
            let enrollment := match options with
                              | Some o => challengeEnrollmentId o
                              | None => None
                              end in
            let body :=
              match truthy_str priceId with
              | Some _ => ByPlan (plan_id plan) billingPeriod trial enrollment
              | None => ByPrice priceId trial enrollment
              end in
            (let* result := do_invoke "create-checkout" (Some body)
                              ("Bearer " +:+ token) in
             follow_link result)%async
        end
  | _ => throw (ThrownError "You must be logged in to subscribe")
  end.

Definition openCustomerPortal : Async (list Effect) (option LinkData) :=
  match session with
  | Some {| access_token := Some token |} =>
      if String.eqb token "" then
        throw (ThrownError "You must be logged in to manage subscription")
      else
        (let* result := do_invoke "customer-portal" None
                          ("Bearer " +:+ token) in
         follow_link result)%async
  | _ => throw (ThrownError "You must be logged in to manage subscription")
  end.

End Checkout.

End SubscriptionHook.

(** ** The verse marker of the reader: Arabic-Indic numerals *)

Module ArabicNumerals.

(** The UTF-16 code units of the ten one-character strings
    ["٠", "١", "٢", "٣", "٤", "٥", "٦", "٧", "٨", "٩"]
    (U+0660 to U+0669). *)
Definition arabicNumerals : list N :=
  [1632; 1633; 1634; 1635; 1636; 1637; 1638; 1639; 1640; 1641]%N.

(** [arabicNumerals[i]] for a number or [NaN] ([None]); [undefined]
    outside the array. *)
Definition at_index (i : option Z) : option N :=
  match i with
  | Some d => if d <? 0 then None else arabicNumerals !! Z.to_nat d
  | None => None
  end.

(** [num.toString().split("").map((digit) =>
    arabicNumerals[parseInt(digit, 10)]).join("")]; [join] prints
    [undefined] as the empty string. [num] is a safe integer, which
    [toString] prints in plain decimal. *)
Definition toArabicNumeral (num : Z) : list N :=
  concat
    (map (fun digit : ascii =>
            match at_index (parseInt10 (String digit "")) with
            | Some numeral => [numeral]
            | None => []
            end)
       (list_ascii_of_string (String_of_Z num))).

End ArabicNumerals.

(** ** contexts/QuranContext.tsx: parseFootnoteIds *)

Module FootnoteIds.

Import Footnotes.

(** A piece of the pattern: a character, or a character repeated ([c+],
    greedy). The pattern has no [i] flag: characters compare exactly. *)
Inductive Piece : Type :=
| Char (u : N)
| Plus (u : N).

Definition chars (s : string) : list Piece := map Char (code_units s).

Definition backslash : N := 92.
Definition quote : N := 34.
Definition letter_s : N := 115.
Definition letter_d : N := 100.

(** [c+]: at least one, as many as possible, giving back one at a time
    until the rest of the pattern matches. *)
Fixpoint plus {A} (c : N) (k : list N -> option A) (s : list N)
  : option A :=
  match s with
  | u :: rest =>
      if (u =? c)%N then
        match plus c k rest with
        | Some r => Some r
        | None => k rest
        end
      else None
  | [] => None
  end.

(** Match the pieces at the start of [s] and hand the input that is
    left to [k]. *)
Fixpoint match_pieces {A} (ps : list Piece) (k : list N -> option A)
  (s : list N) : option A :=
  match ps with
  | [] => k s
  | Char c :: ps' =>
      match s with
      | u :: rest => if (u =? c)%N then match_pieces ps' k rest else None
      | [] => None
      end
  | Plus c :: ps' => plus c (match_pieces ps' k) s
  end.

(** The regular expression literal of the source is
    [/<footnote\\s+id=\\"(\\d+)\\"\\s+number=\\"(\\d+)\\">/g]
    in which each [\\] is an escaped backslash, so that [\\s+] is a
    backslash followed by [s+], [\\d+] a backslash followed by [d+],
    and every quote character is preceded by a backslash. Its parts,
    around the two capture groups: *)
Definition opening : list Piece :=
  chars "<footnote" ++ [Char backslash; Plus letter_s] ++ chars "id="
    ++ [Char backslash; Char quote].

Definition group : list Piece := [Char backslash; Plus letter_d].

Definition middle : list Piece :=
  [Char backslash; Char quote; Char backslash; Plus letter_s]
    ++ chars "number=" ++ [Char backslash; Char quote].

Definition closing : list Piece :=
  [Char backslash; Char quote; Char gt].

(** A match: its length and the texts of the two groups. *)
Record Match : Type :=
  { whole_length : nat;
    group_1 : list N;
    group_2 : list N }.

(** The pattern matched at the start of [s]. *)
Definition match_at (s : list N) : option Match :=
  match_pieces opening
    (fun s1 =>
       match_pieces group
         (fun s2 =>
            match_pieces middle
              (fun s3 =>
                 match_pieces group
                   (fun s4 =>
                      match_pieces closing
                        (fun s5 =>
                           Some {| whole_length :=
                                     (length s - length s5)%nat;
                                   group_1 :=
                                     take (length s1 - length s2)%nat s1;
                                   group_2 :=
                                     take (length s3 - length s4)%nat s3 |})
                        s4)
                   s3)
              s2)
         s1)
    s.

(** [parseInt(text, 10)] on code units; the texts of the groups hold
    ASCII characters only. [None] is [NaN]. *)
Definition parseInt_units (text : list N) : option Z :=
  parseInt10 (string_of_list_ascii (map ascii_of_N text)).

Record FootnoteRef : Type :=
  { id : option Z;
    number : list N;
    verseNumber : Z }.

(** The [while ((match = footnoteRegex.exec(text)) !== null)] loop: scan
    left to right, record each match and resume after it. [skip] counts
    the code units of the current match still to pass. *)
Fixpoint exec_from (verse : Z) (skip : nat) (s : list N)
  : list FootnoteRef :=
  match s with
  | [] => []
  | _ :: rest =>
      match skip with
      | S k => exec_from verse k rest
      | O =>
          match match_at s with
          | Some m =>
              {| id := parseInt_units (group_1 m);
                 number := group_2 m;
                 verseNumber := verse |}
                :: exec_from verse (whole_length m - 1)%nat rest
          | None => exec_from verse O rest
          end
      end
  end.

Definition parseFootnoteIds (text : list N) (verseNumber : Z)
  : list FootnoteRef :=
  exec_from verseNumber O text.

End FootnoteIds.

(** ** screens/ReadScreen.tsx: saving and restoring the last position *)

Module LastRead.

(** [String(v)] on a JSON value; an array prints its elements joined by
    commas, [null] elements as the empty string. *)
Fixpoint String_of_json (v : Json) : string :=
  match v with
  | JNull => "null"
  | JBool true => "true"
  | JBool false => "false"
  | JNum n => String_of_Z n
  | JStr s => s
  | JArr items =>
      (fix join (l : list Json) : string :=
         match l with
         | [] => ""
         | [x] => match x with JNull => "" | _ => String_of_json x end
         | x :: rest =>
             match x with JNull => "" | _ => String_of_json x end
               +:+ "," +:+ join rest
         end) items
  | JObj _ => "[object Object]"
  end.

(** [data?.k], and [data.k] on a value known to be an object. *)
Definition get_optional (k : string) (v : Json) : JsVal :=
  match v with
  | JObj fields => lookup_field k fields
  | _ => undefined
  end.

(** The number behind [typeof v === "number"]. *)
Definition as_number (v : JsVal) : option Z :=
  match v with
  | Some (JNum n) => Some n
  | _ => None
  end.

(** The object [{ surahNumber, verseNumber, offsetY }] that is saved;
    a [NaN] verse number is printed as [null]. *)
Definition lastRead_document (surahId : Z) (lastViewedVerse : option Z)
  (offsetY : Z) : Json :=
  JObj [("surahNumber", JNum surahId);
        ("verseNumber",
         match lastViewedVerse with
         | Some v => JNum v
         | None => JNull
         end);
        ("offsetY", JNum offsetY)].

(** The document that the save scheduled by [handleScroll] writes for
    the scroll position [currentY]; [None] when it returns early.
    [contextVerseNumber] is a number or [NaN], never nullish, so the
    final [?? 1] of the source never applies. *)
Definition saved_position (offsets : gmap Z Z) (insets_top : Z)
  (regular initialScrollApplied hasUserScrolled : bool)
  (contextVerseNumber : option Z) (surahId currentY : Z) : option Json :=
  if negb initialScrollApplied && negb hasUserScrolled then None
  else if regular && bool_decide (offsets = ∅) then None
  else
    let lastViewedVerse :=
      if regular then
        match ReadScreen.getLastViewedVerse offsets insets_top currentY with
        | Some v => Some v
        | None => contextVerseNumber
        end
      else contextVerseNumber in
    Some (lastRead_document surahId lastViewedVerse currentY).

(** What [restoreLastRead] does to the navigator and the scroll view. *)
Inductive Effect : Type :=
| Navigate (surahNumber : string) (verse : option string)
| TryRestoreScroll.

(** The refs that the restore writes, the key-value store and the
    effects so far. *)
Record World : Type :=
  { hasRestoredRef : bool;
    restoreCheckedRef : bool;
    hasRestoreTargetRef : bool;
    restoringRef : bool;
    initialScrollOffsetRef : option Z;
    initialVerseRef : option Z;
    store : gmap string string;
    effects : list Effect }.

Definition setHasRestoredRef (b : bool) (w : World) : World :=
  {| hasRestoredRef := b; restoreCheckedRef := restoreCheckedRef w;
     hasRestoreTargetRef := hasRestoreTargetRef w;
     restoringRef := restoringRef w;
     initialScrollOffsetRef := initialScrollOffsetRef w;
     initialVerseRef := initialVerseRef w;
     store := store w; effects := effects w |}.

Definition setRestoreCheckedRef (b : bool) (w : World) : World :=
  {| hasRestoredRef := hasRestoredRef w; restoreCheckedRef := b;
     hasRestoreTargetRef := hasRestoreTargetRef w;
     restoringRef := restoringRef w;
     initialScrollOffsetRef := initialScrollOffsetRef w;
     initialVerseRef := initialVerseRef w;
     store := store w; effects := effects w |}.

Definition setHasRestoreTargetRef (b : bool) (w : World) : World :=
  {| hasRestoredRef := hasRestoredRef w;
     restoreCheckedRef := restoreCheckedRef w;
     hasRestoreTargetRef := b;
     restoringRef := restoringRef w;
     initialScrollOffsetRef := initialScrollOffsetRef w;
     initialVerseRef := initialVerseRef w;
     store := store w; effects := effects w |}.

Definition setRestoringRef (b : bool) (w : World) : World :=
  {| hasRestoredRef := hasRestoredRef w;
     restoreCheckedRef := restoreCheckedRef w;
     hasRestoreTargetRef := hasRestoreTargetRef w;
     restoringRef := b;
     initialScrollOffsetRef := initialScrollOffsetRef w;
     initialVerseRef := initialVerseRef w;
     store := store w; effects := effects w |}.

Definition setInitialScrollOffsetRef (y : option Z) (w : World) : World :=
  {| hasRestoredRef := hasRestoredRef w;
     restoreCheckedRef := restoreCheckedRef w;
     hasRestoreTargetRef := hasRestoreTargetRef w;
     restoringRef := restoringRef w;
     initialScrollOffsetRef := y;
     initialVerseRef := initialVerseRef w;
     store := store w; effects := effects w |}.

Definition setInitialVerseRef (v : option Z) (w : World) : World :=
  {| hasRestoredRef := hasRestoredRef w;
     restoreCheckedRef := restoreCheckedRef w;
     hasRestoreTargetRef := hasRestoreTargetRef w;
     restoringRef := restoringRef w;
     initialScrollOffsetRef := initialScrollOffsetRef w;
     initialVerseRef := v;
     store := store w; effects := effects w |}.

Definition setStore (s : gmap string string) (w : World) : World :=
  {| hasRestoredRef := hasRestoredRef w;
     restoreCheckedRef := restoreCheckedRef w;
     hasRestoreTargetRef := hasRestoreTargetRef w;
     restoringRef := restoringRef w;
     initialScrollOffsetRef := initialScrollOffsetRef w;
     initialVerseRef := initialVerseRef w;
     store := s; effects := effects w |}.

Definition perform (e : Effect) (w : World) : World :=
  {| hasRestoredRef := hasRestoredRef w;
     restoreCheckedRef := restoreCheckedRef w;
     hasRestoreTargetRef := hasRestoreTargetRef w;
     restoringRef := restoringRef w;
     initialScrollOffsetRef := initialScrollOffsetRef w;
     initialVerseRef := initialVerseRef w;
     store := store w; effects := effects w ++ [e] |}.

Record User : Type := { user_id : string }.

(** The row of [reading_progress] that the query selects. *)
Record ProgressRow : Type :=
  { surah_number : option Z;
    last_verse_read : option Z }.

Section WithEnvironment.

(** Whether the native store rejects a read or a write of the key. *)
Variable getItem_rejects : option Thrown.
Variable setItem_rejects : option Thrown.
Variable JSON_stringify : Json -> string.
Variable JSON_parse : string -> Outcome Json.
(** [supabase.auth.getUser()] and the [reading_progress] query: a row
    (or [null]) and whether there is an error. *)
Variable getUser : Outcome (option User).
Variable select_progress : string -> Outcome (option ProgressRow * bool).
(** [route.params?.surahNumber] *)
Variable route_surahNumber : option string.

(** [AsyncStorage.setItem("lastRead", JSON.stringify(doc)).catch(...)] *)
Definition persist (doc : Json) : Async World unit :=
  fun w =>
    match setItem_rejects with
    | Some _ => (w, Returns tt)
    | None =>
        (setStore (<["lastRead" := JSON_stringify doc]> (store w)) w,
         Returns tt)
    end.

Definition getItem_lastRead : Async World (option string) :=
  fun w =>
    match getItem_rejects with
    | Some t => (w, Throws t)
    | None => (w, Returns (store w !! "lastRead"))
    end.

(** The branch without a stored position: the last progress row of the
    signed-in user. *)
Definition restore_from_progress : Async World unit :=
  (let* user := lift getUser in
   match user with
   | None => modify (setRestoreCheckedRef true)
   | Some user =>
       let* answer := lift (select_progress (user_id user)) in
       match answer with
       | (Some {| surah_number := Some surah; last_verse_read := verse |},
          false) =>
           if surah =? 0 then modify (setRestoreCheckedRef true)
           else
             let* _ := modify (setHasRestoreTargetRef true) in
             let* _ := modify (setRestoreCheckedRef true) in
             match truthy_str route_surahNumber with
             | Some _ => ret tt
             | None =>
                 let verse := match verse with
                              | Some v => v
                              | None => 1
                              end in
                 let* _ := modify (setRestoringRef true) in
                 let* _ := modify (setInitialVerseRef (Some verse)) in
                 modify (perform (Navigate (String_of_Z surah)
                                    (Some (String_of_Z verse))))
             end
       | _ => modify (setRestoreCheckedRef true)
       end
   end)%async.

(** The branch with a stored position: the [try] block. *)
Definition restore_from_document (raw : string) : Async World unit :=
  (let* data := lift (JSON_parse raw) in
   let surahNumber := get_optional "surahNumber" data in
   if negb (truthy surahNumber) then modify (setRestoreCheckedRef true)
   else
     let offsetY := as_number (get_optional "offsetY" data) in
     let verseNumber := as_number (get_optional "verseNumber" data) in
     let surahText := match surahNumber with
                      | Some v => String_of_json v
                      | None => "undefined"
                      end in
     let* _ := modify (setHasRestoredRef true) in
     let* _ := modify (setHasRestoreTargetRef
                         (match offsetY, verseNumber with
                          | None, None => false
                          | _, _ => true
                          end)) in
     let* _ := modify (setRestoreCheckedRef true) in
     match truthy_str route_surahNumber with
     | Some routeSurah =>
         match offsetY with
         | Some y =>
             if String.eqb surahText routeSurah then
               let* _ := modify (setInitialScrollOffsetRef (Some y)) in
               modify (perform TryRestoreScroll)
             else
               match verseNumber with
               | Some v => modify (setInitialVerseRef (Some v))
               | None => ret tt
               end
         | None =>
             match verseNumber with
             | Some v => modify (setInitialVerseRef (Some v))
             | None => ret tt
             end
         end
     | None =>
         let* _ := modify (setRestoringRef true) in
         let* _ :=
           match offsetY, verseNumber with
           | Some y, _ => modify (setInitialScrollOffsetRef (Some y))
           | None, Some v => modify (setInitialVerseRef (Some v))
           | None, None => ret tt
           end in
         modify
           (perform
              (Navigate surahText
                 (match offsetY with
                  | Some _ => None
                  | None =>
                      match get_optional "verseNumber" data with
                      | Some v =>
                          if truthy (Some v) then Some (String_of_json v)
                          else None
                      | None => None
                      end
                  end)))
     end)%async.

(** The restore effect: [restoreLastRead] behind its guard. *)
Definition restoreLastRead : Async World unit :=
  (let* w := read in
   if hasRestoredRef w then ret tt
   else
     let* _ := modify (setRestoreCheckedRef false) in
     let* raw := getItem_lastRead in
     match truthy_str raw with
     | None => restore_from_progress
     | Some raw => try_catch (restore_from_document raw) (fun _ => ret tt)
     end)%async.

End WithEnvironment.

End LastRead.

(** ** Further sample data *)

Module Cases.

(** A provider with the first surah loaded, reciter Mishary Alafasy. *)
Definition listener : AudioControls.Provider :=
  {| AudioControls.world := Samples.loaded_world;
     AudioControls.selectedReciterId := AudioService.MISHARY_ALAFASY |}.

(** Verse 1:2 has been started alone: the boundary is armed at 9000. *)
Definition playing_alone : AudioContext.World :=
  fst (AudioContext.playVerse (fun _ => None) (fun _ => ret tt) 1 2
         Samples.loaded_world).

(** A loader that only does what [loadSurahAudio] does before it
    fetches: state "loading", boundary cleared. *)
Definition loading_only (r : AudioService.ReciterId) (surahId : Z)
  : Async AudioContext.World unit :=
  (let* _ := modify (AudioContext.setPlaybackState AudioContext.loading) in
   AudioContext.clearVerseEndBoundary)%async.

Definition theme_mercy : Bookmarks.ThematicBookmark :=
  {| Bookmarks.thematic_id := "7f3c2a10";
     Bookmarks.passage_id := "1-1-7";
     Bookmarks.thematic_surah_number := 1;
     Bookmarks.theme_name := "Mercy";
     Bookmarks.thematic_note := None;
     Bookmarks.thematic_created_at := "2024-03-01T10:00:00.000Z" |}.

Definition themes_world (l : list Bookmarks.ThematicBookmark)
  : Bookmarks.World :=
  {| Bookmarks.bookmarks := [Samples.bookmark_2_255];
     Bookmarks.thematicBookmarks := l;
     Bookmarks.loading := false; Bookmarks.toasts := [] |}.

(** The proxy answers with a list of two files and a single file. *)
Definition recitation : AudioService.ApiAudioFile :=
  {| AudioService.audio_url := "https://audio.example/7/1.mp3";
     AudioService.verse_timings := None;
     AudioService.chapter_id := 1;
     AudioService.file_duration := None |}.

Definition other_recitation : AudioService.ApiAudioFile :=
  {| AudioService.audio_url := "https://audio.example/7/1-alt.mp3";
     AudioService.verse_timings := Some [Samples.timing_1_1];
     AudioService.chapter_id := 1;
     AudioService.file_duration := Some 60000 |}.

Definition proxy (r : AudioService.Request)
  : Outcome AudioService.Response :=
  Returns {| AudioService.resp_ok := true;
             AudioService.resp_status := 200;
             AudioService.resp_statusText := "OK";
             AudioService.resp_json :=
               Returns {| AudioService.audio_file := Some other_recitation;
                          AudioService.audio_files :=
                            Some [recitation; other_recitation] |} |}.

(** The hook after its first call for a signed-in subscriber: check 0
    is running. *)
Definition checking_hook : StripeSubscription.World :=
  fst (StripeSubscription.checkSubscription (Some Samples.subscriber)
         (Some Samples.signed_in) Samples.plans false false
         Samples.fresh_hook).

Definition first_check : StripeSubscription.PendingCheck :=
  {| StripeSubscription.promise := 0;
     StripeSubscription.currentUser := Samples.subscriber;
     StripeSubscription.currentPlans := Samples.plans |}.

(** The data of [Samples.answer]. *)
Definition answer_data : StripeSubscription.CheckData :=
  {| StripeSubscription.data_error := None;
     StripeSubscription.data_subscriptions := Some Samples.bundle_then_read |}.

(** The function answers with an auth error. *)
Definition auth_failure : StripeSubscription.CheckEnv :=
  {| StripeSubscription.env_getSession := Returns (Some Samples.signed_in);
     StripeSubscription.env_invoke :=
       Returns {| StripeSubscription.invoke_data := None;
                  StripeSubscription.invoke_error :=
                    Some "Auth session missing!" |};
     StripeSubscription.env_now := 1700000000000 |}.

(** The call of the function rejects with an auth error. *)
Definition auth_rejection : StripeSubscription.CheckEnv :=
  {| StripeSubscription.env_getSession := Returns (Some Samples.signed_in);
     StripeSubscription.env_invoke :=
       Throws (ThrownError "Auth session missing!");
     StripeSubscription.env_now := 1700000000000 |}.

(** The network is down. *)
Definition outage : StripeSubscription.CheckEnv :=
  {| StripeSubscription.env_getSession := Returns (Some Samples.signed_in);
     StripeSubscription.env_invoke :=
       Throws (ThrownError "Network request failed");
     StripeSubscription.env_now := 1700000000000 |}.

(** The read plan, priced for the year only. *)
Definition read_plan : SubscriptionHook.PricedPlan :=
  {| SubscriptionHook.plan_id := "plan-read";
     SubscriptionHook.plan_product_type := "read";
     SubscriptionHook.stripe_price_monthly_id := None;
     SubscriptionHook.stripe_price_biannual_id := None;
     SubscriptionHook.stripe_price_annual_id := Some "price_read_annual" |}.

(** The backend answers the portal with a link, and the checkout with an
    error in its data. *)
Definition stripe (name : string)
  (body : option SubscriptionHook.CheckoutBody) (authorization : string)
  : Outcome SubscriptionHook.LinkResult :=
  if String.eqb name "customer-portal" then
    Returns {| SubscriptionHook.link_data :=
                 Some {| SubscriptionHook.link_error := None;
                         SubscriptionHook.link_url :=
                           Some "https://billing.example/portal" |};
               SubscriptionHook.link_fnError := None |}
  else
    Returns {| SubscriptionHook.link_data :=
                 Some {| SubscriptionHook.link_error :=
                           Some "Trial already used";
                         SubscriptionHook.link_url :=
                           Some "https://billing.example/checkout" |};
               SubscriptionHook.link_fnError := None |}.

(** The read screen before any restore, nothing stored. *)
Definition first_visit : LastRead.World :=
  {| LastRead.hasRestoredRef := false;
     LastRead.restoreCheckedRef := false;
     LastRead.hasRestoreTargetRef := false;
     LastRead.restoringRef := false;
     LastRead.initialScrollOffsetRef := None;
     LastRead.initialVerseRef := None;
     LastRead.store := ∅;
     LastRead.effects := [] |}.

(** Surah 2 with three verses. The reader section starts at 380; the
    card of verse 1 sits 36 below the top of its wrapper, under the page
    marker, the cards of verses 2 and 3 at the top of theirs. *)
Definition layout : gmap Z Z :=
  <[1 := 380 + 36]> (<[2 := 380 + 0]> (<[3 := 380 + 0]> ∅)).

End Cases.

(** ** Further vocabulary of the statements *)

Module Terms.

(** *** The query functions *)

(** A call of one of the query functions of [quranApi.ts]. *)
Inductive Query : Type :=
| FetchAllSurahs
| GetSurah (surahId : Z)
| GetVersesByPage (pageNumber : Z)
| FetchThemeCategories
| FetchThemesByCategory (categoryId : Z)
| FetchThemesBySurah (surahNumber : Z)
| FetchVersesForThemes (themeIds : list Z)
| CountVersesInTheme (themeId : Z)
| FetchFootnote (footnoteId : Z)
| FetchFootnotesByIds (footnoteIds : list Z)
| FetchSurahsPaginated (pageSize pageIndex : Z)
| FetchVersesPaginated (surahId pageSize pageIndex : Z).

Definition call (API_BASE_URL : option string)
  (fetch : QuranApi.Request -> Outcome QuranApi.Response) (q : Query)
  : Async (list QuranApi.Request) QuranApi.QueryResult :=
  match q with
  | FetchAllSurahs => QuranQueries.fetchAllSurahs API_BASE_URL fetch
  | GetSurah surahId => QuranQueries.getSurah API_BASE_URL fetch surahId
  | GetVersesByPage pageNumber =>
      QuranQueries.getVersesByPage API_BASE_URL fetch pageNumber
  | FetchThemeCategories =>
      QuranQueries.fetchThemeCategories API_BASE_URL fetch
  | FetchThemesByCategory categoryId =>
      QuranQueries.fetchThemesByCategory API_BASE_URL fetch categoryId
  | FetchThemesBySurah surahNumber =>
      QuranQueries.fetchThemesBySurah API_BASE_URL fetch surahNumber
  | FetchVersesForThemes themeIds =>
      QuranQueries.fetchVersesForThemes API_BASE_URL fetch themeIds
  | CountVersesInTheme themeId =>
      QuranQueries.countVersesInTheme API_BASE_URL fetch themeId
  | FetchFootnote footnoteId =>
      QuranQueries.fetchFootnote API_BASE_URL fetch footnoteId
  | FetchFootnotesByIds footnoteIds =>
      QuranQueries.fetchFootnotesByIds API_BASE_URL fetch footnoteIds
  | FetchSurahsPaginated pageSize pageIndex =>
      QuranQueries.fetchSurahsPaginated API_BASE_URL fetch pageSize pageIndex
  | FetchVersesPaginated surahId pageSize pageIndex =>
      QuranQueries.fetchVersesPaginated API_BASE_URL fetch surahId pageSize
        pageIndex
  end.

(** The number of occurrences of a character in a text. *)
Fixpoint count_char (c : ascii) (s : string) : nat :=
  match s with
  | EmptyString => 0%nat
  | String c' rest =>
      ((if Ascii.eqb c c' then 1 else 0) + count_char c rest)%nat
  end.

(** A request carries one parameter for each [?] of its SQL text. *)
Definition well_parametrised (r : QuranApi.Request) : Prop :=
  count_char "?" (QuranApi.body_sql (QuranApi.req_body r))
  = length (QuranApi.body_params (QuranApi.req_body r)).

(** A request is a POST to the query endpoint under [base]. *)
Definition posted_to (base : string) (r : QuranApi.Request) : Prop :=
  QuranApi.req_url r = base +:+ "/api/quran/query"
  /\ QuranApi.req_method r = "POST".

(** *** Verse keys and the reading position *)

(** The key [`${surahId}:${verseNumber}`] of a verse. *)
Definition verse_key_of (surahId verseNumber : Z) : string :=
  String_of_Z surahId +:+ ":" +:+ String_of_Z verseNumber.

Definition colon_free (text : string) : Prop :=
  ReadScreenNav.text_after_colon text = None.

(** *** The playback controls *)

(** What can happen to the audio provider: a call of one of its
    controls, or a status event from the native player. *)
Inductive Action : Type :=
| PlayVerse (surahId verseNumber : Z)
| PlaySurah (surahId : Z) (fromVerse : option Z)
| Pause
| Resume
| TogglePlayPause
| Stop
| SetReciter (reciterId : AudioService.ReciterId)
| StatusUpdate (status : AudioContext.PlaybackStatus).

Definition on_world (f : AudioContext.World -> AudioContext.World)
  (p : AudioControls.Provider) : AudioControls.Provider :=
  {| AudioControls.world := f (AudioControls.world p);
     AudioControls.selectedReciterId := AudioControls.selectedReciterId p |}.

Definition perform
  (sound_rejects : AudioContext.SoundCommand -> option Thrown)
  (loadSurahAudio : AudioService.ReciterId -> Z
                    -> Async AudioContext.World unit)
  (a : Action) (p : AudioControls.Provider) : AudioControls.Provider :=
  let load := loadSurahAudio (AudioControls.selectedReciterId p) in
  match a with
  | PlayVerse surahId verseNumber =>
      on_world (fun w => fst (AudioContext.playVerse sound_rejects load
                                surahId verseNumber w)) p
  | PlaySurah surahId fromVerse =>
      on_world (fun w => fst (AudioControls.playSurah sound_rejects load
                                surahId fromVerse w)) p
  | Pause => on_world AudioControls.pause p
  | Resume => on_world (fun w => fst (AudioControls.resume sound_rejects w)) p
  | TogglePlayPause =>
      on_world (fun w => fst (AudioControls.togglePlayPause sound_rejects w)) p
  | Stop => on_world AudioControls.stop p
  | SetReciter reciterId => AudioControls.setReciter reciterId p
  | StatusUpdate status => on_world (AudioContext.status_update status) p
  end.

Definition perform_all
  (sound_rejects : AudioContext.SoundCommand -> option Thrown)
  (loadSurahAudio : AudioService.ReciterId -> Z
                    -> Async AudioContext.World unit)
  (actions : list Action) (p : AudioControls.Provider)
  : AudioControls.Provider :=
  fold_left (fun p a => perform sound_rejects loadSurahAudio a p) actions p.

(** A stop boundary is armed only in single-verse mode. *)
Definition armed_in_single_verse_mode (w : AudioContext.World) : Prop :=
  AudioContext.singleVerseEndTimeRef w <> None ->
  AudioContext.isSingleVerseMode w = true.

(** No status event can reach a boundary: there is no sound to report,
    or no boundary. *)
Definition unarmed (w : AudioContext.World) : Prop :=
  AudioContext.soundRef w = None
  \/ AudioContext.singleVerseEndTimeRef w = None.

(** The status events send nothing to the sound. *)
Definition plays_on (events : list AudioContext.PlaybackStatus)
  (w : AudioContext.World) : Prop :=
  AudioContext.sound_commands (Spec.status_updates events w)
  = AudioContext.sound_commands w.

(** *** The subscription hook *)

(** The backend answers a check with [data]: a session with a token, no
    function error, no error in the data. *)
Definition check_succeeds (env : StripeSubscription.CheckEnv)
  (data : StripeSubscription.CheckData) : Prop :=
  exists session,
    StripeSubscription.env_getSession env = Returns session
    /\ StripeSubscription.no_token session = false
    /\ StripeSubscription.env_invoke env
       = Returns {| StripeSubscription.invoke_data := Some data;
                    StripeSubscription.invoke_error := None |}
    /\ truthy_str (StripeSubscription.data_error data) = None.

(** The error shown, if any, mentions neither "Auth" nor "session". *)
Definition quiet_error (w : StripeSubscription.World) : Prop :=
  match StripeSubscription.error w with
  | Some message => StripeSubscription.mentions_auth message = false
  | None => True
  end.

(** A step that keeps the error quiet. *)
Definition quiet_step (w w' : StripeSubscription.World) : Prop :=
  quiet_error w -> quiet_error w'.

(** The running check behind promise [p]. *)
Definition running (p : nat) (w : StripeSubscription.World)
  : option StripeSubscription.PendingCheck :=
  List.find (fun pc => Nat.eqb (StripeSubscription.promise pc) p)
    (StripeSubscription.pending w).

(** *** Checkout links *)

(** The function answered the link [url]: it resolved without a
    function error, with data that carry no error and the URL. *)
Definition answers_link (answer : Outcome SubscriptionHook.LinkResult)
  (url : string) : Prop :=
  exists data,
    answer = Returns {| SubscriptionHook.link_data := Some data;
                        SubscriptionHook.link_fnError := None |}
    /\ truthy_str (SubscriptionHook.link_error data) = None
    /\ truthy_str (SubscriptionHook.link_url data) = Some url.

(** What follows the call of the function: the opening of the link that
    it answered, when it answered one, and nothing else. *)
Definition opens_answered_link
  (answer : Outcome SubscriptionHook.LinkResult)
  (rest : list SubscriptionHook.Effect) : Prop :=
  (rest = [] \/ exists url, rest = [SubscriptionHook.OpenedURL url])
  /\ forall url,
       rest = [SubscriptionHook.OpenedURL url] <-> answers_link answer url.

(** *** Footnote references *)

(** The text [pre] is what the pieces match: the characters in order,
    each repeated character at least once. *)
Fixpoint spelled_by (ps : list FootnoteIds.Piece) (pre : list N) : Prop :=
  match ps with
  | [] => pre = []
  | FootnoteIds.Char c :: ps' =>
      exists pre', pre = c :: pre' /\ spelled_by ps' pre'
  | FootnoteIds.Plus c :: ps' =>
      exists n pre', pre = repeat c (S n) ++ pre' /\ spelled_by ps' pre'
  end.

(** A footnote tag as the translations carry it:
    [<footnote id="ID" number="NUMBER">]. *)
Definition footnote_tag (id number : string) : list N :=
  Footnotes.code_units "<footnote id="
    ++ [FootnoteIds.quote] ++ Footnotes.code_units id
    ++ [FootnoteIds.quote] ++ Footnotes.code_units " number="
    ++ [FootnoteIds.quote] ++ Footnotes.code_units number
    ++ [FootnoteIds.quote; Footnotes.gt].

(** *** Numerals *)

(** The Arabic-Indic numeral of an ASCII digit: U+0030.. to U+0660... *)
Definition arabic_of_ascii (c : ascii) : N := (N_of_ascii c + 1584)%N.

End Terms.

(* ===================================================================== *)
(** * Part II: the properties                                             *)
(* ===================================================================== *)

(** ** services/quranApi.ts *)

Section QuranApiFacts.

Import QuranApi Spec.

Variable API_BASE_URL : option string.
Variable fetch : Request -> Outcome Response.

Lemma get_after_success (j : Json) (k : string) :
  reports_success j = true -> get k j = Returns (field k j).
Proof.
  unfold reports_success, field.
  destruct j; simpl; try reflexivity. discriminate.
Qed.

Lemma truthy_or_default (m : JsVal) (d : string) :
  d <> "" ->
  truthy (if truthy m then m else Some (JStr d)) = true.
Proof.
  intros Hd. destruct (truthy m) eqn:E; [exact E|].
  simpl. destruct (String.eqb_spec d ""); [contradiction|reflexivity].
Qed.

(** The run of the guarded block, case by case. *)
Lemma executeQuranQuery_with_base (base sql : string) (params : list Param)
  (log : list Request) :
  base <> "" ->
  exists log' r,
    executeQuranQuery (Some base) fetch sql params log = (log', Returns r)
    /\ match exchange fetch base sql params with
       | Failed t => r = failure (Some (JStr (thrown_message t)))
       | Body j =>
           if reports_success j then
             r = {| success := true; data := field "data" j;
                    count := field "count" j; error := undefined |}
           else
             match get "success" j with
             | Returns _ =>
                 r = failure (if truthy (field "message" j)
                              then field "message" j
                              else Some (JStr "Query failed"))
             | Throws t => r = failure (Some (JStr (thrown_message t)))
             end
             /\ truthy (error r) = true
       end.
Proof.
  intros Hbase. unfold executeQuranQuery, exchange, truthy_str.
  destruct (String.eqb_spec base ""); [contradiction|].
  unfold try_catch, bind, lift, do_fetch, ret.
  destruct (JSON_stringify sql params) as [body|t]; [|eauto].
  destruct (fetch (query_request base body)) as [response|t]; [|eauto].
  destruct (resp_json response) as [j|t]; [|eauto].
  destruct (reports_success j) eqn:Hs.
  - rewrite !(get_after_success j _ Hs).
    unfold reports_success in Hs. rewrite Hs. eauto.
  - destruct j; simpl in *; eauto 10.
    unfold reports_success, field in Hs. simpl in Hs. rewrite Hs.
    do 2 eexists. split; [reflexivity|]. unfold field. simpl.
    split; [reflexivity|]. now apply truthy_or_default.
Qed.

(** C1 (as amended): [executeQuranQuery] never throws. With the base URL
    unset it returns the failure object with the "Missing ..." message
    and sends nothing. When the body reports success it returns
    success=true with the body's data and count. When the body does not
    report success it returns success=false, data=null, count=0 and a
    non-empty error: for a body other than JSON null, the body's
    [message] when that is truthy and "Query failed" otherwise; for the
    body JSON null, on which reading [success] throws, the message of
    that TypeError. When serialising the request, the fetch or reading
    the body throws, it returns success=false, data=null, count=0 and
    the thrown Error's message as it is ("Network error" for a thrown
    non-Error). *)
Theorem executeQuranQuery_never_throws (sql : string) (params : list Param)
  (log : list Request) :
  exists log' r,
    executeQuranQuery API_BASE_URL fetch sql params log = (log', Returns r)
    /\ match truthy_str API_BASE_URL with
       | None =>
           log' = log
           /\ r = failure
                    (Some (JStr "Missing EXPO_PUBLIC_QURAN_API_BASE_URL"))
       | Some base =>
           match exchange fetch base sql params with
           | Failed t => r = failure (Some (JStr (thrown_message t)))
           | Body j =>
               if reports_success j then
                 r = {| success := true; data := field "data" j;
                        count := field "count" j; error := undefined |}
               else
                 match get "success" j with
                 | Returns _ =>
                     r = failure (if truthy (field "message" j)
                                  then field "message" j
                                  else Some (JStr "Query failed"))
                 | Throws t => r = failure (Some (JStr (thrown_message t)))
                 end
                 /\ truthy (error r) = true
           end
       end.
Proof.
  destruct (truthy_str API_BASE_URL) as [base|] eqn:Hurl.
  - assert (Hbase : base <> "" /\ API_BASE_URL = Some base).
    { unfold truthy_str in Hurl. destruct API_BASE_URL as [b|]; [|discriminate].
      destruct (String.eqb_spec b ""); [discriminate|].
      injection Hurl as ->. now split. }
    destruct Hbase as [Hbase ->]. now apply executeQuranQuery_with_base.
  - exists log. eexists. unfold executeQuranQuery. rewrite Hurl.
    split; [reflexivity|]. split; reflexivity.
Qed.

End QuranApiFacts.

(** C1 (as stated) fails: when the fetch rejects with an [Error] whose
    message is empty, the error message of the result is empty. *)
Lemma executeQuranQuery_empty_error_message :
  exists r,
    snd (QuranApi.executeQuranQuery (Some "https://quran.example")
           (fun _ => Throws (ThrownError "")) "SELECT 1" [] [])
    = Returns r
    /\ QuranApi.success r = false
    /\ QuranApi.error r = Some (JStr "").
Proof. eexists. split; [reflexivity|]. split; reflexivity. Qed.

(** ** services/quranAudioService.ts *)

Section AudioServiceFacts.

Import AudioService Spec.

Lemma contains_time_spec (t : Z) (x : VerseTiming) :
  contains_time t x = true <-> contains t x.
Proof. unfold contains_time, contains. lia. Qed.

Lemma contains_time_false (t : Z) (x : VerseTiming) :
  contains_time t x = false <-> ~ contains t x.
Proof.
  rewrite <- contains_time_spec. destruct (contains_time t x); split; congruence.
Qed.

Lemma findCurrentVerseTiming_Some (t : Z) (timings : list VerseTiming)
  (x : VerseTiming) :
  findCurrentVerseTiming t timings = Some x <->
  exists before after,
    timings = before ++ x :: after
    /\ contains t x
    /\ Forall (fun y => ~ contains t y) before.
Proof.
  induction timings as [|y rest IH]; simpl.
  - split; [discriminate|].
    intros (before & after & H & _). now destruct before.
  - destruct (contains_time t y) eqn:E.
    + split.
      * intros [= ->]. exists [], rest.
        split; [reflexivity|].
        split; [now apply contains_time_spec | constructor].
      * intros (before & after & H & Hx & Hb).
        destruct before as [|b before]; simpl in H.
        -- now injection H as -> _.
        -- injection H as -> _. inversion Hb; subst.
           apply contains_time_spec in E. contradiction.
    + rewrite IH. split.
      * intros (before & after & -> & Hx & Hb).
        exists (y :: before), after.
        split; [reflexivity|]. split; [exact Hx|].
        constructor; [now apply contains_time_false | exact Hb].
      * intros (before & after & H & Hx & Hb).
        destruct before as [|b before]; simpl in H; injection H as -> ->.
        -- apply contains_time_false in E. contradiction.
        -- inversion Hb; subst. eauto.
Qed.

Lemma findCurrentVerseTiming_None (t : Z) (timings : list VerseTiming) :
  findCurrentVerseTiming t timings = None <->
  Forall (fun y => ~ contains t y) timings.
Proof.
  induction timings as [|y rest IH]; simpl.
  - split; [constructor | reflexivity].
  - destruct (contains_time t y) eqn:E.
    + split; [discriminate|]. intros H. inversion H; subst.
      apply contains_time_spec in E. contradiction.
    + rewrite IH. split.
      * intros H. constructor; [now apply contains_time_false | exact H].
      * intros H. now inversion H.
Qed.

Example findCurrentVerseTiming_samples :
  let timings := [Samples.timing_1_1; Samples.timing_1_2] in
  findCurrentVerseTiming 3999 timings = Some Samples.timing_1_1
  /\ findCurrentVerseTiming 4000 timings = Some Samples.timing_1_2
  /\ findCurrentVerseTiming 9000 timings = None
  /\ findCurrentVerseTiming (-1) timings = None.
Proof. repeat split. Qed.

(** C3: [findCurrentVerseTiming t timings] is the first timing, in list
    order, whose interval [timestamp_from <= t < timestamp_to] contains
    [t], and it is null exactly when no timing of the list contains
    [t]. *)
Theorem findCurrentVerseTiming_first_containing (t : Z)
  (timings : list VerseTiming) :
  (forall x,
     findCurrentVerseTiming t timings = Some x <->
     exists before after,
       timings = before ++ x :: after
       /\ timestamp_from x <= t < timestamp_to x
       /\ Forall (fun y => ~ (timestamp_from y <= t < timestamp_to y)) before)
  /\ (findCurrentVerseTiming t timings = None <->
      Forall (fun y => ~ (timestamp_from y <= t < timestamp_to y)) timings).
Proof.
  split.
  - intros x. apply findCurrentVerseTiming_Some.
  - apply findCurrentVerseTiming_None.
Qed.

Variable SUPABASE_URL : option string.
Variable SUPABASE_ANON_KEY : option string.
Variable fetch : Request -> Outcome Response.

Lemma falsy_truthy_str (s : option string) :
  falsy_str s = match truthy_str s with Some _ => false | None => true end.
Proof. destruct s as [s|]; simpl; [|reflexivity]. now destruct (String.eqb s ""). Qed.

(** C10: for a surah id below 1 or above 114, and when the Supabase
    configuration is missing, [fetchSurahAudio] throws and no request
    has been sent: the checks come before the fetch. *)
Theorem fetchSurahAudio_rejects_before_fetch (surahId : Z)
  (reciterId : ReciterId) (log : list Request) :
  surahId < 1 \/ surahId > 114
  \/ falsy_str SUPABASE_URL = true \/ falsy_str SUPABASE_ANON_KEY = true ->
  exists t,
    fetchSurahAudio SUPABASE_URL SUPABASE_ANON_KEY fetch surahId reciterId log
    = (log, Throws t).
Proof.
  intros H. unfold fetchSurahAudio, throw.
  destruct (truthy_str SUPABASE_URL) as [base|] eqn:Hurl; [|eauto].
  destruct (truthy_str SUPABASE_ANON_KEY) as [key|] eqn:Hkey; [|eauto].
  destruct (surahId <? 1) eqn:E1; simpl; [eauto|].
  destruct (surahId >? 114) eqn:E2; simpl; [eauto|].
  exfalso. destruct H as [H|[H|[H|H]]]; try lia.
  - now rewrite falsy_truthy_str, Hurl in H.
  - now rewrite falsy_truthy_str, Hkey in H.
Qed.

(** With the configuration present and the id in range, exactly one
    request is sent. *)
Lemma fetchSurahAudio_sends_one_request (base key : string) (surahId : Z)
  (reciterId : ReciterId) (log : list Request) :
  base <> "" -> key <> "" -> 1 <= surahId <= 114 ->
  exists request,
    fst (fetchSurahAudio (Some base) (Some key) fetch surahId reciterId log)
    = log ++ [request].
Proof.
  intros Hb Hk Hr. unfold fetchSurahAudio, truthy_str.
  destruct (String.eqb_spec base ""); [contradiction|].
  destruct (String.eqb_spec key ""); [contradiction|]. simpl.
  replace (surahId <? 1) with false by lia.
  replace (surahId >? 114) with false by lia. simpl.
  unfold bind, do_fetch. eexists.
  destruct (fetch _) as [response|t]; simpl; [|reflexivity].
  destruct (negb (resp_ok response)); simpl; [reflexivity|].
  unfold lift. destruct (resp_json response) as [d|t]; simpl; [|reflexivity].
  destruct (pick_audio_file d); reflexivity.
Qed.

End AudioServiceFacts.

(** A run of C10: surah 115 is refused before anything is sent. *)
Lemma fetchSurahAudio_rejects_before_fetch_witness :
  exists t,
    AudioService.fetchSurahAudio (Some "https://project.example")
      (Some "anon-key")
      (fun _ => Throws ThrownValue) 115 AudioService.MISHARY_ALAFASY []
    = ([], Throws t).
Proof.
  apply (fetchSurahAudio_rejects_before_fetch _ _ _ 115
           AudioService.MISHARY_ALAFASY []).
  right. left. lia.
Defined.

(** ** screens/ReadScreen.tsx *)

Section ReadScreenFacts.

Import ReadScreen Spec.

Variable offsets : gmap Z Z.
Variable insets_top : Z.

Lemma verseNumbers_elem (v : Z) :
  v ∈ verseNumbers offsets <-> recorded offsets v.
Proof.
  unfold verseNumbers, recorded.
  rewrite merge_sort_Permutation, elem_of_elements. apply elem_of_dom.
Qed.

Lemma verseNumbers_sorted : StronglySorted Z.le (verseNumbers offsets).
Proof. apply StronglySorted_merge_sort; apply _. Qed.

Lemma verseNumbers_nil : verseNumbers offsets = [] <-> offsets = ∅.
Proof.
  split.
  - intros H. apply map_empty. intros v.
    destruct (offsets !! v) eqn:E; [|reflexivity].
    assert (Hin : v ∈ verseNumbers offsets)
      by (apply verseNumbers_elem; unfold recorded; eauto).
    rewrite H in Hin. now apply elem_of_nil in Hin.
  - intros ->. reflexivity.
Qed.

Lemma offset_at_most_spec (top v : Z) :
  offset_at_most offsets top v = true <-> qualifies offsets top v.
Proof.
  unfold offset_at_most, qualifies. destruct (offsets !! v) as [o|].
  - split.
    + intros H. exists o. split; [reflexivity | lia].
    + intros (o' & [= <-] & H). lia.
  - split; [discriminate|]. now intros (o & H & _).
Qed.

(** The loop stops at the end of the leading run of qualifying verses. *)
Lemma scan_cases (top c : Z) (l : list Z) :
  (scan offsets top c l = c
   /\ match l with
      | [] => True
      | v :: _ => offset_at_most offsets top v = false
      end)
  \/ (exists pre r post,
        l = pre ++ r :: post
        /\ Forall (fun v => offset_at_most offsets top v = true) (pre ++ [r])
        /\ scan offsets top c l = r
        /\ match post with
           | [] => True
           | v :: _ => offset_at_most offsets top v = false
           end).
Proof.
  revert c. induction l as [|v l IH]; intros c; simpl.
  - left. split; [reflexivity | exact I].
  - destruct (offset_at_most offsets top v) eqn:E.
    + right. destruct (IH v) as [[Hs Hh] | (pre & r & post & -> & Hall & Hs & Hh)].
      * exists [], v, l. simpl. repeat split; auto.
      * exists (v :: pre), r, post. simpl. repeat split; auto.
    + left. split; reflexivity.
Qed.

Lemma leading_run_result (top : Z) (pre post : list Z) (r : Z) :
  verseNumbers offsets = pre ++ r :: post ->
  Forall (fun v => offset_at_most offsets top v = true) (pre ++ [r]) ->
  match post with
  | [] => True
  | v :: _ => offset_at_most offsets top v = false
  end ->
  run_up_to offsets top r /\ forall v, run_up_to offsets top v -> v <= r.
Proof.
  intros Hvs Hall Hpost.
  pose proof verseNumbers_sorted as Hsorted. rewrite Hvs in Hsorted.
  assert (Hafter : forall u, u ∈ post -> r <= u).
  { intros u Hu. apply StronglySorted_app_1_r in Hsorted.
    apply StronglySorted_inv in Hsorted as [_ Hr].
    rewrite Forall_forall in Hr. now apply Hr. }
  assert (Hbefore : forall u, u ∈ pre -> u <= r).
  { intros u Hu.
    apply (StronglySorted_app_1_elem_of Z.le pre (r :: post) u r Hsorted Hu).
    left. }
  assert (Hpass : forall u, u ∈ pre ++ [r] -> qualifies offsets top u).
  { intros u Hu. apply offset_at_most_spec.
    rewrite Forall_forall in Hall. now apply Hall. }
  split.
  - split.
    + apply verseNumbers_elem. rewrite Hvs.
      apply elem_of_app. right. left.
    + assert (Hr : qualifies offsets top r).
      { apply Hpass, elem_of_app. right. left. }
      intros u Hu Hle. apply verseNumbers_elem in Hu. rewrite Hvs in Hu.
      apply elem_of_app in Hu as [Hu|Hu];
        [apply Hpass, elem_of_app; now left|].
      apply elem_of_cons in Hu as [->|Hu]; [exact Hr|].
      assert (u = r) as -> by (apply Hafter in Hu; lia).
      exact Hr.
  - intros v [Hv Hrun]. apply verseNumbers_elem in Hv. rewrite Hvs in Hv.
    apply elem_of_app in Hv as [Hv|Hv]; [now apply Hbefore|].
    apply elem_of_cons in Hv as [->|Hv]; [lia|].
    exfalso. destruct post as [|h post']; [now apply elem_of_nil in Hv|].
    assert (Hh : qualifies offsets top h).
    { apply Hrun.
      - apply verseNumbers_elem. rewrite Hvs.
        apply elem_of_app. right. right. left.
      - destruct (proj1 (elem_of_cons _ _ _) Hv) as [Heq|Hv']; [lia|].
        apply StronglySorted_app_1_r in Hsorted.
        apply StronglySorted_inv in Hsorted as [Hsorted _].
        apply StronglySorted_inv in Hsorted as [_ Hr].
        rewrite Forall_forall in Hr. now apply Hr. }
    apply offset_at_most_spec in Hh. congruence.
Qed.

Lemma smallest_result (first : Z) (rest : list Z) :
  verseNumbers offsets = first :: rest ->
  smallest_recorded offsets first.
Proof.
  intros Hvs. pose proof verseNumbers_sorted as Hsorted.
  rewrite Hvs in Hsorted. apply StronglySorted_inv in Hsorted as [_ Hr].
  split.
  - apply verseNumbers_elem. rewrite Hvs. left.
  - intros u Hu. apply verseNumbers_elem in Hu. rewrite Hvs in Hu.
    apply elem_of_cons in Hu as [->|Hu]; [lia|].
    rewrite Forall_forall in Hr. now apply Hr.
Qed.

Lemma getLastViewedVerse_cases (scrollY r : Z) :
  getLastViewedVerse offsets insets_top scrollY = Some r ->
  let top := scrollY + insets_top + 56 + 12 in
  (run_up_to offsets top r /\ forall v, run_up_to offsets top v -> v <= r)
  \/ (smallest_recorded offsets r /\ ~ qualifies offsets top r).
Proof.
  unfold getLastViewedVerse.
  destruct (verseNumbers offsets) as [|first rest] eqn:Hvs; [discriminate|].
  intros H. injection H as <-.
  set (top := scrollY + insets_top + 56 + 12).
  destruct (scan_cases top first (first :: rest))
    as [[Hs Hh] | (pre & r & post & Hl & Hall & Hs & Hh)].
  - right. simpl in Hs. rewrite Hs. split.
    + now apply (smallest_result first rest).
    + intros Hq. apply offset_at_most_spec in Hq. congruence.
  - left. simpl in Hs. rewrite Hs.
    apply (leading_run_result top pre post r); auto. now rewrite Hvs.
Qed.

(** C4 (as amended): [getLastViewedVerse] is null exactly when no offset
    is recorded. Otherwise, with viewportTop = y + inset + 56 + 12, it
    is the largest recorded verse number v such that every recorded
    verse number up to and including v has its offset <= viewportTop,
    when the smallest recorded verse number has; and the smallest
    recorded verse number when it has not. When the offsets do not
    decrease with the verse number, this is the largest recorded verse
    number whose offset is <= viewportTop when one qualifies, and the
    smallest recorded verse number when none does. *)
Theorem getLastViewedVerse_leading_run (scrollY : Z) :
  let top := scrollY + insets_top + 56 + 12 in
  (getLastViewedVerse offsets insets_top scrollY = None <-> offsets = ∅)
  /\ (forall r,
        getLastViewedVerse offsets insets_top scrollY = Some r ->
        (run_up_to offsets top r
         /\ forall v, run_up_to offsets top v -> v <= r)
        \/ (smallest_recorded offsets r /\ ~ qualifies offsets top r))
  /\ (monotone offsets ->
      forall r,
        getLastViewedVerse offsets insets_top scrollY = Some r ->
        (qualifies offsets top r
         /\ forall v, qualifies offsets top v -> v <= r)
        \/ (smallest_recorded offsets r
            /\ forall v, ~ qualifies offsets top v)).
Proof.
  intros top. split; [|split].
  - unfold getLastViewedVerse. rewrite <- verseNumbers_nil.
    destruct (verseNumbers offsets); split; congruence.
  - intros r Hr. now apply getLastViewedVerse_cases.
  - intros Hmono r Hr. apply getLastViewedVerse_cases in Hr.
    fold top in Hr. destruct Hr as [[[Hrec Hrun] Hmax] | [Hsm Hnq]].
    + left. split; [apply Hrun; [exact Hrec | lia]|].
      intros v (ov & Hv & Hov). apply Hmax. split; [unfold recorded; eauto|].
      intros u [ou Hu] Hle. exists ou. split; [exact Hu|].
      specialize (Hmono u v ou ov Hu Hv Hle). lia.
    + right. split; [exact Hsm|]. intros v (ov & Hv & Hov). apply Hnq.
      destruct Hsm as [[o Ho] Hleast]. exists o. split; [exact Ho|].
      assert (r <= v) by (apply Hleast; unfold recorded; eauto).
      specialize (Hmono r v o ov Ho Hv H). lia.
Qed.

End ReadScreenFacts.

(** C4 (as stated) fails: with verse 1 laid out at 100 and verse 2 at 50,
    and the viewport top at 68, verse 2 is the largest verse whose offset
    is at most 68, but the loop stops at verse 1 and returns it. *)
Lemma getLastViewedVerse_stops_at_first_gap :
  let offsets : gmap Z Z := <[1 := 100]> (<[2 := 50]> ∅) in
  ReadScreen.getLastViewedVerse offsets 0 0 = Some 1
  /\ Spec.qualifies offsets (0 + 0 + 56 + 12) 2
  /\ ~ Spec.qualifies offsets (0 + 0 + 56 + 12) 1.
Proof.
  split; [reflexivity|]. split.
  - exists 50. split; [reflexivity | lia].
  - intros (o & Ho & Hle). vm_compute in Ho. injection Ho as <-. lia.
Qed.

(** A run of C4 on offsets that grow with the verse number. *)
Lemma getLastViewedVerse_leading_run_witness :
  let offsets : gmap Z Z := <[1 := 10]> (<[2 := 50]> (<[3 := 500]> ∅)) in
  Spec.monotone offsets
  /\ ReadScreen.getLastViewedVerse offsets 0 0 = Some 2
  /\ (Spec.qualifies offsets 68 2
      /\ forall v, Spec.qualifies offsets 68 v -> v <= 2).
Proof.
  set (offsets := <[1 := 10]> (<[2 := 50]> (<[3 := 500]> ∅)) : gmap Z Z).
  assert (Hmono : Spec.monotone offsets).
  { intros u v ou ov Hu Hv Hle. unfold offsets in *.
    repeat (rewrite lookup_insert in Hu; case_decide; simplify_eq);
    repeat (rewrite lookup_insert in Hv; case_decide; simplify_eq);
    try lia; rewrite ?lookup_empty in *; try discriminate. }
  split; [exact Hmono|]. split; [reflexivity|].
  destruct (getLastViewedVerse_leading_run offsets 0 0) as (_ & _ & H).
  destruct (H Hmono 2 eq_refl) as [Hq | [_ Hn]]; [exact Hq|].
  exfalso. apply (Hn 1). exists 10. split; [reflexivity | lia].
Defined.

(** ** contexts/QuranAudioContext.tsx *)

Section AudioContextFacts.

Import AudioService AudioContext Spec.

Variable sound_rejects : SoundCommand -> option Thrown.
Variable loadSurahAudio : Z -> Async World unit.

(** A status event at or past the boundary: pause, "paused", and both
    the single-verse mode and the boundary are cleared. *)
Lemma status_update_at_boundary (w : World) (closure : SoundClosure)
  (e : Z) (st : LoadedStatus) :
  soundRef w = Some closure ->
  singleVerseEndTimeRef w = Some e ->
  e <= positionMillis st ->
  let w' := status_update (Loaded st) w in
  playbackState w' = paused
  /\ isSingleVerseMode w' = false
  /\ singleVerseEndTimeRef w' = None
  /\ sound_commands w' = sound_commands w ++ [PauseAsync].
Proof.
  intros Hsound Href Hpos. unfold status_update. rewrite Hsound.
  unfold onPlaybackStatusUpdate.
  assert (Hkeep : forall p,
    singleVerseEndTimeRef
      (if isPlaying st then setPlaybackState playing p
       else if (positionMillis st >? 0) && negb (didJustFinish st)
            then setPlaybackState paused p else p)
    = singleVerseEndTimeRef p).
  { intros p. destruct (isPlaying st); [reflexivity|].
    destruct ((positionMillis st >? 0) && negb (didJustFinish st));
      reflexivity. }
  assert (Hcmds : forall p,
    sound_commands
      (if isPlaying st then setPlaybackState playing p
       else if (positionMillis st >? 0) && negb (didJustFinish st)
            then setPlaybackState paused p else p)
    = sound_commands p).
  { intros p. destruct (isPlaying st); [reflexivity|].
    destruct ((positionMillis st >? 0) && negb (didJustFinish st));
      reflexivity. }
  cbv zeta. rewrite Hkeep. cbn [setTimes singleVerseEndTimeRef].
  rewrite Href. replace (positionMillis st >=? e) with true by lia.
  match goal with
  | |- context [if ?c then _ else _] =>
      match c with
      | (isPlaying st && _) => destruct c
      end
  end.
  - destruct (findCurrentVerseTiming _ _) as [timing|];
      [destruct (same_key _ _)|]; cbn; rewrite Hcmds; auto.
  - cbn. rewrite Hcmds. auto.
Qed.

(** A status event before the boundary leaves the boundary, the mode,
    the sound and the commands sent as they are. *)
Lemma status_update_before_boundary (w : World) (closure : SoundClosure)
  (e : Z) (status : PlaybackStatus) :
  soundRef w = Some closure ->
  singleVerseEndTimeRef w = Some e ->
  before_boundary e status ->
  let w' := status_update status w in
  soundRef w' = Some closure
  /\ singleVerseEndTimeRef w' = Some e
  /\ isSingleVerseMode w' = isSingleVerseMode w
  /\ sound_commands w' = sound_commands w.
Proof.
  intros Hsound Href Hpos. unfold status_update. rewrite Hsound.
  destruct status as [|st]; [simpl; auto|].
  simpl in Hpos. unfold onPlaybackStatusUpdate. cbv zeta.
  set (w1 := if isPlaying st then _ else _).
  assert (H1 : soundRef w1 = Some closure
               /\ singleVerseEndTimeRef w1 = Some e
               /\ isSingleVerseMode w1 = isSingleVerseMode w
               /\ sound_commands w1 = sound_commands w).
  { unfold w1. destruct (isPlaying st); [cbn; auto|].
    destruct ((positionMillis st >? 0) && negb (didJustFinish st));
      cbn; auto. }
  destruct H1 as (Ha & Hb & Hc & Hd). rewrite Hb.
  replace (positionMillis st >=? e) with false by lia.
  destruct (isPlaying st && _); [|auto].
  destruct (findCurrentVerseTiming _ _) as [timing|];
    [destruct (same_key _ _)|]; cbn; auto.
Qed.

Lemma status_updates_before_boundary (events : list PlaybackStatus)
  (w : World) (closure : SoundClosure) (e : Z) :
  soundRef w = Some closure ->
  singleVerseEndTimeRef w = Some e ->
  Forall (before_boundary e) events ->
  let w' := status_updates events w in
  soundRef w' = Some closure
  /\ singleVerseEndTimeRef w' = Some e
  /\ isSingleVerseMode w' = isSingleVerseMode w
  /\ sound_commands w' = sound_commands w.
Proof.
  intros Hsound Href Hall. revert w Hsound Href.
  induction Hall as [|status events Hs _ IH]; intros w Hsound Href.
  - simpl. auto.
  - destruct (status_update_before_boundary w closure e status
                Hsound Href Hs) as (Ha & Hb & Hc & Hd).
    destruct (IH _ Ha Hb) as (Ha' & Hb' & Hc' & Hd').
    simpl. unfold status_updates in *. cbv zeta in *.
    rewrite Ha', Hb', Hc', Hd'. auto.
Qed.

(** The play path of [playVerse]: the surah is loaded, the verse has a
    timing and the player accepts the calls. *)
Lemma playVerse_sets_boundary (surahId verseNumber : Z) (w : World)
  (timing : VerseTiming) :
  currentChapterId w = Some surahId ->
  falsy_str (audioUrl w) = false ->
  getVerseTimingByNumber surahId verseNumber (verseTimings w) = Some timing ->
  sound_rejects (SetPositionAsync (timestamp_from timing)) = None ->
  sound_rejects PlayAsync = None ->
  exists w',
    playVerse sound_rejects loadSurahAudio surahId verseNumber w
    = (w', Returns tt)
    /\ (exists closure, soundRef w' = Some closure)
    /\ singleVerseEndTimeRef w' = Some (timestamp_to timing)
    /\ isSingleVerseMode w' = true
    /\ playbackState w' = playing.
Proof.
  intros Hch Hurl Ht Hpos Hplay.
  unfold playVerse, bind, ensureSound, modify, read, clearVerseEndBoundary,
    try_finally, try_catch, await_sound.
  destruct (soundRef w) as [c|] eqn:Hs; cbn -[getVerseTimingByNumber];
    rewrite Hch, Z.eqb_refl, Hurl; cbn -[getVerseTimingByNumber];
    rewrite Ht; cbn; rewrite Hpos, Hplay; cbn; eexists;
    (split; [reflexivity|]); cbn; eauto 10.
Qed.

(** A status event keeps the sound object. *)
Lemma status_update_keeps_sound (status : PlaybackStatus) (w : World) :
  soundRef (status_update status w) = soundRef w.
Proof.
  unfold status_update.
  destruct (soundRef w) as [closure|] eqn:Hs; [|exact Hs].
  destruct status as [|st]; [exact Hs|].
  unfold onPlaybackStatusUpdate. cbv zeta.
  repeat match goal with
         | |- context [match ?x with _ => _ end] => destruct x
         end; exact Hs.
Qed.

(** A status event that finds the boundary cleared sends nothing and
    leaves the mode and the boundary as they are; the playback state is
    "playing" when the event reports that the sound is playing. *)
Lemma status_update_cleared (w : World) (closure : SoundClosure)
  (status : PlaybackStatus) :
  soundRef w = Some closure ->
  singleVerseEndTimeRef w = None ->
  let w' := status_update status w in
  sound_commands w' = sound_commands w
  /\ singleVerseEndTimeRef w' = None
  /\ isSingleVerseMode w' = isSingleVerseMode w
  /\ match status with
     | Loaded st' =>
         playbackState w'
         = if isPlaying st' then playing
           else if (positionMillis st' >? 0) && negb (didJustFinish st')
                then paused else playbackState w
     | NotLoaded => playbackState w' = playbackState w
     end.
Proof.
  intros Hsound Href. unfold status_update. rewrite Hsound.
  destruct status as [|st']; [simpl; auto|].
  unfold onPlaybackStatusUpdate. cbv zeta.
  destruct (isPlaying st');
    [|destruct ((positionMillis st' >? 0) && negb (didJustFinish st'))];
    cbn [setTimes setPlaybackState singleVerseEndTimeRef];
    rewrite Href;
    repeat match goal with
           | |- context [match ?x with _ => _ end] => destruct x
           end;
    cbn; rewrite ?Href; auto.
Qed.

(** C5 (as amended): in single-verse mode playback is stopped at the
    verse's end by the first status event that reaches it. After
    [playVerse] has set the boundary to the verse's [timestamp_to] (on
    its play path: the surah is loaded, the verse has a timing, the
    player accepts the calls), and whatever status events below the
    boundary come first, the first status event whose position is at or
    past the boundary pauses the sound, sets the playback state to
    "paused" and clears the single-verse mode and the boundary. A status
    event that comes after that one finds the boundary cleared: wherever
    its position is, it sends no pause, and when it reports that the
    sound is playing it sets the playback state to "playing". *)
Theorem single_verse_stops_at_boundary (surahId verseNumber : Z) (w : World)
  (timing : VerseTiming) (early : list PlaybackStatus) (st : LoadedStatus) :
  currentChapterId w = Some surahId ->
  falsy_str (audioUrl w) = false ->
  getVerseTimingByNumber surahId verseNumber (verseTimings w) = Some timing ->
  sound_rejects (SetPositionAsync (timestamp_from timing)) = None ->
  sound_rejects PlayAsync = None ->
  Forall (before_boundary (timestamp_to timing)) early ->
  timestamp_to timing <= positionMillis st ->
  let played :=
    fst (playVerse sound_rejects loadSurahAudio surahId verseNumber w) in
  let before := status_updates early played in
  let after := status_update (Loaded st) before in
  singleVerseEndTimeRef played = Some (timestamp_to timing)
  /\ isSingleVerseMode played = true
  /\ singleVerseEndTimeRef before = Some (timestamp_to timing)
  /\ isSingleVerseMode before = true
  /\ sound_commands before = sound_commands played
  /\ sound_commands after = sound_commands before ++ [PauseAsync]
  /\ playbackState after = paused
  /\ isSingleVerseMode after = false
  /\ singleVerseEndTimeRef after = None
  /\ forall next : LoadedStatus,
       let final := status_update (Loaded next) after in
       sound_commands final = sound_commands after
       /\ singleVerseEndTimeRef final = None
       /\ isSingleVerseMode final = false
       /\ (isPlaying next = true -> playbackState final = playing).
Proof.
  intros Hch Hurl Ht Hpos Hplay Hearly Hst played before after.
  destruct (playVerse_sets_boundary surahId verseNumber w timing
              Hch Hurl Ht Hpos Hplay)
    as (w1 & Hrun & [closure Hsound] & Href & Hmode & _).
  assert (Hw1 : played = w1) by (unfold played; now rewrite Hrun).
  rewrite <- Hw1 in Hsound, Href, Hmode.
  destruct (status_updates_before_boundary early played closure _
              Hsound Href Hearly) as (Ha & Hb & Hc & Hd).
  fold before in Ha, Hb, Hc, Hd.
  destruct (status_update_at_boundary before closure _ st Ha Hb Hst)
    as (Hp & Hm & Hr & Hcmd).
  fold after in Hp, Hm, Hr, Hcmd.
  assert (Hsound' : soundRef after = Some closure).
  { unfold after. now rewrite status_update_keeps_sound. }
  repeat match goal with |- _ /\ _ => split end; try assumption.
  - congruence.
  - intros next final.
    destruct (status_update_cleared after closure (Loaded next) Hsound' Hr)
      as (Hn1 & Hn2 & Hn3 & Hn4).
    fold final in Hn1, Hn2, Hn3, Hn4.
    repeat split; try assumption.
    + congruence.
    + intros Hplaying. now rewrite Hn4, Hplaying.
Qed.

End AudioContextFacts.

(** A run of C5: verse 1:2 is played alone; status events at 4100 ms and
    8990 ms pass, the one at 9010 ms pauses, and the one at 9020 ms
    sends nothing more. *)
Lemma single_verse_stops_at_boundary_witness :
  let played :=
    fst (AudioContext.playVerse (fun _ => None) (fun _ => ret tt) 1 2
           Samples.loaded_world) in
  let before :=
    Spec.status_updates
      [AudioContext.Loaded (Samples.status_at 4100); AudioContext.NotLoaded;
       AudioContext.Loaded (Samples.status_at 8990)] played in
  let after :=
    AudioContext.status_update
      (AudioContext.Loaded (Samples.status_at 9010)) before in
  let final :=
    AudioContext.status_update
      (AudioContext.Loaded (Samples.status_at 9020)) after in
  AudioContext.singleVerseEndTimeRef played = Some 9000
  /\ AudioContext.isSingleVerseMode played = true
  /\ AudioContext.singleVerseEndTimeRef before = Some 9000
  /\ AudioContext.isSingleVerseMode before = true
  /\ AudioContext.sound_commands before = AudioContext.sound_commands played
  /\ AudioContext.sound_commands after
     = AudioContext.sound_commands before ++ [AudioContext.PauseAsync]
  /\ AudioContext.playbackState after = AudioContext.paused
  /\ AudioContext.isSingleVerseMode after = false
  /\ AudioContext.singleVerseEndTimeRef after = None
  /\ AudioContext.sound_commands final = AudioContext.sound_commands after
  /\ AudioContext.singleVerseEndTimeRef final = None
  /\ AudioContext.isSingleVerseMode final = false
  /\ AudioContext.playbackState final = AudioContext.playing.
Proof.
  intros played before after final.
  destruct (single_verse_stops_at_boundary (fun _ => None) (fun _ => ret tt)
              1 2 Samples.loaded_world Samples.timing_1_2
              [AudioContext.Loaded (Samples.status_at 4100);
               AudioContext.NotLoaded;
               AudioContext.Loaded (Samples.status_at 8990)]
              (Samples.status_at 9010))
    as (H1 & H2 & H3 & H4 & H5 & H6 & H7 & H8 & H9 & Hnext).
  - reflexivity.
  - reflexivity.
  - reflexivity.
  - reflexivity.
  - reflexivity.
  - repeat constructor; simpl; lia.
  - simpl. lia.
  - destruct (Hnext (Samples.status_at 9020)) as (N1 & N2 & N3 & N4).
    repeat match goal with |- _ /\ _ => split end;
      first [ assumption | exact (N4 eq_refl) ].
Defined.

(** C5 (as stated) fails: verse 1:2 is played alone and the status event
    at 9010 ms has paused the sound and cleared the boundary; the next
    status event, at 9020 ms and still reporting that the sound plays,
    is past the boundary as well, yet it sends no pause and sets the
    playback state to "playing". *)
Lemma second_update_past_boundary_does_not_pause :
  let played :=
    fst (AudioContext.playVerse (fun _ => None) (fun _ => ret tt) 1 2
           Samples.loaded_world) in
  let after :=
    AudioContext.status_update
      (AudioContext.Loaded (Samples.status_at 9010)) played in
  let final :=
    AudioContext.status_update
      (AudioContext.Loaded (Samples.status_at 9020)) after in
  AudioContext.singleVerseEndTimeRef played = Some 9000
  /\ 9000 <= AudioContext.positionMillis (Samples.status_at 9020)
  /\ AudioContext.sound_commands after
     = [AudioContext.SetPositionAsync 4000; AudioContext.PlayAsync;
        AudioContext.PauseAsync]
  /\ AudioContext.sound_commands final = AudioContext.sound_commands after
  /\ AudioContext.playbackState final = AudioContext.playing.
Proof.
  intros played after final. repeat split; try reflexivity.
  simpl. lia.
Qed.

(** ** hooks/useBookmarks.ts *)

Section BookmarksFacts.

Import Bookmarks Spec.

Variable getUser : option User.
Variable now : Z.
Variable nowISO : string.
Variable insert_verse_bookmark : InsertRow -> Outcome (option DbError).
Variable delete_verse_bookmark : string -> Z -> Z -> Outcome (option DbError).
Variable select_verse_bookmarks
  : string -> option (list Bookmark) * option DbError.
Variable select_thematic_bookmarks
  : string -> option (list ThematicBookmark) * option DbError.



(** The refresh and an alert do not touch the same cells. *)
Lemma fetchBookmarks_toast (signedIn : option User) (t : Toast)
  (w : World) :
  fetchBookmarks signedIn select_verse_bookmarks select_thematic_bookmarks
    (toast t w)
  = toast t (fetchBookmarks signedIn select_verse_bookmarks
               select_thematic_bookmarks w).
Proof.
  unfold fetchBookmarks. destruct signedIn as [user|]; [|reflexivity].
  destruct (select_verse_bookmarks (user_id user)) as [verseData [e|]];
    [reflexivity|].
  destruct (select_thematic_bookmarks (user_id user))
    as [thematicData [e|]]; reflexivity.
Qed.

(** A call run from start to end is its two halves with nothing in
    between, followed by the refresh when one was started. *)
Lemma addBookmark_in_phases (surahNumber verseNumber : Z)
  (note : option string) (w : World) :
  addBookmark getUser now nowISO insert_verse_bookmark
    select_verse_bookmarks select_thematic_bookmarks
    surahNumber verseNumber note w
  = match addBookmark_begin getUser now nowISO surahNumber verseNumber
            note w with
    | (w1, None) => w1
    | (w1, Some p) =>
        match addBookmark_settle p
                (insert_verse_bookmark (inserted_row p)) w1 with
        | (w2, true) =>
            fetchBookmarks getUser select_verse_bookmarks
              select_thematic_bookmarks w2
        | (w2, false) => w2
        end
    end.
Proof.
  unfold addBookmark, addBookmark_begin, addBookmark_settle.
  destruct getUser as [user|]; [|reflexivity]. cbn [inserted_row].
  destruct (insert_verse_bookmark _) as [[err|]|t]; try reflexivity.
  symmetry. apply fetchBookmarks_toast.
Qed.

Lemma removeBookmark_in_phases (surahNumber verseNumber : Z) (w : World) :
  removeBookmark getUser delete_verse_bookmark surahNumber verseNumber w
  = match removeBookmark_begin getUser surahNumber verseNumber w with
    | (w1, None) => w1
    | (w1, Some previousBookmarks) =>
        match getUser with
        | Some user =>
            removeBookmark_settle surahNumber verseNumber previousBookmarks
              (delete_verse_bookmark (user_id user) surahNumber verseNumber)
              w1
        | None => w1
        end
    end.
Proof.
  unfold removeBookmark, removeBookmark_begin, removeBookmark_settle.
  destruct getUser as [user|]; [|reflexivity].
  destruct (delete_verse_bookmark _ _ _) as [[err|]|t]; reflexivity.
Qed.


End BookmarksFacts.



(** ** A relation kept by every step of an asynchronous computation *)

Section Respects.

Import Notions.

Context {S : Type} (R : S -> S -> Prop).
Hypothesis R_refl : forall s, R s s.
Hypothesis R_trans : forall s1 s2 s3, R s1 s2 -> R s2 s3 -> R s1 s3.

Lemma respects_ret {A} (a : A) : respects R (ret a).
Proof. intros s. apply R_refl. Qed.

Lemma respects_throw {A} (t : Thrown) : respects R (@throw S A t).
Proof. intros s. apply R_refl. Qed.

Lemma respects_lift {A} (o : Outcome A) : respects R (lift o).
Proof. intros s. apply R_refl. Qed.

Lemma respects_modify (f : S -> S) :
  (forall s, R s (f s)) -> respects R (modify f).
Proof. intros H s. apply H. Qed.

Lemma respects_bind {A B} (m : Async S A) (k : A -> Async S B) :
  respects R m -> (forall a, respects R (k a)) -> respects R (bind m k).
Proof.
  intros Hm Hk s. unfold bind. specialize (Hm s).
  destruct (m s) as [s' [a|t]]; simpl in *; [|exact Hm].
  eapply R_trans; [exact Hm | apply Hk].
Qed.

Lemma respects_try_catch {A} (m : Async S A) (h : Thrown -> Async S A) :
  respects R m -> (forall t, respects R (h t)) ->
  respects R (try_catch m h).
Proof.
  intros Hm Hh s. unfold try_catch. specialize (Hm s).
  destruct (m s) as [s' [a|t]]; simpl in *; [exact Hm|].
  eapply R_trans; [exact Hm | apply Hh].
Qed.

Lemma respects_try_finally {A} (m : Async S A) (f : Async S unit) :
  respects R m -> respects R f -> respects R (try_finally m f).
Proof.
  intros Hm Hf s. unfold try_finally. specialize (Hm s).
  destruct (m s) as [s' o]. specialize (Hf s').
  destruct (f s') as [s'' [[]|t]]; simpl in *; eapply R_trans; eauto.
Qed.

End Respects.

(** ** hooks/useStripeSubscription.ts: the check *)

Section SubscriptionCheckFacts.

Import StripeSubscription Spec Notions.

Variable storage_rejects : StorageOp -> option Thrown.
Variable JSON_stringify : Json -> string.

Lemma default_bundle_implies_parts :
  bundle_implies_parts DEFAULT_SUBSCRIPTIONS.
Proof. intros H. discriminate. Qed.

Lemma apply_plan_bundle_implies_parts (sub : ApiSubscription)
  (s : StripeSubscriptions) (plan : SubscriptionPlan) :
  bundle_implies_parts s -> bundle_implies_parts (apply_plan sub s plan).
Proof.
  unfold apply_plan, set_product, bundle_implies_parts.
  intros Hs. destruct (stripe_product_id plan) as [pid|]; [|exact Hs].
  destruct (String.eqb pid (product_id sub)); [|exact Hs].
  destruct (String.eqb (product_type plan) "read") eqn:Er.
  - apply String.eqb_eq in Er. rewrite Er. simpl. intros Hb.
    split; [reflexivity | now apply Hs].
  - destruct (String.eqb (product_type plan) "audiobook") eqn:Ea.
    + apply String.eqb_eq in Ea. rewrite Ea. simpl. intros Hb.
      split; [now apply Hs | reflexivity].
    + destruct (String.eqb (product_type plan) "bundle"); simpl; auto.
Qed.

(** Right after a bundle plan is applied the three entries are equal:
    subscribed, with the subscription's end date. *)
Lemma apply_plan_bundle (sub : ApiSubscription) (s : StripeSubscriptions)
  (plan : SubscriptionPlan) :
  stripe_product_id plan = Some (product_id sub) ->
  product_type plan = "bundle" ->
  let s' := apply_plan sub s plan in
  let value := {| subscribed := true;
                  subscription_end := api_subscription_end sub |} in
  bundle s' = value /\ read s' = value /\ audiobook s' = value.
Proof.
  intros Hid Hty. unfold apply_plan, set_product.
  rewrite Hid, String.eqb_refl, Hty. simpl. auto.
Qed.

Lemma apply_subscription_bundle_implies_parts (plans : list SubscriptionPlan)
  (s : StripeSubscriptions) (sub : ApiSubscription) :
  bundle_implies_parts s ->
  bundle_implies_parts (apply_subscription plans s sub).
Proof.
  unfold apply_subscription. destruct (is_canceled sub); [auto|].
  revert s. induction plans as [|plan plans IH]; intros s Hs; simpl.
  - exact Hs.
  - apply IH. now apply apply_plan_bundle_implies_parts.
Qed.

Lemma compute_subscriptions_bundle_implies_parts
  (plans : list SubscriptionPlan) (subs : option (list ApiSubscription)) :
  bundle_implies_parts (compute_subscriptions plans subs).
Proof.
  unfold compute_subscriptions.
  destruct subs as [subs|]; [|apply default_bundle_implies_parts].
  generalize default_bundle_implies_parts.
  generalize DEFAULT_SUBSCRIPTIONS as s.
  induction subs as [|sub subs IH]; intros s Hs; simpl.
  - exact Hs.
  - apply IH. now apply apply_subscription_bundle_implies_parts.
Qed.

Lemma kept_or_good_refl (w : World) : kept_or_good w w.
Proof. now left. Qed.

Lemma kept_or_good_trans (w1 w2 w3 : World) :
  kept_or_good w1 w2 -> kept_or_good w2 w3 -> kept_or_good w1 w3.
Proof.
  unfold kept_or_good. intros [H12|H12] [H23|H23]; auto.
  - left. congruence.
  - right. now rewrite H23.
Qed.

Lemma reset_to_default_kept_or_good (w : World) :
  kept_or_good w (reset_to_default w).
Proof. right. apply default_bundle_implies_parts. Qed.

Lemma on_store_respects {A} (R : World -> World -> Prop)
  (m : Async (gmap string string) A) :
  (forall w st, R w (setStore st w)) -> respects R (on_store m).
Proof.
  intros H w. unfold on_store. destruct (m (store w)) as [st o]. apply H.
Qed.

Ltac respects_step :=
  match goal with
  | |- forall _, respects _ _ => intro
  | |- respects _ (ret _) => apply respects_ret
  | |- respects _ (throw _) => apply respects_throw
  | |- respects _ (lift _) => apply respects_lift
  | |- respects _ (try_finally _ _) => apply respects_try_finally
  | |- respects _ (try_catch _ _) => apply respects_try_catch
  | |- respects _ (bind _ _) => apply respects_bind
  | |- respects _ (modify _) => apply respects_modify
  | |- respects _ (on_store _) => apply on_store_respects
  | |- respects _ (if ?c then _ else _) => destruct c
  | |- respects _ (match ?x with _ => _ end) => destruct x
  end.

Lemma performCheck_settle_kept_or_good (env : CheckEnv) (pc : PendingCheck) :
  respects kept_or_good (performCheck_settle storage_rejects JSON_stringify
                           env pc).
Proof.
  pose proof kept_or_good_refl as Hrefl.
  pose proof kept_or_good_trans as Htrans.
  pose proof reset_to_default_kept_or_good as Hreset.
  unfold performCheck_settle.
  repeat (first
    [ respects_step; try assumption
    | match goal with
      | |- forall _ _, kept_or_good _ _ => intros
      | |- forall _, kept_or_good _ _ => intros
      | |- kept_or_good ?w (setSubscriptions _ ?w) =>
          right; apply compute_subscriptions_bundle_implies_parts
      | |- kept_or_good _ _ => left; reflexivity
      end ]).
Qed.

(** C8 (as amended): every subscriptions value that a check writes
    satisfies bundle-implies-parts: if [bundle.subscribed] is true then
    [read.subscribed] and [audiobook.subscribed] are true, so
    [hasBundleAccess] implies [hasReadAccess] and [hasAudiobookAccess].
    Right after a bundle plan has been applied, the read and audiobook
    entries carry the bundle's [subscription_end]; a read or audiobook
    plan that is applied overwrites the entry of its product alone. *)
Theorem bundle_access_implies_parts :
  (forall plans subs,
     bundle_implies_parts (compute_subscriptions plans subs))
  /\ (forall e w,
        let w' := step storage_rejects JSON_stringify e w in
        subscriptions w' = subscriptions w
        \/ bundle_implies_parts (subscriptions w'))
  /\ (forall s,
        bundle_implies_parts s ->
        hasBundleAccess s = true ->
        subscribed (read s) = true /\ subscribed (audiobook s) = true
        /\ hasReadAccess s = true /\ hasAudiobookAccess s = true)
  /\ (forall sub s plan,
        stripe_product_id plan = Some (product_id sub) ->
        product_type plan = "bundle" ->
        let s' := apply_plan sub s plan in
        subscribed (bundle s') = true
        /\ read s' = bundle s' /\ audiobook s' = bundle s')
  /\ (forall sub s plan,
        stripe_product_id plan = Some (product_id sub) ->
        let s' := apply_plan sub s plan in
        let value := {| subscribed := true;
                        subscription_end := api_subscription_end sub |} in
        (product_type plan = "read" ->
         read s' = value /\ audiobook s' = audiobook s
         /\ bundle s' = bundle s)
        /\ (product_type plan = "audiobook" ->
            audiobook s' = value /\ read s' = read s
            /\ bundle s' = bundle s)).
Proof.
  split; [|split; [|split; [|split]]].
  - apply compute_subscriptions_bundle_implies_parts.
  - intros [user session plans silent force | p env] w; simpl.
    + unfold checkSubscription, start_check.
      destruct user as [u|];
        [|right; apply default_bundle_implies_parts].
      destruct (no_token session);
        [right; apply default_bundle_implies_parts|].
      destruct (inFlightRequestRef w) as [p|];
        [destruct (negb force)|]; simpl;
        try (left; reflexivity);
        destruct (negb silent && negb (hasCompletedInitialCheckRef w));
        left; reflexivity.
    + unfold settle. destruct (List.find _ _) as [pc|]; [|now left].
      apply (performCheck_settle_kept_or_good env pc
               (setPending _ (next_promise w) w)).
  - intros s Hs Hb. unfold hasBundleAccess in Hb.
    destruct (Hs Hb) as [Hr Ha]. unfold hasReadAccess, hasAudiobookAccess.
    rewrite Hr, Ha. auto.
  - intros sub s plan Hid Hty s'.
    destruct (apply_plan_bundle sub s plan Hid Hty) as (Hb & Hr & Ha).
    fold s' in Hb, Hr, Ha. rewrite Hb, Hr, Ha. auto.
  - intros sub s plan Hid s' value. unfold s', apply_plan, set_product.
    rewrite Hid, String.eqb_refl.
    split; intros Hty; rewrite Hty; simpl; auto.
Qed.

(** *** The in-flight slot *)

Lemma performCheck_settle_same_pending (env : CheckEnv) (pc : PendingCheck) :
  respects same_pending (performCheck_settle storage_rejects JSON_stringify
                           env pc).
Proof.
  assert (Hrefl : forall w, same_pending w w) by reflexivity.
  assert (Htrans : forall w1 w2 w3,
             same_pending w1 w2 -> same_pending w2 w3 -> same_pending w1 w3)
    by (unfold same_pending; congruence).
  unfold performCheck_settle.
  repeat (first
    [ respects_step; try assumption
    | match goal with
      | |- forall _ _, same_pending _ _ => intros
      | |- forall _, same_pending _ _ => intros
      | |- same_pending _ _ => reflexivity
      end ]).
Qed.

Lemma performCheck_settle_clears_slot (env : CheckEnv) (pc : PendingCheck)
  (w : World) :
  inFlightRequestRef
    (fst (performCheck_settle storage_rejects JSON_stringify env pc w))
  = None.
Proof.
  unfold performCheck_settle, try_finally.
  destruct (try_catch _ _ w) as [w' o]. reflexivity.
Qed.

(** The only running check settles: nothing runs and the slot is
    empty. *)
Lemma settle_running (p : nat) (env : CheckEnv) (w : World)
  (pc : PendingCheck) :
  pending w = [pc] -> promise pc = p ->
  let w' := settle storage_rejects JSON_stringify p env w in
  pending w' = [] /\ inFlightRequestRef w' = None.
Proof.
  intros Hp Hpc. unfold settle. rewrite Hp. simpl.
  rewrite Hpc, Nat.eqb_refl. simpl. split.
  - rewrite (performCheck_settle_same_pending env pc). reflexivity.
  - apply performCheck_settle_clears_slot.
Qed.

(** A promise that is not running settles nothing. *)
Lemma settle_not_running (p : nat) (env : CheckEnv) (w : World) :
  p ∉ map promise (pending w) ->
  settle storage_rejects JSON_stringify p env w = w.
Proof.
  intros Hp. unfold settle.
  destruct (List.find _ _) as [pc|] eqn:Hf; [|reflexivity].
  exfalso. apply find_some in Hf as [Hin Heq].
  apply Nat.eqb_eq in Heq. apply Hp. rewrite <- Heq.
  apply list_elem_of_In, in_map, Hin.
Qed.

Lemma slot_tracks_some (w : World) (p : nat) :
  slot_tracks w -> inFlightRequestRef w = Some p ->
  exists pc, pending w = [pc] /\ promise pc = p.
Proof.
  unfold slot_tracks. intros H Hs. rewrite Hs in H.
  destruct (pending w) as [|pc [|pc' l]]; try discriminate.
  exists pc. split; [reflexivity | now injection H].
Qed.

Lemma slot_tracks_none (w : World) :
  slot_tracks w -> inFlightRequestRef w = None -> pending w = [].
Proof.
  unfold slot_tracks. intros H Hs. rewrite Hs in H.
  now destruct (pending w).
Qed.

Lemma step_slot_tracks (e : Event) (w : World) :
  slot_tracks w -> unforced e ->
  slot_tracks (step storage_rejects JSON_stringify e w).
Proof.
  intros Hw He. destruct e as [user session plans silent force | p env];
    simpl in *.
  - subst force. unfold checkSubscription, start_check.
    destruct user as [u|]; [|exact Hw].
    destruct (no_token session); [exact Hw|].
    destruct (inFlightRequestRef w) as [p|] eqn:Hs; [exact Hw|].
    apply slot_tracks_none in Hw; [|exact Hs].
    unfold slot_tracks.
    destruct (negb silent && negb (hasCompletedInitialCheckRef w));
      simpl; rewrite Hw; reflexivity.
  - destruct (inFlightRequestRef w) as [q|] eqn:Hs.
    + destruct (slot_tracks_some w q Hw Hs) as (pc & Hp & Hpc).
      destruct (Nat.eq_dec p q) as [->|Hne].
      * destruct (settle_running q env w pc Hp Hpc) as [Hp' Hs'].
        unfold slot_tracks. now rewrite Hp', Hs'.
      * rewrite settle_not_running; [exact Hw|].
        rewrite Hp. simpl. rewrite Hpc.
        now rewrite list_elem_of_singleton.
    + rewrite settle_not_running; [exact Hw|].
      rewrite (slot_tracks_none w Hw Hs). apply not_elem_of_nil.
Qed.

Lemma run_slot_tracks (events : list Event) (w : World) :
  slot_tracks w -> Forall unforced events ->
  slot_tracks (run storage_rejects JSON_stringify events w).
Proof.
  intros Hw Hall. revert w Hw.
  induction Hall as [|e events He _ IH]; intros w Hw; simpl.
  - exact Hw.
  - apply IH. now apply step_slot_tracks.
Qed.

Lemma step_slot_cleared (e : Event) (w : World) (p : nat) :
  slot_tracks w -> unforced e -> inFlightRequestRef w = Some p ->
  let w' := step storage_rejects JSON_stringify e w in
  (inFlightRequestRef w' = None <-> exists env, e = Settle p env)
  /\ (inFlightRequestRef w' = None \/ inFlightRequestRef w' = Some p).
Proof.
  intros Hw He Hs.
  destruct (slot_tracks_some w p Hw Hs) as (pc & Hp & Hpc).
  destruct e as [user session plans silent force | q env]; simpl in *.
  - subst force. unfold checkSubscription.
    assert (Hkeep : inFlightRequestRef
                      (fst (if no_token session
                            then (setHasCompletedInitialCheckRef true
                                    (reset_to_default w), ReturnedEarly)
                            else (w, Joined p))) = Some p)
      by (destruct (no_token session); exact Hs).
    destruct user as [u|]; rewrite ?Hs; simpl.
    + rewrite Hkeep. split; [|now right].
      split; [discriminate | intros [env Henv]; discriminate].
    + rewrite Hs. split; [|now right].
      split; [discriminate | intros [env Henv]; discriminate].
  - destruct (Nat.eq_dec q p) as [->|Hne].
    + destruct (settle_running p env w pc Hp Hpc) as [_ Hs'].
      rewrite Hs'. split; [|now left]. split; eauto.
    + rewrite settle_not_running;
        [|rewrite Hp; simpl; rewrite Hpc; now rewrite list_elem_of_singleton].
      rewrite Hs. split; [|now right].
      split; [discriminate | intros [env' Henv]; congruence].
Qed.

(** C7 (as amended): in every execution in which no call is forced, the
    in-flight slot names the running checks, so at most one check runs;
    a call of [checkSubscription] without [force], made with a user and
    a session token while a check is pending, returns the pending
    check's promise, starts nothing and changes nothing; and while a
    check is pending, the slot is cleared by a step exactly when that
    step is the completion of the running check. A call made without a
    user or a session token resets the subscriptions to the default and
    returns at once, starting nothing, whether or not a check is
    pending. *)
Theorem one_check_in_flight :
  (forall events w0 user session plans silent pc,
     slot_tracks w0 -> Forall unforced events ->
     let w := run storage_rejects JSON_stringify events w0 in
     In pc (pending w) ->
     no_token session = false ->
     checkSubscription (Some user) session plans silent false w
     = (w, Joined (promise pc)))
  /\ (forall events w,
        slot_tracks w -> Forall unforced events ->
        let w' := run storage_rejects JSON_stringify events w in
        slot_tracks w' /\ (length (pending w') <= 1)%nat)
  /\ (forall e w p,
        slot_tracks w -> unforced e -> inFlightRequestRef w = Some p ->
        let w' := step storage_rejects JSON_stringify e w in
        (inFlightRequestRef w' = None <-> exists env, e = Settle p env)
        /\ (inFlightRequestRef w' = None \/ inFlightRequestRef w' = Some p))
  /\ (forall w user session plans silent force,
        user = None \/ no_token session = true ->
        checkSubscription user session plans silent force w
        = (setHasCompletedInitialCheckRef true (reset_to_default w),
           ReturnedEarly)).
Proof.
  split; [|split; [|split]]; cycle 3.
  - intros w user session plans silent force Hout.
    unfold checkSubscription. destruct user as [u|]; [|reflexivity].
    destruct Hout as [Hu|Htok]; [discriminate|]. now rewrite Htok.
  - intros events w0 user session plans silent pc Hw0 Hall w Hin Htok.
    assert (Hw : slot_tracks w) by now apply run_slot_tracks.
    assert (Hs : inFlightRequestRef w = Some (promise pc)).
    { unfold slot_tracks in Hw.
      apply (in_map promise) in Hin. rewrite Hw in Hin.
      destruct (inFlightRequestRef w) as [q|]; simpl in Hin.
      - destruct Hin as [->|[]]. reflexivity.
      - destruct Hin. }
    unfold checkSubscription. now rewrite Htok, Hs.
  - intros events w Hw Hall w'.
    assert (Hw' : slot_tracks w') by now apply run_slot_tracks.
    split; [exact Hw'|].
    unfold slot_tracks in Hw'.
    apply (f_equal (@length nat)) in Hw'. rewrite length_map in Hw'.
    rewrite Hw'. destruct (inFlightRequestRef w'); simpl; lia.
  - intros e w p. apply step_slot_cleared.
Qed.

End SubscriptionCheckFacts.

(** C7 (as stated) fails: a check is pending and [checkSubscription] is
    called without [force] from a render that has lost its session; the
    call returns at once instead of returning the pending promise. *)
Lemma signed_out_call_does_not_join :
  let w :=
    fst (StripeSubscription.checkSubscription (Some Samples.subscriber)
           (Some Samples.signed_in) Samples.plans false false
           Samples.fresh_hook) in
  StripeSubscription.inFlightRequestRef w = Some 0%nat
  /\ snd (StripeSubscription.checkSubscription (Some Samples.subscriber)
            None Samples.plans false false w)
     = StripeSubscription.ReturnedEarly.
Proof. split; reflexivity. Qed.

(** A run of C7: a check starts, a second call joins it, the check
    settles; a call made while the check is pending joins it. *)
Lemma one_check_in_flight_witness :
  let events :=
    [StripeSubscription.Call (Some Samples.subscriber)
       (Some Samples.signed_in) Samples.plans false false;
     StripeSubscription.Call (Some Samples.subscriber)
       (Some Samples.signed_in) Samples.plans true false;
     StripeSubscription.Settle 0 Samples.answer] in
  let w' :=
    StripeSubscription.run (fun _ => None) Samples.print_json events
      Samples.fresh_hook in
  let started :=
    StripeSubscription.run (fun _ => None) Samples.print_json
      [StripeSubscription.Call (Some Samples.subscriber)
         (Some Samples.signed_in) Samples.plans false false]
      Samples.fresh_hook in
  (Spec.slot_tracks w'
   /\ (length (StripeSubscription.pending w') <= 1)%nat)
  /\ StripeSubscription.checkSubscription (Some Samples.subscriber)
       (Some Samples.signed_in) Samples.plans true false started
     = (started, StripeSubscription.Joined 0).
Proof.
  split.
  - apply (proj1 (proj2 (one_check_in_flight (fun _ => None)
                           Samples.print_json))).
    + reflexivity.
    + repeat constructor.
  - apply (proj1 (one_check_in_flight (fun _ => None) Samples.print_json)
             [StripeSubscription.Call (Some Samples.subscriber)
                (Some Samples.signed_in) Samples.plans false false]
             Samples.fresh_hook Samples.subscriber (Some Samples.signed_in)
             Samples.plans true
             {| StripeSubscription.promise := 0;
                StripeSubscription.currentUser := Samples.subscriber;
                StripeSubscription.currentPlans := Samples.plans |}).
    + reflexivity.
    + repeat constructor.
    + left. reflexivity.
    + reflexivity.
Defined.

(** With a forced call the slot does not follow the running checks: the
    first check settles and empties the slot while the forced one is
    still running, and the next call without [force] starts a third
    check instead of joining the pending one. *)
Lemma forced_check_outlives_slot :
  let events :=
    [StripeSubscription.Call (Some Samples.subscriber)
       (Some Samples.signed_in) Samples.plans false false;
     StripeSubscription.Call (Some Samples.subscriber)
       (Some Samples.signed_in) Samples.plans true true;
     StripeSubscription.Settle 0 Samples.answer] in
  let w' :=
    StripeSubscription.run (fun _ => None) Samples.print_json events
      Samples.fresh_hook in
  StripeSubscription.inFlightRequestRef w' = None
  /\ map StripeSubscription.promise (StripeSubscription.pending w')
     = [1%nat]
  /\ snd (StripeSubscription.checkSubscription (Some Samples.subscriber)
            (Some Samples.signed_in) Samples.plans true false w')
     = StripeSubscription.Started 2.
Proof. repeat split; reflexivity. Qed.

(** C8 (as stated) fails: the response lists a bundle subscription and
    then a read subscription that ends later; the bundle is subscribed
    and the read entry does not carry the bundle's end date. *)
Lemma bundle_then_read_end_dates_differ :
  let s :=
    StripeSubscription.compute_subscriptions Samples.plans
      (Some Samples.bundle_then_read) in
  StripeSubscription.subscribed (StripeSubscription.bundle s) = true
  /\ StripeSubscription.subscription_end (StripeSubscription.bundle s)
     = Some "2025-01-31T00:00:00Z"
  /\ StripeSubscription.subscription_end (StripeSubscription.read s)
     = Some "2026-06-30T00:00:00Z".
Proof. repeat split. Qed.

(** A run of C8 on a bundle subscriber. *)
Lemma bundle_access_implies_parts_witness :
  StripeSubscription.subscribed
    (StripeSubscription.read Samples.bundle_subscriber) = true
  /\ StripeSubscription.subscribed
       (StripeSubscription.audiobook Samples.bundle_subscriber) = true
  /\ StripeSubscription.hasReadAccess Samples.bundle_subscriber = true
  /\ StripeSubscription.hasAudiobookAccess Samples.bundle_subscriber = true.
Proof.
  apply (proj1 (proj2 (proj2 (bundle_access_implies_parts (fun _ => None)
                                Samples.print_json)))).
  - intros _. split; reflexivity.
  - reflexivity.
Defined.

(** ** Decimal text of integers *)

Section DecimalText.

Import Notions.

Lemma of_uint_acc_value (d : Decimal.uint) (acc : positive) :
  Z.pos (Pos.of_uint_acc d acc) = uint_value (Z.pos acc) d.
Proof.
  revert acc. induction d; intros acc; simpl; try reflexivity;
    rewrite IHd; f_equal; lia.
Qed.

Lemma of_uint_value (d : Decimal.uint) :
  Z.of_N (Pos.of_uint d) = uint_value 0 d.
Proof.
  induction d; simpl; try reflexivity; try exact IHd;
    apply of_uint_acc_value.
Qed.

Lemma to_uint_value (p : positive) : uint_value 0 (Pos.to_uint p) = Z.pos p.
Proof.
  rewrite <- of_uint_value, DecimalPos.Unsigned.of_to. reflexivity.
Qed.

Lemma parse_digits_text (d : Decimal.uint) (acc : option Z) :
  parse_digits acc (NilEmpty.string_of_uint d)
  = match d with
    | Decimal.Nil => acc
    | _ => Some (uint_value (match acc with Some a => a | None => 0 end) d)
    end.
Proof.
  revert acc. induction d; intros acc; try reflexivity;
    simpl NilEmpty.string_of_uint; cbn [parse_digits];
    match goal with
    | |- context [is_digit ?c] =>
        change (is_digit c) with true; cbv iota
    end;
    rewrite IHd; destruct d; reflexivity.
Qed.

Lemma parse_digits_to_uint (p : positive) :
  parse_digits None (NilEmpty.string_of_uint (Pos.to_uint p))
  = Some (Z.pos p).
Proof.
  rewrite parse_digits_text.
  pose proof (DecimalPos.Unsigned.to_uint_nonnil p) as Hnil.
  pose proof (to_uint_value p) as Hval.
  destruct (Pos.to_uint p); [contradiction|..]; now rewrite <- Hval.
Qed.

(** The decimal text of a positive number starts with a digit. *)
Lemma to_uint_text_head (p : positive) :
  exists c rest,
    NilEmpty.string_of_uint (Pos.to_uint p) = String c rest
    /\ is_digit c = true.
Proof.
  pose proof (DecimalPos.Unsigned.to_uint_nonnil p) as Hnil.
  destruct (Pos.to_uint p); [contradiction|..]; simpl; eauto.
Qed.

Lemma String_of_Z_pos (p : positive) :
  String_of_Z (Z.pos p) = NilEmpty.string_of_uint (Pos.to_uint p).
Proof.
  unfold String_of_Z. simpl.
  pose proof (DecimalPos.Unsigned.to_uint_nonnil p) as Hnil.
  now destruct (Pos.to_uint p).
Qed.

Lemma String_of_Z_neg (p : positive) :
  String_of_Z (Z.neg p)
  = String "-" (NilEmpty.string_of_uint (Pos.to_uint p)).
Proof.
  unfold String_of_Z. simpl.
  pose proof (DecimalPos.Unsigned.to_uint_nonnil p) as Hnil.
  now destruct (Pos.to_uint p).
Qed.

Lemma parseInt10_digits (c : ascii) (rest : string) :
  is_digit c = true ->
  parseInt10 (String c rest) = parse_digits None (String c rest).
Proof.
  intros Hc.
  destruct c as [[] [] [] [] [] [] [] []]; cbv in Hc;
    try discriminate Hc; reflexivity.
Qed.

Example parseInt10_samples :
  parseInt10 "1700003600000" = Some 1700003600000
  /\ parseInt10 " 42px" = Some 42
  /\ parseInt10 "-7" = Some (-7)
  /\ parseInt10 "soon" = None.
Proof. repeat split. Qed.

(** [parseInt(String(n), 10)] is [n]. *)
Lemma parseInt10_String_of_Z (n : Z) : parseInt10 (String_of_Z n) = Some n.
Proof.
  destruct n as [|p|p].
  - reflexivity.
  - rewrite String_of_Z_pos.
    destruct (to_uint_text_head p) as (c & rest & Htext & Hc).
    rewrite Htext, (parseInt10_digits c rest Hc), <- Htext.
    apply parse_digits_to_uint.
  - rewrite String_of_Z_neg. unfold parseInt10. cbn [skip_spaces].
    change (is_space "-") with false. cbv iota.
    now rewrite parse_digits_to_uint.
Qed.

Lemma String_of_Z_nonempty (n : Z) : String_of_Z n <> "".
Proof.
  destruct n as [|p|p].
  - discriminate.
  - rewrite String_of_Z_pos.
    destruct (to_uint_text_head p) as (c & rest & -> & _). discriminate.
  - rewrite String_of_Z_neg. discriminate.
Qed.

End DecimalText.

(** ** hooks/useStripeSubscription.ts: the cache *)

Section SubscriptionCacheFacts.

Import StripeSubscription.

Variable storage_rejects : StorageOp -> option Thrown.
Variable JSON_stringify : Json -> string.
Variable JSON_parse : string -> Outcome Json.

Hypothesis storage_reliable : forall op, storage_rejects op = None.

Lemma cache_keys_differ :
  SUBSCRIPTION_CACHE_KEY <> SUBSCRIPTION_CACHE_EXPIRY_KEY.
Proof. discriminate. Qed.

(** Both keys are gone after [multiRemove]. *)
Lemma cache_removed (store : gmap string string) :
  let store' := foldr delete store [SUBSCRIPTION_CACHE_KEY;
                                    SUBSCRIPTION_CACHE_EXPIRY_KEY] in
  store' !! SUBSCRIPTION_CACHE_KEY = None
  /\ store' !! SUBSCRIPTION_CACHE_EXPIRY_KEY = None.
Proof.
  simpl. split.
  - apply lookup_delete_eq.
  - rewrite lookup_delete_ne by exact cache_keys_differ.
    apply lookup_delete_eq.
Qed.

(** What [cacheSubscription] leaves in the store. *)
Lemma cacheSubscription_store (written : Z) (userId : string)
  (subscriptions : StripeSubscriptions) (store : gmap string string) :
  let doc := json_of_cached {| cached_subscriptions := subscriptions;
                               cached_userId := userId |} in
  let store' :=
    fst (cacheSubscription storage_rejects JSON_stringify written userId
           subscriptions store) in
  store' !! SUBSCRIPTION_CACHE_KEY = Some (JSON_stringify doc)
  /\ store' !! SUBSCRIPTION_CACHE_EXPIRY_KEY
     = Some (String_of_Z (written + CACHE_DURATION_MS)).
Proof.
  unfold cacheSubscription, try_catch, bind, setItem.
  rewrite !storage_reliable. simpl. split.
  - rewrite lookup_insert_ne by (symmetry; exact cache_keys_differ).
    apply lookup_insert_eq.
  - apply lookup_insert_eq.
Qed.

(** A read of a store that holds a document and an expiry. *)
Lemma getCachedSubscription_read (now expiry : Z) (requested userId : string)
  (subscriptions : StripeSubscriptions) (text : string)
  (store : gmap string string) :
  let doc := json_of_cached {| cached_subscriptions := subscriptions;
                               cached_userId := userId |} in
  store !! SUBSCRIPTION_CACHE_KEY = Some text ->
  store !! SUBSCRIPTION_CACHE_EXPIRY_KEY = Some (String_of_Z expiry) ->
  text <> "" ->
  JSON_parse text = Returns doc ->
  getCachedSubscription storage_rejects JSON_parse now requested store
  = if (now >? expiry) || negb (String.eqb userId requested)
    then (foldr delete store [SUBSCRIPTION_CACHE_KEY;
                              SUBSCRIPTION_CACHE_EXPIRY_KEY],
          Returns null)
    else (store, Returns (Some (json_of_subscriptions subscriptions))).
Proof.
  intros doc Hdoc Hexp Htext Hparse.
  unfold getCachedSubscription, try_catch, bind, getItem, multiRemove,
    lift, ret, expired.
  rewrite !storage_reliable, Hdoc, Hexp.
  destruct (String.eqb_spec text ""); [contradiction|].
  destruct (String.eqb_spec (String_of_Z expiry) "") as [He|_];
    [now apply String_of_Z_nonempty in He|].
  cbn [orb]. rewrite parseInt10_String_of_Z.
  destruct (now >? expiry); cbn [orb].
  - reflexivity.
  - rewrite Hparse. unfold doc. cbn.
    destruct (String.eqb userId requested); reflexivity.
Qed.

(** C2 (as amended): the subscription cache is a TTL cache as long as
    the native store accepts every call ([storage_reliable]) and
    [JSON.parse] reads back the document from the non-empty text that
    [JSON.stringify] wrote for it. Then, after [cacheSubscription(u, s)]
    at time [written], the stored expiry is [written + 3600000];
    [getCachedSubscription(u)] returns [s] while the clock is at most
    the stored expiry; and when the clock exceeds the stored expiry, or
    the requested user is not the stored one, it removes both cache keys
    and returns null. *)
Theorem subscription_cache_ttl (written : Z) (userId : string)
  (subscriptions : StripeSubscriptions) (store : gmap string string) :
  let doc := json_of_cached {| cached_subscriptions := subscriptions;
                               cached_userId := userId |} in
  JSON_stringify doc <> "" ->
  JSON_parse (JSON_stringify doc) = Returns doc ->
  let cached :=
    fst (cacheSubscription storage_rejects JSON_stringify written userId
           subscriptions store) in
  cached !! SUBSCRIPTION_CACHE_EXPIRY_KEY
  = Some (String_of_Z (written + 3600000))
  /\ (forall now,
        now <= written + 3600000 ->
        getCachedSubscription storage_rejects JSON_parse now userId cached
        = (cached, Returns (Some (json_of_subscriptions subscriptions))))
  /\ (forall now requested,
        now > written + 3600000 \/ requested <> userId ->
        exists emptied,
          getCachedSubscription storage_rejects JSON_parse now requested
            cached
          = (emptied, Returns null)
          /\ emptied !! SUBSCRIPTION_CACHE_KEY = None
          /\ emptied !! SUBSCRIPTION_CACHE_EXPIRY_KEY = None).
Proof.
  intros doc Htext Hparse cached.
  destruct (cacheSubscription_store written userId subscriptions store)
    as [Hdoc Hexp].
  fold doc in Hdoc. fold cached in Hdoc, Hexp.
  change CACHE_DURATION_MS with 3600000 in Hexp.
  split; [exact Hexp|]. split.
  - intros now Hnow.
    rewrite (getCachedSubscription_read now (written + 3600000) userId
               userId subscriptions _ cached Hdoc Hexp Htext Hparse).
    replace (now >? written + 3600000) with false by lia.
    now rewrite String.eqb_refl.
  - intros now requested Hcase.
    rewrite (getCachedSubscription_read now (written + 3600000) requested
               userId subscriptions _ cached Hdoc Hexp Htext Hparse).
    assert (Hcond : (now >? written + 3600000)
                    || negb (String.eqb userId requested) = true).
    { destruct Hcase as [Hlate|Hother].
      - replace (now >? written + 3600000) with true by lia. reflexivity.
      - destruct (String.eqb_spec userId requested) as [->|_];
          [contradiction|]. apply orb_true_r. }
    rewrite Hcond. eexists. split; [reflexivity|]. apply cache_removed.
Qed.

End SubscriptionCacheFacts.

(** A run of C2: the status of a bundle subscriber is cached at time
    1700000000000 and read back within the hour. *)
Lemma subscription_cache_ttl_witness :
  let doc :=
    StripeSubscription.json_of_cached
      {| StripeSubscription.cached_subscriptions := Samples.bundle_subscriber;
         StripeSubscription.cached_userId := "user-1" |} in
  let cached :=
    fst (StripeSubscription.cacheSubscription (fun _ => None)
           Samples.print_json 1700000000000 "user-1"
           Samples.bundle_subscriber ∅) in
  StripeSubscription.getCachedSubscription (fun _ => None)
    (Samples.parse_only doc) 1700003600000 "user-1" cached
  = (cached,
     Returns (Some (StripeSubscription.json_of_subscriptions
                      Samples.bundle_subscriber))).
Proof.
  intros doc cached.
  destruct (subscription_cache_ttl (fun _ => None) Samples.print_json
              (Samples.parse_only doc) (fun _ => eq_refl)
              1700000000000 "user-1" Samples.bundle_subscriber ∅)
    as (_ & Hread & _).
  - discriminate.
  - reflexivity.
  - apply Hread. lia.
Defined.

(** C2 (as stated) fails: the native store rejects the writes;
    [cacheSubscription] swallows the rejection and completes, nothing is
    stored, and a read one millisecond later, well inside the hour,
    returns null instead of the subscriptions. *)
Lemma cacheSubscription_rejected_write_is_lost :
  let doc :=
    StripeSubscription.json_of_cached
      {| StripeSubscription.cached_subscriptions := Samples.bundle_subscriber;
         StripeSubscription.cached_userId := "user-1" |} in
  let written :=
    StripeSubscription.cacheSubscription Samples.full_disk
      Samples.print_json 1700000000000 "user-1"
      Samples.bundle_subscriber ∅ in
  snd written = Returns tt
  /\ fst written = ∅
  /\ StripeSubscription.getCachedSubscription Samples.full_disk
       (Samples.parse_only doc) 1700000000001 "user-1" (fst written)
     = (∅, Returns StripeSubscription.null)
  /\ StripeSubscription.null
     <> Some (StripeSubscription.json_of_subscriptions
                Samples.bundle_subscriber).
Proof.
  intros doc written. repeat split; try reflexivity. discriminate.
Qed.

(** ** utils/stripFootnoteTags.ts *)

Section FootnotesFacts.

Import Footnotes Spec Notions.

Example stripFootnoteTags_samples :
  stripFootnoteTags
    (Some (code_units
             "word<footnote id=1155 number=166>note</footnote> next<FOOTNOTE id=1 />."))
  = code_units "wordnote next."
  /\ stripFootnoteTags (Some (code_units "a < b > c <footnotes> d"))
     = code_units "a < b > c <footnotes> d".
Proof. split; reflexivity. Qed.

(** *** The replacement loop *)

Lemma replace_from_skip (re : list Atom) (a b : list N) :
  replace_from re (length a) (a ++ b) = replace_from re O b.
Proof.
  induction a as [|u a IH]; simpl; [reflexivity|].
  destruct b as [|v b]; [|exact IH].
  rewrite app_nil_r in *. destruct a; [reflexivity | exact IH].
Qed.

(** A match at the head is dropped and the scan resumes after it. *)
Lemma replace_from_match (re : list Atom) (a b : list N) :
  a <> [] ->
  match_here re (a ++ b) = Some b ->
  replace_from re O (a ++ b) = replace_from re O b.
Proof.
  intros Ha Hm. destruct a as [|u a]; [contradiction|].
  change ((u :: a) ++ b) with (u :: (a ++ b)) in *.
  cbn [replace_from]. rewrite Hm.
  replace (length (u :: a ++ b) - length b - 1)%nat with (length a)
    by (simpl; rewrite length_app; lia).
  apply replace_from_skip.
Qed.

Lemma replace_from_keep (re : list Atom) (u : N) (s : list N) :
  match_here re (u :: s) = None ->
  replace_from re O (u :: s) = u :: replace_from re O s.
Proof. intros Hm. cbn [replace_from]. now rewrite Hm. Qed.

Lemma in_set_lt (u : N) : u <> lt -> in_set (Literal lt) u = false.
Proof.
  intros Hu. unfold in_set. apply N.eqb_neq.
  change (canonicalize lt) with 60%N. unfold canonicalize, lt in *.
  destruct (N.leb_spec 97 u), (N.leb_spec u 122); simpl; lia.
Qed.

Lemma no_match_without_lt (re : list Atom) (u : N) (s : list N) :
  starts_with_lt re -> u <> lt -> match_here re (u :: s) = None.
Proof.
  intros [re' ->] Hu. cbn [match_here]. now rewrite in_set_lt.
Qed.

Lemma replace_from_plain (re : list Atom) (a b : list N) :
  starts_with_lt re ->
  Forall (fun u => u <> lt) a ->
  replace_from re O (a ++ b) = a ++ replace_from re O b.
Proof.
  intros Hre Ha. induction Ha as [|u a Hu _ IH]; [reflexivity|].
  change ((u :: a) ++ b) with (u :: (a ++ b)).
  rewrite replace_from_keep by now apply no_match_without_lt.
  now rewrite IH.
Qed.

Lemma replace_all_plain (re : list Atom) (s : list N) :
  starts_with_lt re ->
  Forall (fun u => u <> lt) s ->
  replace_all re s = s.
Proof.
  intros Hre Hs. unfold replace_all.
  rewrite <- (app_nil_r s) at 1.
  rewrite replace_from_plain by assumption.
  simpl. apply app_nil_r.
Qed.

Lemma has_match_plain (re : list Atom) (s : list N) :
  starts_with_lt re ->
  Forall (fun u => u <> lt) s ->
  has_match re s = false.
Proof.
  intros Hre Hs. induction Hs as [|u s Hu _ IH].
  - destruct Hre as [re' ->]. reflexivity.
  - cbn [has_match]. now rewrite no_match_without_lt.
Qed.

Lemma footnote_open_starts : starts_with_lt footnote_open.
Proof. eexists. reflexivity. Qed.

Lemma footnote_close_starts : starts_with_lt footnote_close.
Proof. eexists. reflexivity. Qed.

Lemma footnote_self_closing_starts : starts_with_lt footnote_self_closing.
Proof. eexists. reflexivity. Qed.

(** *** Matching a tag *)

Lemma canonicalize_fixed (u c : N) :
  (c < 65 \/ 90 < c)%N -> (c < 97 \/ 122 < c)%N ->
  canonicalize u = c -> u = c.
Proof.
  unfold canonicalize. intros Hc1 Hc2.
  destruct (N.leb_spec 97 u), (N.leb_spec u 122); simpl; lia.
Qed.

Lemma in_set_not_gt (u : N) : u <> gt -> in_set (NotChar gt) u = true.
Proof.
  intros Hu. unfold in_set. apply negb_true_iff, N.eqb_neq.
  change (canonicalize gt) with 62%N. intros H. apply Hu.
  apply canonicalize_fixed in H; [exact H | lia | lia].
Qed.

Lemma white_space_not_gt (u : N) : is_white_space u = true -> u <> gt.
Proof. intros H ->. discriminate. Qed.

Lemma match_literal (text : string) (name : list N) (re : list Atom)
  (rest : list N) :
  spells text name ->
  match_here (literal text ++ re) (name ++ rest) = match_here re rest.
Proof.
  unfold spells, literal. generalize (code_units text) as ls. intros ls H.
  induction H as [|l u ls us Hlu _ IH]; [reflexivity|].
  cbn [map app match_here in_set]. now rewrite Hlu, N.eqb_refl.
Qed.

Lemma spells_cons (c : ascii) (text : string) (name : list N) :
  spells (String c text) name ->
  exists u us,
    name = u :: us
    /\ canonicalize u = canonicalize (N_of_ascii c)
    /\ spells text us.
Proof.
  unfold spells, code_units. cbn [list_ascii_of_string map].
  intros H. inversion H as [|l u ls us Hlu Hrest]; subst. eauto.
Qed.

(** A name spelling [<footnote] is [<] followed by letters. *)
Lemma spells_open_shape (name : list N) :
  spells "<footnote" name ->
  exists c body,
    name = lt :: c :: body
    /\ canonicalize c = 70%N
    /\ Forall (fun u => u <> lt) (c :: body).
Proof.
  intros H.
  apply spells_cons in H as (u0 & us0 & -> & H0 & H).
  change (canonicalize (N_of_ascii "<")) with 60%N in H0.
  apply canonicalize_fixed in H0; [|lia|lia].
  pose proof H as Hall.
  apply spells_cons in H as (u1 & us1 & -> & H1 & H).
  change (canonicalize (N_of_ascii "f")) with 70%N in H1.
  exists u1, us1. split; [now rewrite H0|]. split; [exact H1|].
  clear -Hall. unfold spells in Hall. revert Hall.
  generalize (u1 :: us1) as us. intros us Hall.
  assert (Hletters : Forall (fun l => canonicalize l <> 60%N)
                       (code_units "footnote"))
    by (repeat constructor; discriminate).
  revert Hletters. induction Hall as [|l u ls us' Hlu _ IH];
    intros Hletters; constructor.
  - intros ->. inversion Hletters; subst.
    change (canonicalize lt) with 60%N in Hlu. congruence.
  - apply IH. now inversion Hletters.
Qed.

(** A name spelling [</footnote>] is [<], [/] and characters other than
    [<]. *)
Lemma spells_close_shape (name : list N) :
  spells "</footnote>" name ->
  exists body,
    name = lt :: 47%N :: body /\ Forall (fun u => u <> lt) body.
Proof.
  intros H.
  apply spells_cons in H as (u0 & us0 & -> & H0 & H).
  change (canonicalize (N_of_ascii "<")) with 60%N in H0.
  apply canonicalize_fixed in H0; [|lia|lia].
  apply spells_cons in H as (u1 & us1 & -> & H1 & H).
  change (canonicalize (N_of_ascii "/")) with 47%N in H1.
  apply canonicalize_fixed in H1; [|lia|lia].
  exists us1. split; [now rewrite H0, H1|].
  unfold spells in H. revert H. generalize us1 as us. intros us Hall.
  assert (Hletters : Forall (fun l => canonicalize l <> 60%N)
                       (code_units "footnote>"))
    by (repeat constructor; discriminate).
  revert Hletters. induction Hall as [|l u ls us' Hlu _ IH];
    intros Hletters; constructor.
  - intros ->. inversion Hletters; subst.
    change (canonicalize lt) with 60%N in Hlu. congruence.
  - apply IH. now inversion Hletters.
Qed.

(** [[^>]*>] runs to the first [>]. *)
Lemma match_up_to_gt (x rest : list N) :
  Forall (fun u => u <> gt) x ->
  many (in_set (NotChar gt)) (match_here [One (Literal gt)])
    (x ++ gt :: rest)
  = Some rest.
Proof.
  induction 1 as [|u x Hu _ IH]; cbn [app many].
  - reflexivity.
  - rewrite in_set_not_gt by exact Hu. now rewrite IH.
Qed.

(** [\s*[^>]*>] runs to the first [>] too, however the white space is
    shared between the two repetitions. *)
Lemma match_space_up_to_gt (x rest : list N) :
  Forall (fun u => u <> gt) x ->
  many (in_set WhiteSpace)
    (match_here [Many (NotChar gt); One (Literal gt)]) (x ++ gt :: rest)
  = Some rest.
Proof.
  induction 1 as [|u x Hu Hx IH]; cbn [app many].
  - reflexivity.
  - destruct (in_set WhiteSpace u).
    + now rewrite IH.
    + cbn [match_here].
      apply (match_up_to_gt (u :: x) rest). now constructor.
Qed.

Lemma match_open_tag (name x rest : list N) (w : N) :
  spells "<footnote" name ->
  is_white_space w = true ->
  Forall (fun u => u <> gt) x ->
  match_here footnote_open (name ++ w :: x ++ gt :: rest) = Some rest.
Proof.
  intros Hname Hw Hx. unfold footnote_open.
  rewrite match_literal by exact Hname.
  cbn [match_here in_set]. rewrite Hw.
  now apply match_space_up_to_gt.
Qed.

(** [[^>]*\/>] gives back the [/] that the repetition took. *)
Lemma match_up_to_slash_gt (x rest : list N) :
  Forall (fun u => u <> gt) x ->
  many (in_set (NotChar gt)) (match_here (literal "/>"))
    (x ++ code_units "/>" ++ rest)
  = Some rest.
Proof.
  induction 1 as [|u x Hu _ IH]; cbn [app many].
  - reflexivity.
  - rewrite in_set_not_gt by exact Hu. now rewrite IH.
Qed.

Lemma match_self_closing_tag (name attrs rest : list N) :
  spells "<footnote" name ->
  Forall (fun u => u <> gt) attrs ->
  match_here footnote_self_closing
    (name ++ attrs ++ code_units "/>" ++ rest)
  = Some rest.
Proof.
  intros Hname Hattrs. unfold footnote_self_closing.
  rewrite match_literal by exact Hname.
  cbn [app match_here]. now apply match_up_to_slash_gt.
Qed.

Lemma match_close_tag (name rest : list N) :
  spells "</footnote>" name ->
  match_here footnote_close (name ++ rest) = Some rest.
Proof.
  intros Hname. unfold footnote_close.
  rewrite <- (app_nil_r (literal "</footnote>")).
  now rewrite match_literal.
Qed.

(** *** Tags that a pattern does not match *)

Lemma no_close_at_open (name rest : list N) :
  spells "<footnote" name -> match_here footnote_close (name ++ rest) = None.
Proof.
  intros H. destruct (spells_open_shape name H) as (c & body & -> & Hc & _).
  cbn [app]. unfold footnote_close, literal.
  cbn [code_units list_ascii_of_string map match_here in_set].
  rewrite Hc. reflexivity.
Qed.

Lemma no_open_at_close (name rest : list N) :
  spells "</footnote>" name -> match_here footnote_open (name ++ rest) = None.
Proof.
  intros H. destruct (spells_close_shape name H) as (body & -> & _).
  reflexivity.
Qed.

Lemma no_self_closing_at_close (name rest : list N) :
  spells "</footnote>" name ->
  match_here footnote_self_closing (name ++ rest) = None.
Proof.
  intros H. destruct (spells_close_shape name H) as (body & -> & _).
  reflexivity.
Qed.

(** Without white space after the name, the opening pattern fails. *)
Lemma no_open_without_space (name s : list N) :
  spells "<footnote" name ->
  match s with
  | u :: _ => is_white_space u = false
  | [] => True
  end ->
  match_here footnote_open (name ++ s) = None.
Proof.
  intros Hname Hs. unfold footnote_open.
  rewrite match_literal by exact Hname.
  destruct s as [|u s]; [reflexivity|].
  cbn [match_here in_set]. now rewrite Hs.
Qed.

(** *** The three passes over a tokenised string *)

Ltac reassociate :=
  repeat first [rewrite <- app_assoc | progress cbn [app]]; reflexivity.

Lemma replace_from_kept_tag (re : list Atom) (body rest : list N) :
  starts_with_lt re ->
  match_here re (lt :: body ++ rest) = None ->
  Forall (fun u => u <> lt) body ->
  replace_from re O ((lt :: body) ++ rest)
  = (lt :: body) ++ replace_from re O rest.
Proof.
  intros Hre Hm Hbody. cbn [app].
  rewrite replace_from_keep by exact Hm.
  now rewrite replace_from_plain.
Qed.

Lemma not_lt_of_attrs (attrs : list N) :
  Forall (fun u => u <> lt /\ u <> gt) attrs ->
  Forall (fun u => u <> lt) attrs.
Proof. intros H. eapply Forall_impl; [exact H|]. now intros u [Hl _]. Qed.

Lemma not_gt_of_attrs (attrs : list N) :
  Forall (fun u => u <> lt /\ u <> gt) attrs ->
  Forall (fun u => u <> gt) attrs.
Proof. intros H. eapply Forall_impl; [exact H|]. now intros u [_ Hg]. Qed.

Lemma not_lt_of_white_space (ws : list N) :
  Forall (fun u => is_white_space u = true) ws ->
  Forall (fun u => u <> lt) ws.
Proof.
  intros H. eapply Forall_impl; [exact H|].
  intros u Hu ->. discriminate.
Qed.

Lemma not_gt_of_white_space (ws : list N) :
  Forall (fun u => is_white_space u = true) ws ->
  Forall (fun u => u <> gt) ws.
Proof.
  intros H. eapply Forall_impl; [exact H|].
  intros u Hu. now apply white_space_not_gt.
Qed.

Lemma markup_cons (t : Token) (ts : list Token) :
  markup (t :: ts) = render t ++ markup ts.
Proof. reflexivity. Qed.

Lemma open_tag_dropped (name ws attrs rest : list N) :
  well_formed (OpenTag name ws attrs) ->
  replace_from footnote_open O (render (OpenTag name ws attrs) ++ rest)
  = replace_from footnote_open O rest.
Proof.
  intros (Hname & Hne & Hws & Hattrs).
  destruct (spells_open_shape name Hname) as (c & body & Hshape & _).
  apply replace_from_match.
  - cbn [render]. rewrite Hshape. discriminate.
  - destruct ws as [|w ws]; [contradiction|].
    apply Forall_cons in Hws as [Hw Hws'].
    cbn [render].
    replace ((name ++ (w :: ws) ++ attrs ++ [gt]) ++ rest)
      with (name ++ w :: (ws ++ attrs) ++ gt :: rest)
      by reassociate.
    apply match_open_tag; [exact Hname | exact Hw |].
    apply Forall_app. split.
    + now apply not_gt_of_white_space.
    + now apply not_gt_of_attrs.
Qed.

Lemma slash_gt_not_lt : Forall (fun u => u <> lt) (code_units "/>").
Proof. repeat constructor; discriminate. Qed.

(** A self-closing tag under the opening pattern: dropped when its
    attributes start with white space, kept as it is otherwise. *)
Lemma self_closing_under_open (name attrs rest : list N) :
  well_formed (SelfClosingTag name attrs) ->
  replace_from footnote_open O (render (SelfClosingTag name attrs) ++ rest)
  = (if starts_with_space attrs then []
     else render (SelfClosingTag name attrs))
    ++ replace_from footnote_open O rest.
Proof.
  intros (Hname & Hattrs).
  destruct (spells_open_shape name Hname) as (c & body & Hshape & _ & Hbody).
  subst name.
  destruct (starts_with_space attrs) eqn:Hsp.
  - destruct attrs as [|w attrs]; [discriminate|]. cbn in Hsp.
    apply Forall_cons in Hattrs as [Hw Hattrs'].
    cbn [app]. apply replace_from_match.
    + cbn [render]. discriminate.
    + cbn [render].
      replace (((lt :: c :: body) ++ (w :: attrs) ++ code_units "/>") ++ rest)
        with ((lt :: c :: body) ++ w :: (attrs ++ [47%N]) ++ gt :: rest)
        by reassociate.
      apply match_open_tag; [exact Hname | exact Hsp |].
      apply Forall_app. split; [now apply not_gt_of_attrs|].
      repeat constructor. discriminate.
  - cbn [render].
    replace ((lt :: c :: body) ++ attrs ++ code_units "/>")
      with (lt :: ((c :: body) ++ attrs ++ code_units "/>"))
      by reflexivity.
    apply replace_from_kept_tag.
    + exact footnote_open_starts.
    + replace (lt :: ((c :: body) ++ attrs ++ code_units "/>") ++ rest)
        with ((lt :: c :: body) ++ (attrs ++ code_units "/>" ++ rest))
        by reassociate.
      apply no_open_without_space; [exact Hname|].
      destruct attrs as [|a attrs]; [reflexivity | exact Hsp].
    + apply Forall_app. split; [exact Hbody|].
      apply Forall_app. split;
        [now apply not_lt_of_attrs | exact slash_gt_not_lt].
Qed.

Lemma close_tag_kept (re : list Atom) (name rest : list N) :
  starts_with_lt re ->
  spells "</footnote>" name ->
  match_here re (name ++ rest) = None ->
  replace_from re O (name ++ rest) = name ++ replace_from re O rest.
Proof.
  intros Hre Hname Hm.
  destruct (spells_close_shape name Hname) as (body & -> & Hbody).
  apply replace_from_kept_tag; [exact Hre | exact Hm |].
  constructor; [discriminate | exact Hbody].
Qed.

Lemma pass_open (ts : list Token) :
  Forall well_formed ts ->
  replace_all footnote_open (markup ts)
  = markup (List.filter survives_open ts).
Proof.
  unfold replace_all.
  induction 1 as [|t ts Ht _ IH]; [reflexivity|].
  rewrite markup_cons. destruct t as [s | name ws attrs | name | name attrs].
  - cbn [List.filter survives_open]. rewrite markup_cons. cbn [render].
    rewrite replace_from_plain;
      [now rewrite IH | exact footnote_open_starts | exact Ht].
  - cbn [List.filter survives_open].
    now rewrite open_tag_dropped.
  - cbn [List.filter survives_open]. rewrite markup_cons. cbn [render].
    rewrite close_tag_kept;
      [now rewrite IH | exact footnote_open_starts | exact Ht
      | now apply no_open_at_close].
  - rewrite self_closing_under_open by exact Ht.
    cbn [List.filter survives_open].
    destruct (starts_with_space attrs); cbn [negb].
    + exact IH.
    + rewrite markup_cons. now rewrite IH.
Qed.

Lemma pass_close (ts : list Token) :
  Forall well_formed ts ->
  replace_all footnote_close (markup ts)
  = markup (List.filter survives_close ts).
Proof.
  unfold replace_all.
  induction 1 as [|t ts Ht _ IH]; [reflexivity|].
  rewrite markup_cons. destruct t as [s | name ws attrs | name | name attrs];
    cbn [List.filter survives_close]; rewrite ?markup_cons; cbn [render].
  - rewrite replace_from_plain;
      [now rewrite IH | exact footnote_close_starts | exact Ht].
  - destruct Ht as (Hname & _ & Hws & Hattrs).
    destruct (spells_open_shape name Hname)
      as (c & body & Hshape & _ & Hbody).
    rewrite Hshape.
    replace ((lt :: c :: body) ++ ws ++ attrs ++ [gt])
      with (lt :: ((c :: body) ++ ws ++ attrs ++ [gt])) by reflexivity.
    rewrite replace_from_kept_tag; [now rewrite IH | | |].
    + exact footnote_close_starts.
    + replace (lt :: ((c :: body) ++ ws ++ attrs ++ [gt]) ++ markup ts)
        with ((lt :: c :: body) ++ (ws ++ attrs ++ [gt]) ++ markup ts)
        by reassociate.
      rewrite <- Hshape. now apply no_close_at_open.
    + apply Forall_app. split; [exact Hbody|].
      apply Forall_app. split; [now apply not_lt_of_white_space|].
      apply Forall_app. split; [now apply not_lt_of_attrs|].
      repeat constructor. discriminate.
  - rewrite replace_from_match; [exact IH | | now apply match_close_tag].
    destruct (spells_close_shape name Ht) as (body & -> & _). discriminate.
  - destruct Ht as (Hname & Hattrs).
    destruct (spells_open_shape name Hname)
      as (c & body & Hshape & _ & Hbody).
    rewrite Hshape.
    replace ((lt :: c :: body) ++ attrs ++ code_units "/>")
      with (lt :: ((c :: body) ++ attrs ++ code_units "/>")) by reflexivity.
    rewrite replace_from_kept_tag; [now rewrite IH | | |].
    + exact footnote_close_starts.
    + replace (lt :: ((c :: body) ++ attrs ++ code_units "/>") ++ markup ts)
        with ((lt :: c :: body) ++ (attrs ++ code_units "/>") ++ markup ts)
        by reassociate.
      rewrite <- Hshape. now apply no_close_at_open.
    + apply Forall_app. split; [exact Hbody|].
      apply Forall_app. split;
        [now apply not_lt_of_attrs | exact slash_gt_not_lt].
Qed.

Lemma pass_self_closing (ts : list Token) :
  Forall well_formed ts ->
  Forall not_open ts ->
  replace_all footnote_self_closing (markup ts)
  = markup (List.filter survives_self_closing ts).
Proof.
  unfold replace_all. intros Hwf Hno.
  induction Hwf as [|t ts Ht _ IH]; [reflexivity|].
  inversion Hno as [|? ? Hnt Hno']; subst.
  rewrite markup_cons. destruct t as [s | name ws attrs | name | name attrs];
    cbn [List.filter survives_self_closing]; rewrite ?markup_cons;
    cbn [render].
  - rewrite replace_from_plain;
      [now rewrite IH | exact footnote_self_closing_starts | exact Ht].
  - contradiction.
  - rewrite close_tag_kept;
      [now rewrite IH | exact footnote_self_closing_starts | exact Ht
      | now apply no_self_closing_at_close].
  - destruct Ht as (Hname & Hattrs).
    rewrite replace_from_match; [now apply IH | |].
    + destruct (spells_open_shape name Hname) as (c & body & -> & _).
      discriminate.
    + rewrite <- !app_assoc.
      apply match_self_closing_tag; [exact Hname|].
      now apply not_gt_of_attrs.
Qed.

Lemma filter_well_formed (f : Token -> bool) (ts : list Token) :
  Forall well_formed ts -> Forall well_formed (List.filter f ts).
Proof.
  induction 1 as [|t ts Ht _ IH]; simpl; [constructor|].
  destruct (f t); [constructor|]; assumption.
Qed.

Lemma filter_not_open (ts : list Token) :
  Forall not_open
    (List.filter survives_close (List.filter survives_open ts)).
Proof.
  induction ts as [|t ts IH]; simpl; [constructor|].
  destruct t as [s | name ws attrs | name | name attrs]; simpl;
    try assumption.
  - now constructor.
  - destruct (starts_with_space attrs); simpl; [assumption|].
    now constructor.
Qed.

Lemma markup_survivors (ts : list Token) :
  markup
    (List.filter survives_self_closing
       (List.filter survives_close (List.filter survives_open ts)))
  = plain_text ts.
Proof.
  induction ts as [|t ts IH]; [reflexivity|].
  destruct t as [s | name ws attrs | name | name attrs]; simpl.
  - rewrite markup_cons. unfold plain_text in *. simpl. now rewrite IH.
  - exact IH.
  - exact IH.
  - destruct (starts_with_space attrs); simpl; exact IH.
Qed.

Lemma plain_text_without_lt (ts : list Token) :
  Forall well_formed ts -> Forall (fun u => u <> lt) (plain_text ts).
Proof.
  unfold plain_text.
  induction 1 as [|t ts Ht _ IH]; simpl; [constructor|].
  destruct t; simpl; try exact IH.
  apply Forall_app. split; [exact Ht | exact IH].
Qed.

(** On well-formed markup the stripper returns the plain text. *)
Lemma stripFootnoteTags_markup (ts : list Token) :
  Forall well_formed ts ->
  stripFootnoteTags (Some (markup ts)) = plain_text ts.
Proof.
  intros Hwf. unfold stripFootnoteTags.
  rewrite pass_open by exact Hwf.
  rewrite pass_close by now apply filter_well_formed.
  rewrite pass_self_closing.
  - apply markup_survivors.
  - now do 2 apply filter_well_formed.
  - apply filter_not_open.
Qed.

Lemma stripFootnoteTags_plain (s : list N) :
  Forall (fun u => u <> lt) s -> stripFootnoteTags (Some s) = s.
Proof.
  intros Hs. unfold stripFootnoteTags.
  rewrite (replace_all_plain footnote_open s)
    by (exact footnote_open_starts || exact Hs).
  rewrite (replace_all_plain footnote_close s)
    by (exact footnote_close_starts || exact Hs).
  apply replace_all_plain;
    [exact footnote_self_closing_starts | exact Hs].
Qed.

(** C9 (as amended): for null or undefined input [stripFootnoteTags]
    returns the empty string. On a string made of plain text without
    [<] and of complete footnote tags (an opening tag with attributes, a
    closing tag, a self-closing tag, whose attributes contain neither
    [<] nor [>]) it returns the plain text with every tag removed; this
    output contains no opening tag with attributes, no self-closing tag
    and no closing tag, and stripping it again changes nothing. *)
Theorem stripFootnoteTags_on_markup (ts : list Token) :
  stripFootnoteTags None = []
  /\ (Forall well_formed ts ->
      let stripped := stripFootnoteTags (Some (markup ts)) in
      stripped = plain_text ts
      /\ has_match footnote_open stripped = false
      /\ has_match footnote_self_closing stripped = false
      /\ has_match footnote_close stripped = false
      /\ stripFootnoteTags (Some stripped) = stripped).
Proof.
  split; [reflexivity|].
  intros Hwf stripped.
  assert (Hs : stripped = plain_text ts)
    by now apply stripFootnoteTags_markup.
  pose proof (plain_text_without_lt ts Hwf) as Hplain.
  rewrite <- Hs in Hplain.
  split; [exact Hs|]. split; [|split; [|split]].
  - apply has_match_plain; [exact footnote_open_starts | exact Hplain].
  - apply has_match_plain;
      [exact footnote_self_closing_starts | exact Hplain].
  - apply has_match_plain; [exact footnote_close_starts | exact Hplain].
  - now apply stripFootnoteTags_plain.
Qed.

End FootnotesFacts.

(** C9 (as stated) fails: an opening tag nested in the name of another
    opening tag. One pass removes the inner tag and leaves
    [<footnote y>], which the opening pattern matches, and stripping the
    result again changes it. *)
Lemma stripFootnoteTags_leaves_nested_tag :
  let once :=
    Footnotes.stripFootnoteTags
      (Some (Footnotes.code_units "<foot<footnote x>note y>")) in
  once = Footnotes.code_units "<footnote y>"
  /\ Footnotes.has_match Footnotes.footnote_open once = true
  /\ Footnotes.stripFootnoteTags (Some once) = []
  /\ Footnotes.stripFootnoteTags (Some once) <> once.
Proof. repeat split. discriminate. Qed.

(** A run of C9 on a tagged translation. *)
Lemma stripFootnoteTags_on_markup_witness :
  let stripped :=
    Footnotes.stripFootnoteTags (Some (Spec.markup Samples.translation)) in
  stripped = Footnotes.code_units "In the namea > b of God"
  /\ Footnotes.has_match Footnotes.footnote_open stripped = false
  /\ Footnotes.has_match Footnotes.footnote_self_closing stripped = false
  /\ Footnotes.has_match Footnotes.footnote_close stripped = false
  /\ Footnotes.stripFootnoteTags (Some stripped) = stripped.
Proof.
  apply (proj2 (stripFootnoteTags_on_markup Samples.translation)).
  unfold Samples.translation, Spec.well_formed, Spec.spells.
  repeat first [ split | constructor | discriminate | reflexivity ].
Defined.

(** ** services/quranApi.ts: the query functions *)

Section QuranQueriesFacts.

Import QuranApi QuranQueries Terms.

Variable API_BASE_URL : option string.
Variable fetch : Request -> Outcome Response.

Lemma stringify_numbers (ns : list Z) :
  stringify_params (numbers ns) = Returns (map JNum ns).
Proof.
  induction ns as [|n ns IH]; [reflexivity|].
  change (numbers (n :: ns)) with (PValue (JNum n) :: numbers ns).
  cbn [stringify_params map]. now rewrite IH.
Qed.

(** A query with numeric parameters returns, having sent nothing (no
    base URL) or exactly the request built from its arguments. *)
Lemma executeQuranQuery_numbers (sql : string) (ns : list Z)
  (log : list Request) :
  exists result,
    executeQuranQuery API_BASE_URL fetch sql (numbers ns) log
    = (match truthy_str API_BASE_URL with
       | None => log
       | Some base =>
           log ++ [query_request base
                     {| body_sql := sql; body_params := map JNum ns |}]
       end,
       Returns result).
Proof.
  unfold executeQuranQuery.
  destruct (truthy_str API_BASE_URL) as [base|]; [|eexists; reflexivity].
  unfold try_catch, bind, lift, do_fetch, JSON_stringify, ret.
  rewrite stringify_numbers.
  destruct (fetch _) as [response|t]; [|eexists; reflexivity].
  destruct (resp_json response) as [j|t]; [|eexists; reflexivity].
  destruct (get "success" j) as [ok|t]; [|eexists; reflexivity].
  destruct (truthy ok).
  - destruct (get "data" j) as [d|t]; [|eexists; reflexivity].
    destruct (get "count" j) as [c|t]; eexists; reflexivity.
  - destruct (get "message" j) as [m|t]; eexists; reflexivity.
Qed.

Lemma count_char_app (c : ascii) (a b : string) :
  count_char c (a +:+ b) = (count_char c a + count_char c b)%nat.
Proof.
  induction a as [|c' a IH]; [reflexivity|].
  simpl. rewrite IH. lia.
Qed.

Lemma count_char_placeholders (ids : list Z) :
  count_char "?" (placeholders ids) = length ids.
Proof.
  unfold placeholders. induction ids as [|i ids IH]; [reflexivity|].
  destruct ids as [|i' ids]; [reflexivity|].
  change (String.concat ", " (map (fun _ : Z => "?") (i :: i' :: ids)))
    with ("?" +:+ ", "
            +:+ String.concat ", " (map (fun _ : Z => "?") (i' :: ids))).
  rewrite !count_char_app, IH. reflexivity.
Qed.

Lemma count_char_in_list (before after : string) (ids : list Z) :
  count_char "?" before = 0%nat ->
  count_char "?" after = 0%nat ->
  count_char "?" (before +:+ placeholders ids +:+ after) = length ids.
Proof.
  intros Hb Ha. rewrite !count_char_app, count_char_placeholders, Hb, Ha.
  lia.
Qed.

(** What a call of a query function does to the log of requests. *)
Lemma call_cases (q : Query) (log : list Request) :
  exists result,
    call API_BASE_URL fetch q log = (log, Returns result)
    /\ (truthy_str API_BASE_URL = None
        \/ (exists ids,
              (q = FetchVersesForThemes ids \/ q = FetchFootnotesByIds ids)
              /\ ids = [] /\ result = empty_result))
    \/ exists base sql ns,
         truthy_str API_BASE_URL = Some base
         /\ call API_BASE_URL fetch q log
            = (log ++ [query_request base
                         {| body_sql := sql; body_params := map JNum ns |}],
               Returns result)
         /\ count_char "?" sql = length ns.
Proof.
  assert (Hexec : forall sql ns,
            count_char "?" sql = length ns ->
            exists result,
              executeQuranQuery API_BASE_URL fetch sql (numbers ns) log
              = (log, Returns result)
              /\ truthy_str API_BASE_URL = None
              \/ exists base sql' ns',
                   truthy_str API_BASE_URL = Some base
                   /\ executeQuranQuery API_BASE_URL fetch sql (numbers ns) log
                      = (log ++ [query_request base
                                   {| body_sql := sql';
                                      body_params := map JNum ns' |}],
                         Returns result)
                   /\ count_char "?" sql' = length ns').
  { intros sql ns Hcount.
    destruct (executeQuranQuery_numbers sql ns log) as [result Hr].
    exists result. destruct (truthy_str API_BASE_URL) as [base|].
    - right. exists base, sql, ns. auto.
    - left. auto. }
  assert (Hlift : forall m,
            (exists result,
               m = (log, Returns result)
               /\ truthy_str API_BASE_URL = None
               \/ exists base sql' ns',
                    truthy_str API_BASE_URL = Some base
                    /\ m = (log ++ [query_request base
                                      {| body_sql := sql';
                                         body_params := map JNum ns' |}],
                            Returns result)
                    /\ count_char "?" sql' = length ns') ->
            exists result,
              m = (log, Returns result)
              /\ (truthy_str API_BASE_URL = None
                  \/ (exists ids,
                        (q = FetchVersesForThemes ids
                         \/ q = FetchFootnotesByIds ids)
                        /\ ids = [] /\ result = empty_result))
              \/ exists base sql ns,
                   truthy_str API_BASE_URL = Some base
                   /\ m = (log ++ [query_request base
                                     {| body_sql := sql;
                                        body_params := map JNum ns |}],
                           Returns result)
                   /\ count_char "?" sql = length ns).
  { intros m [result [[Hm Hnone] | H]]; exists result; [left|right]; auto. }
  destruct q; simpl;
    try (apply Hlift;
         first [ apply (Hexec _ []) | apply (Hexec _ [_])
               | apply (Hexec _ [_; _]) | apply (Hexec _ [_; _; _]) ];
         reflexivity).
  - unfold fetchVersesForThemes. destruct themeIds as [|i ids].
    + exists empty_result. left. split; [reflexivity|].
      right. exists []. auto.
    + apply Hlift. apply Hexec. unfold fetchVersesForThemes_sql.
      apply count_char_in_list; vm_compute; reflexivity.
  - unfold fetchFootnotesByIds. destruct footnoteIds as [|i ids].
    + exists empty_result. left. split; [reflexivity|].
      right. exists []. auto.
    + apply Hlift. apply Hexec. unfold fetchFootnotesByIds_sql.
      apply count_char_in_list; vm_compute; reflexivity.
Qed.

(** X1: no query function of [quranApi.ts] throws, whatever the network
    does: each call returns a result object, and puts at most one
    request on the wire, a POST to [<base>/api/quran/query]; no request
    at all when the base URL is unset. [fetchVersesForThemes] and
    [fetchFootnotesByIds] on an empty list of ids answer
    [{ success: true, data: [], count: 0 }] without a request, also when
    the base URL is unset. *)
Theorem query_functions_never_throw :
  (forall q log,
     exists result sent,
       call API_BASE_URL fetch q log = (log ++ sent, Returns result)
       /\ match truthy_str API_BASE_URL with
          | None => sent = []
          | Some base =>
              (length sent <= 1)%nat /\ Forall (posted_to base) sent
          end)
  /\ (forall log,
        fetchVersesForThemes API_BASE_URL fetch [] log
        = (log, Returns empty_result)
        /\ fetchFootnotesByIds API_BASE_URL fetch [] log
           = (log, Returns empty_result)).
Proof.
  split; [|intros log; split; reflexivity].
  intros q log.
  destruct (call_cases q log)
    as [result [[Hcall Hwhy] | (base & sql & ns & Hbase & Hcall & _)]].
  - exists result, []. rewrite app_nil_r. split; [exact Hcall|].
    destruct (truthy_str API_BASE_URL); [|reflexivity].
    split; [simpl; lia | constructor].
  - exists result. eexists. split; [exact Hcall|]. rewrite Hbase.
    split; [simpl; lia|]. repeat constructor.
Qed.

(** X2: every request that a query function sends carries exactly one
    parameter for each [?] placeholder of its SQL text; in particular
    the [IN (...)] list built by [fetchVersesForThemes] and
    [fetchFootnotesByIds] has one placeholder for each id, and the ids
    are the parameters, in order. *)
Theorem query_placeholders_match_parameters :
  (forall q log,
     exists sent,
       fst (call API_BASE_URL fetch q log) = log ++ sent
       /\ Forall well_parametrised sent)
  /\ (forall ids, count_char "?" (placeholders ids) = length ids)
  /\ (forall base i ids log,
        truthy_str API_BASE_URL = Some base ->
        fst (fetchFootnotesByIds API_BASE_URL fetch (i :: ids) log)
        = log ++ [query_request base
                    {| body_sql :=
                         fetchFootnotesByIds_sql (placeholders (i :: ids));
                       body_params := map JNum (i :: ids) |}]
        /\ fst (fetchVersesForThemes API_BASE_URL fetch (i :: ids) log)
           = log ++ [query_request base
                       {| body_sql :=
                            fetchVersesForThemes_sql (placeholders (i :: ids));
                          body_params := map JNum (i :: ids) |}]).
Proof.
  split; [|split].
  - intros q log.
    destruct (call_cases q log)
      as [result [[Hcall Hwhy] | (base & sql & ns & Hbase & Hcall & Hn)]].
    + exists []. rewrite Hcall, app_nil_r. split; [reflexivity | constructor].
    + eexists. rewrite Hcall. split; [reflexivity|].
      constructor; [|constructor].
      unfold well_parametrised. simpl. now rewrite length_map.
  - apply count_char_placeholders.
  - intros base i ids log Hbase. split.
    + unfold fetchFootnotesByIds. cbn [length Nat.eqb].
      destruct (executeQuranQuery_numbers
                  (fetchFootnotesByIds_sql (placeholders (i :: ids)))
                  (i :: ids) log) as [r Hr].
      rewrite Hr, Hbase. reflexivity.
    + unfold fetchVersesForThemes. cbn [length Nat.eqb].
      destruct (executeQuranQuery_numbers
                  (fetchVersesForThemes_sql (placeholders (i :: ids)))
                  (i :: ids) log) as [r Hr].
      rewrite Hr, Hbase. reflexivity.
Qed.

End QuranQueriesFacts.

(** ** Verse keys: services/quranAudioService.ts and
    screens/ReadScreen.tsx *)

Section VerseKeyFacts.

Import AudioService AudioContext ReadScreenNav Terms.

Lemma text_after_colon_app (a b : string) :
  colon_free a -> text_after_colon (a +:+ ":" +:+ b) = Some b.
Proof.
  unfold colon_free. induction a as [|c a IH]; [reflexivity|].
  simpl. destruct (Ascii.eqb c ":"); [discriminate | exact IH].
Qed.

Lemma text_before_colon_app (a b : string) :
  colon_free a -> text_before_colon (a +:+ ":" +:+ b) = a.
Proof.
  unfold colon_free. induction a as [|c a IH]; [reflexivity|].
  simpl. destruct (Ascii.eqb c ":"); [discriminate|].
  intros H. now rewrite IH.
Qed.

Lemma text_before_colon_free (a : string) :
  colon_free a -> text_before_colon a = a.
Proof.
  unfold colon_free. induction a as [|c a IH]; [reflexivity|].
  simpl. destruct (Ascii.eqb c ":"); [discriminate|].
  intros H. now rewrite IH.
Qed.

Lemma uint_text_colon_free (d : Decimal.uint) :
  colon_free (NilEmpty.string_of_uint d).
Proof. unfold colon_free. induction d; simpl; auto. Qed.

Lemma String_of_Z_colon_free (n : Z) : colon_free (String_of_Z n).
Proof.
  destruct n as [|p|p].
  - reflexivity.
  - rewrite String_of_Z_pos. apply uint_text_colon_free.
  - rewrite String_of_Z_neg. unfold colon_free. simpl.
    apply uint_text_colon_free.
Qed.

Lemma String_of_Z_inj (m n : Z) : String_of_Z m = String_of_Z n -> m = n.
Proof.
  intros H. pose proof (parseInt10_String_of_Z m) as Hm.
  rewrite H, parseInt10_String_of_Z in Hm. congruence.
Qed.

Lemma verse_key_of_inj (s v s' v' : Z) :
  verse_key_of s v = verse_key_of s' v' -> s = s' /\ v = v'.
Proof.
  unfold verse_key_of. intros H. split; apply String_of_Z_inj.
  - rewrite <- (text_before_colon_app (String_of_Z s) (String_of_Z v)),
            <- (text_before_colon_app (String_of_Z s') (String_of_Z v')), H
      by apply String_of_Z_colon_free.
    reflexivity.
  - pose proof (text_after_colon_app (String_of_Z s) (String_of_Z v)
                  (String_of_Z_colon_free s)) as H1.
    rewrite H, text_after_colon_app in H1 by apply String_of_Z_colon_free.
    congruence.
Qed.

Lemma find_first {A} (f : A -> bool) (l : list A) :
  match List.find f l with
  | Some x =>
      exists before after,
        l = before ++ x :: after /\ f x = true
        /\ Forall (fun y => f y = false) before
  | None => Forall (fun y => f y = false) l
  end.
Proof.
  induction l as [|a l IH]; simpl; [constructor|].
  destruct (f a) eqn:E.
  - exists [], l. repeat split; auto.
  - destruct (List.find f l) as [x|].
    + destruct IH as (before & after & -> & Hx & Hb).
      exists (a :: before), after. repeat split; auto.
    + constructor; auto.
Qed.

Lemma getVerseTimingByNumber_cases (surahId verseNumber : Z)
  (timings : list VerseTiming) :
  getVerseTimingByNumber surahId verseNumber timings = None
  \/ exists timing,
       getVerseTimingByNumber surahId verseNumber timings = Some timing
       /\ verse_key timing = verse_key_of surahId verseNumber.
Proof.
  unfold getVerseTimingByNumber. cbv zeta.
  fold (verse_key_of surahId verseNumber).
  destruct (List.find _ timings) as [timing|] eqn:E; [|now left].
  right. exists timing. split; [reflexivity|].
  apply find_some in E as [_ E]. now apply String.eqb_eq.
Qed.

Lemma contextVerseNumber_verse_key (s v : Z) :
  contextVerseNumber (Some (verse_key_of s v)) = Some v.
Proof.
  unfold contextVerseNumber.
  assert (Hne : verse_key_of s v <> "").
  { unfold verse_key_of. pose proof (String_of_Z_nonempty s) as Hs.
    destruct (String_of_Z s); [contradiction | discriminate]. }
  unfold truthy_str. destruct (String.eqb_spec (verse_key_of s v) "");
    [contradiction|].
  unfold split_colon_1, verse_key_of.
  rewrite text_after_colon_app by apply String_of_Z_colon_free.
  simpl. rewrite text_before_colon_free by apply String_of_Z_colon_free.
  apply parseInt10_String_of_Z.
Qed.

(** X3: [getVerseTimingByNumber(s, v, timings)] is the first timing of
    the list whose key is the text [s:v], and null exactly when no
    timing has that key. The text [s:v] determines [s] and [v], so the
    timing returned is never that of another verse or surah. *)
Theorem getVerseTimingByNumber_first_with_key (surahId verseNumber : Z)
  (timings : list VerseTiming) :
  (forall t,
     getVerseTimingByNumber surahId verseNumber timings = Some t <->
     exists before after,
       timings = before ++ t :: after
       /\ verse_key t = verse_key_of surahId verseNumber
       /\ Forall (fun y => verse_key y <> verse_key_of surahId verseNumber)
            before)
  /\ (getVerseTimingByNumber surahId verseNumber timings = None <->
      Forall (fun y => verse_key y <> verse_key_of surahId verseNumber)
        timings)
  /\ (forall s v,
        verse_key_of s v = verse_key_of surahId verseNumber <->
        s = surahId /\ v = verseNumber).
Proof.
  unfold getVerseTimingByNumber. cbv zeta.
  fold (verse_key_of surahId verseNumber).
  set (key := verse_key_of surahId verseNumber).
  assert (Hneq : forall l,
            Forall (fun y => String.eqb (verse_key y) key = false) l
            <-> Forall (fun y => verse_key y <> key) l).
  { intros l. split; intros H; eapply Forall_impl; try exact H;
      intros y Hy; simpl in *; now apply String.eqb_neq. }
  pose proof (find_first (fun t => String.eqb (verse_key t) key) timings)
    as Hfind.
  split; [|split].
  - intros t. split.
    + intros Ht. rewrite Ht in Hfind.
      destruct Hfind as (before & after & Hl & Hk & Hb).
      exists before, after. split; [exact Hl|]. split.
      * now apply String.eqb_eq.
      * now apply Hneq.
    + intros (before & after & Hl & Hk & Hb).
      destruct (List.find _ timings) as [x|].
      * destruct Hfind as (before' & after' & Hl' & Hk' & Hb').
        apply Hneq in Hb. apply String.eqb_eq in Hk'.
        rewrite Hl in Hl'. clear Hl.
        revert before' Hl' Hb'.
        induction Hb as [|y before Hy Hb IH]; intros before' Hl' Hb'.
        -- destruct before' as [|z before'].
           ++ simpl in Hl'. congruence.
           ++ simpl in Hl'. injection Hl' as <- _.
              apply Forall_cons in Hb' as [Hz _].
              apply String.eqb_neq in Hz. contradiction.
        -- destruct before' as [|z before'].
           ++ simpl in Hl'. injection Hl' as -> _.
              apply String.eqb_neq in Hy. contradiction.
           ++ simpl in Hl'. injection Hl' as _ Hl'.
              apply Forall_cons in Hb' as [_ Hb'].
              now apply (IH before').
      * exfalso. rewrite Hl in Hfind.
        apply Forall_app in Hfind as [_ Hfind].
        apply Forall_cons in Hfind as [Hfind _].
        apply String.eqb_neq in Hfind. contradiction.
  - split.
    + intros Hn. rewrite Hn in Hfind. now apply Hneq.
    + intros Hall. destruct (List.find _ timings) as [x|]; [|reflexivity].
      exfalso. destruct Hfind as (before & after & Hl & Hk & _).
      rewrite Hl in Hall. apply Forall_app in Hall as [_ Hall].
      apply Forall_cons in Hall as [Hx _].
      apply String.eqb_eq in Hk. contradiction.
  - intros s v. split; [apply verse_key_of_inj | now intros [-> ->]].
Qed.

(** X4: the read screen's context verse number is 1 when no verse key is
    set (null or empty), the verse number [v] for the key [s:v] of a
    verse, and [NaN] for a non-empty key without a colon. *)
Theorem contextVerseNumber_of_verse_key :
  contextVerseNumber None = Some 1
  /\ contextVerseNumber (Some "") = Some 1
  /\ (forall s v, contextVerseNumber (Some (verse_key_of s v)) = Some v)
  /\ (forall key,
        key <> "" -> colon_free key -> contextVerseNumber (Some key) = None).
Proof.
  split; [reflexivity|]. split; [reflexivity|]. split.
  - apply contextVerseNumber_verse_key.
  - intros key Hne Hfree. unfold contextVerseNumber, truthy_str.
    destruct (String.eqb_spec key ""); [contradiction|].
    unfold split_colon_1. now rewrite Hfree.
Qed.

Variable sound_rejects : SoundCommand -> option Thrown.
Variable loadSurahAudio : Z -> Async World unit.

(** X5: [playVerse(s, v)] on a loaded surah. When the loaded timings
    have no entry with the key [s:v], the call leaves the current verse
    key as it was and returns; when the player rejects the seek to the
    verse's start, the call leaves the key as it was and rejects with
    the player's error; in every other case it sets the key to [s:v],
    from which the read screen reads the verse number [v], and
    returns. *)
Theorem contextVerseNumber_follows_playVerse (surahId verseNumber : Z)
  (w : World) :
  currentChapterId w = Some surahId ->
  falsy_str (audioUrl w) = false ->
  let run := playVerse sound_rejects loadSurahAudio surahId verseNumber w in
  let w' := fst run in
  match getVerseTimingByNumber surahId verseNumber (verseTimings w) with
  | None => currentVerseKey w' = currentVerseKey w /\ snd run = Returns tt
  | Some timing =>
      match sound_rejects (SetPositionAsync (timestamp_from timing)) with
      | Some t => currentVerseKey w' = currentVerseKey w /\ snd run = Throws t
      | None =>
          currentVerseKey w' = Some (verse_key_of surahId verseNumber)
          /\ contextVerseNumber (currentVerseKey w') = Some verseNumber
          /\ snd run = Returns tt
      end
  end.
Proof.
  intros Hch Hurl run w'. unfold w', run.
  destruct (getVerseTimingByNumber_cases surahId verseNumber
              (verseTimings w)) as [Hnone | (timing & Ht & Hkey)].
  - rewrite Hnone. unfold playVerse, bind, ensureSound, modify, read.
    destruct (soundRef w) as [c|]; cbn -[getVerseTimingByNumber];
      rewrite Hch, Z.eqb_refl, Hurl; cbn -[getVerseTimingByNumber];
      rewrite Hnone; split; reflexivity.
  - rewrite Ht.
    unfold playVerse, bind, ensureSound, modify, read, clearVerseEndBoundary,
      try_finally, try_catch, await_sound.
    destruct (soundRef w) as [c|]; cbn -[getVerseTimingByNumber];
      rewrite Hch, Z.eqb_refl, Hurl; cbn -[getVerseTimingByNumber];
      rewrite Ht; cbn;
      (destruct (sound_rejects (SetPositionAsync (timestamp_from timing)));
       [split; reflexivity|]);
      cbn; destruct (sound_rejects PlayAsync); cbn; rewrite Hkey;
      (split; [reflexivity|]);
      (split; [apply contextVerseNumber_verse_key | reflexivity]).
Qed.

End VerseKeyFacts.

(** A run of X5: verse 1:2 is played in the loaded surah 1 and the read
    screen reads verse 2; verse 1:9 has no timing and the key stays as
    it was. *)
Lemma contextVerseNumber_follows_playVerse_witness :
  let w' :=
    fst (AudioContext.playVerse (fun _ => None) (fun _ => ret tt) 1 2
           Samples.loaded_world) in
  let w9 :=
    fst (AudioContext.playVerse (fun _ => None) (fun _ => ret tt) 1 9
           Samples.loaded_world) in
  (AudioContext.currentVerseKey w' = Some "1:2"
   /\ ReadScreenNav.contextVerseNumber (AudioContext.currentVerseKey w')
      = Some 2
   /\ snd (AudioContext.playVerse (fun _ => None) (fun _ => ret tt) 1 2
             Samples.loaded_world) = Returns tt)
  /\ (AudioContext.currentVerseKey w9
      = AudioContext.currentVerseKey Samples.loaded_world
      /\ snd (AudioContext.playVerse (fun _ => None) (fun _ => ret tt) 1 9
                Samples.loaded_world) = Returns tt).
Proof.
  split.
  - exact (contextVerseNumber_follows_playVerse (fun _ => None)
             (fun _ => ret tt) 1 2 Samples.loaded_world eq_refl eq_refl).
  - exact (contextVerseNumber_follows_playVerse (fun _ => None)
             (fun _ => ret tt) 1 9 Samples.loaded_world eq_refl eq_refl).
Defined.

(** ** screens/ReadScreen.tsx: surah navigation *)

Section ReadScreenNavFacts.

Import ReadScreenNav.

Lemma surahId_String_of_Z (n : Z) :
  n <> 0 -> surahId (Some (String_of_Z n)) = n.
Proof.
  intros Hn. unfold surahId, truthy_str.
  destruct (String.eqb_spec (String_of_Z n) "") as [E|_];
    [now apply String_of_Z_nonempty in E|].
  rewrite parseInt10_String_of_Z.
  destruct (Z.eqb_spec n 0); [contradiction | reflexivity].
Qed.

Lemma surahId_nonzero (route : option string) : surahId route <> 0.
Proof.
  unfold surahId. destruct (parseInt10 _) as [n|]; [|lia].
  destruct (Z.eqb_spec n 0); lia.
Qed.


End ReadScreenNavFacts.


(** ** contexts/QuranAudioContext.tsx: the playback controls *)

Section AudioControlsFacts.

Import AudioService AudioContext AudioControls Spec Terms.

Variable sound_rejects : SoundCommand -> option Thrown.
Variable loadSurahAudio : ReciterId -> Z -> Async World unit.

(** A status event keeps the sound, and either keeps the boundary, the
    mode and the commands sent, or clears an armed boundary and the
    mode. *)
Lemma status_update_boundary (status : PlaybackStatus) (w : World) :
  let w' := status_update status w in
  soundRef w' = soundRef w
  /\ ((singleVerseEndTimeRef w' = singleVerseEndTimeRef w
       /\ isSingleVerseMode w' = isSingleVerseMode w
       /\ sound_commands w' = sound_commands w)
      \/ (singleVerseEndTimeRef w <> None /\ soundRef w <> None
          /\ singleVerseEndTimeRef w' = None
          /\ isSingleVerseMode w' = false)).
Proof.
  unfold status_update.
  destruct (soundRef w) as [closure|] eqn:Hs; [|simpl; auto 10].
  destruct status as [|st]; [simpl; auto 10|].
  unfold onPlaybackStatusUpdate. cbv zeta.
  destruct (isPlaying st);
    [|destruct ((positionMillis st >? 0) && negb (didJustFinish st))];
    cbn [setTimes setPlaybackState singleVerseEndTimeRef];
    destruct (singleVerseEndTimeRef w) as [e|] eqn:He;
    try destruct (positionMillis st >=? e);
    repeat match goal with
           | |- context [match ?x with _ => _ end] => destruct x
           end;
    cbn; rewrite ?Hs, ?He;
    first [ split; [reflexivity|]; left; repeat split; reflexivity
          | split; [reflexivity|]; right; repeat split; congruence ].
Qed.

Lemma status_update_unarmed (status : PlaybackStatus) (w : World) :
  unarmed w ->
  unarmed (status_update status w)
  /\ sound_commands (status_update status w) = sound_commands w.
Proof.
  intros Hw.
  destruct (status_update_boundary status w)
    as (Hsound & [(Hb & _ & Hc) | (Hb & Hs & _)]).
  - split; [|exact Hc]. unfold unarmed in *. rewrite Hsound, Hb. exact Hw.
  - destruct Hw; contradiction.
Qed.

Lemma status_updates_unarmed (events : list PlaybackStatus) (w : World) :
  unarmed w -> plays_on events w.
Proof.
  unfold plays_on, status_updates. revert w.
  induction events as [|status events IH]; intros w Hw; [reflexivity|].
  simpl. destruct (status_update_unarmed status w Hw) as [Hw' Hc].
  now rewrite IH, Hc.
Qed.

Lemma pause_unarmed (w : World) : unarmed (pause w).
Proof.
  unfold pause, unarmed. destruct (soundRef w) eqn:E; [right|left]; auto.
Qed.

Lemma stop_unarmed (w : World) : unarmed (stop w).
Proof. right. reflexivity. Qed.

Lemma resume_unarmed (w : World) :
  falsy_str (audioUrl w) = false -> unarmed (fst (resume sound_rejects w)).
Proof.
  intros Hurl. unfold resume, bind, read, modify, clearVerseEndBoundary,
    try_catch, await_sound, ret.
  destruct (soundRef w) eqn:E; [|now left].
  rewrite Hurl. cbn. destruct (sound_rejects PlayAsync); right; reflexivity.
Qed.

Lemma playSurah_unarmed (load : Z -> Async World unit)
  (surahId : Z) (fromVerse : option Z) (w : World) :
  currentChapterId w = Some surahId ->
  falsy_str (audioUrl w) = false ->
  unarmed (fst (playSurah sound_rejects load surahId fromVerse w)).
Proof.
  intros Hch Hurl. right.
  unfold playSurah, bind, ensureSound, read, modify, clearVerseEndBoundary,
    try_catch, await_sound, ret.
  destruct (soundRef w); cbn -[getVerseTimingByNumber];
    rewrite Hch, Z.eqb_refl, Hurl; cbn -[getVerseTimingByNumber];
    (destruct (truthy_number fromVerse) as [v|];
     [destruct (getVerseTimingByNumber surahId v (verseTimings w))
        as [timing|];
      [destruct (sound_rejects (SetPositionAsync (timestamp_from timing)))|]
     |]);
    cbn; try reflexivity; destruct (sound_rejects PlayAsync); reflexivity.
Qed.

(** X8: only [playVerse] arms the stop at a verse's end. After [pause]
    or [stop], after a [resume] that acts (audio is loaded), and after
    [playSurah] on the loaded surah, no status event from the player,
    whatever position it reports, makes the provider send a command to
    the sound: a verse that was started alone and then paused and
    resumed plays on past its end, and a surah is never cut. *)
Theorem only_playVerse_arms_the_stop (events : list PlaybackStatus)
  (w : World) :
  plays_on events (pause w)
  /\ plays_on events (stop w)
  /\ (falsy_str (audioUrl w) = false ->
      plays_on events (fst (resume sound_rejects w)))
  /\ (forall load surahId fromVerse,
        currentChapterId w = Some surahId ->
        falsy_str (audioUrl w) = false ->
        plays_on events
          (fst (playSurah sound_rejects load surahId fromVerse w))).
Proof.
  split; [|split; [|split]].
  - apply status_updates_unarmed, pause_unarmed.
  - apply status_updates_unarmed, stop_unarmed.
  - intros Hurl. now apply status_updates_unarmed, resume_unarmed.
  - intros load surahId fromVerse Hch Hurl.
    now apply status_updates_unarmed, playSurah_unarmed.
Qed.

(** *** The boundary and the single-verse mode *)

Lemma armed_none (w : World) :
  singleVerseEndTimeRef w = None -> armed_in_single_verse_mode w.
Proof. intros H Hne. contradiction. Qed.

Lemma armed_mode (w : World) :
  isSingleVerseMode w = true -> armed_in_single_verse_mode w.
Proof. intros H _. exact H. Qed.

Lemma armed_same (w w' : World) :
  singleVerseEndTimeRef w' = singleVerseEndTimeRef w ->
  isSingleVerseMode w' = isSingleVerseMode w ->
  armed_in_single_verse_mode w -> armed_in_single_verse_mode w'.
Proof. unfold armed_in_single_verse_mode. intros -> ->. auto. Qed.

Lemma status_update_armed (status : PlaybackStatus) (w : World) :
  armed_in_single_verse_mode w ->
  armed_in_single_verse_mode (status_update status w).
Proof.
  intros Hw.
  destruct (status_update_boundary status w)
    as (_ & [(Hb & Hm & _) | (_ & _ & Hb & _)]).
  - now apply (armed_same w).
  - now apply armed_none.
Qed.

Lemma resume_armed (w : World) :
  armed_in_single_verse_mode w ->
  armed_in_single_verse_mode (fst (resume sound_rejects w)).
Proof.
  intros Hw. unfold resume, bind, read, modify, clearVerseEndBoundary,
    try_catch, await_sound, ret.
  destruct (soundRef w) eqn:E; [|exact Hw].
  destruct (falsy_str (audioUrl w)); [exact Hw|].
  cbn. destruct (sound_rejects PlayAsync); now apply armed_none.
Qed.

Lemma pause_armed (w : World) :
  armed_in_single_verse_mode w -> armed_in_single_verse_mode (pause w).
Proof.
  intros Hw. unfold pause. destruct (soundRef w); [|exact Hw].
  now apply armed_none.
Qed.

Section Loader.

Variable load : Z -> Async World unit.
Hypothesis load_armed :
  forall s w,
    armed_in_single_verse_mode w ->
    armed_in_single_verse_mode (fst (load s w)).

Lemma playVerse_armed (surahId verseNumber : Z) (w : World) :
  armed_in_single_verse_mode w ->
  armed_in_single_verse_mode
    (fst (playVerse sound_rejects load surahId verseNumber w)).
Proof.
  intros Hw.
  unfold playVerse, bind, ensureSound, read, modify, clearVerseEndBoundary,
    try_finally, try_catch, await_sound.
  destruct (soundRef w); cbn -[getVerseTimingByNumber];
    (destruct (negb _ || falsy_str (audioUrl w));
     [apply load_armed; now apply (armed_same w)|]);
    (destruct (getVerseTimingByNumber surahId verseNumber (verseTimings w))
       as [timing|]; [|now apply (armed_same w)]);
    cbn;
    (destruct (sound_rejects (SetPositionAsync (timestamp_from timing)));
     [now apply armed_none|]);
    cbn; destruct (sound_rejects PlayAsync); now apply armed_mode.
Qed.

Lemma playSurah_armed (surahId : Z) (fromVerse : option Z) (w : World) :
  armed_in_single_verse_mode w ->
  armed_in_single_verse_mode
    (fst (playSurah sound_rejects load surahId fromVerse w)).
Proof.
  intros Hw.
  unfold playSurah, bind, ensureSound, read, modify, clearVerseEndBoundary,
    try_catch, await_sound, ret.
  destruct (soundRef w); cbn -[getVerseTimingByNumber];
    (destruct (negb _ || falsy_str (audioUrl w));
     [apply load_armed; now apply (armed_same w)|]);
    (destruct (truthy_number fromVerse) as [v|];
     [destruct (getVerseTimingByNumber surahId v (verseTimings w))
        as [timing|];
      [destruct (sound_rejects (SetPositionAsync (timestamp_from timing)))|]
     |]);
    cbn; try (now apply armed_none);
    destruct (sound_rejects PlayAsync); now apply armed_none.
Qed.

End Loader.

(** X9: in every state that the provider reaches, a stop boundary is
    armed only while the single-verse mode is on. Each control
    ([playVerse], [playSurah], [pause], [resume], [togglePlayPause],
    [stop], [setReciter]) and each status event keeps this, provided
    loading a surah keeps it. *)
Theorem boundary_only_in_single_verse_mode (actions : list Action)
  (p : Provider) :
  (forall r s w,
     armed_in_single_verse_mode w ->
     armed_in_single_verse_mode (fst (loadSurahAudio r s w))) ->
  armed_in_single_verse_mode (world p) ->
  armed_in_single_verse_mode
    (world (perform_all sound_rejects loadSurahAudio actions p)).
Proof.
  intros Hload. unfold perform_all. revert p.
  induction actions as [|a actions IH]; intros p Hp; [exact Hp|].
  simpl. apply IH. clear IH.
  destruct a; simpl.
  - apply playVerse_armed; [apply Hload | exact Hp].
  - apply playSurah_armed; [apply Hload | exact Hp].
  - now apply pause_armed.
  - now apply resume_armed.
  - unfold togglePlayPause, bind, read.
    destruct (playbackState (world p)); cbn;
      first [now apply resume_armed | now apply pause_armed].
  - now apply armed_none.
  - unfold setReciter. destruct (negb _); [|exact Hp].
    now apply (armed_same (world p)).
  - now apply status_update_armed.
Qed.

(** X10: choosing another reciter drops the loaded audio, so the next
    [playVerse] or [playSurah], for any surah, sends nothing to the
    sound itself: it records the deferred call in [pendingActionRef] and
    hands over to [loadSurahAudio]. *)
Theorem setReciter_forces_reload (reciterId : ReciterId) (p : Provider)
  (surahId verseNumber : Z) (fromVerse : option Z) :
  reciter_number reciterId <> reciter_number (selectedReciterId p) ->
  let p' := setReciter reciterId p in
  selectedReciterId p' = reciterId
  /\ audioUrl (world p') = None
  /\ currentChapterId (world p') = None
  /\ verseTimings (world p') = []
  /\ (exists w',
        playVerse sound_rejects (loadSurahAudio reciterId) surahId
          verseNumber (world p')
        = loadSurahAudio reciterId surahId w'
        /\ pendingActionRef w'
           = Some (PendingPlayVerse surahId verseNumber)
        /\ sound_commands w' = sound_commands (world p))
  /\ (exists w',
        playSurah sound_rejects (loadSurahAudio reciterId) surahId
          fromVerse (world p')
        = loadSurahAudio reciterId surahId w'
        /\ pendingActionRef w'
           = Some (PendingPlaySurah surahId fromVerse)
        /\ sound_commands w' = sound_commands (world p)).
Proof.
  intros Hne p'. unfold p', setReciter.
  destruct (Z.eqb_spec (reciter_number reciterId)
              (reciter_number (selectedReciterId p))); [contradiction|].
  cbn [negb world selectedReciterId].
  repeat (split; [reflexivity|]). split.
  - unfold playVerse, bind, ensureSound, read, modify.
    destruct (soundRef (world p)) eqn:E; cbn; rewrite E; cbn;
      eexists; (split; [reflexivity|]); split; reflexivity.
  - unfold playSurah, bind, ensureSound, read, modify.
    destruct (soundRef (world p)) eqn:E; cbn; rewrite E; cbn;
      eexists; (split; [reflexivity|]); split; reflexivity.
Qed.

End AudioControlsFacts.

(** A run of X8: verse 1:2 plays alone with the boundary at 9000; after
    pause and resume, status events at 8990, 9010 and 20000 ms send
    nothing more to the sound. *)
Lemma only_playVerse_arms_the_stop_witness :
  let events :=
    [AudioContext.Loaded (Samples.status_at 8990);
     AudioContext.Loaded (Samples.status_at 9010);
     AudioContext.Loaded (Samples.status_at 20000)] in
  let resumed :=
    fst (AudioControls.resume (fun _ => None)
           (AudioControls.pause Cases.playing_alone)) in
  AudioContext.singleVerseEndTimeRef Cases.playing_alone = Some 9000
  /\ AudioContext.playbackState resumed = AudioContext.playing
  /\ Terms.plays_on events resumed.
Proof.
  split; [reflexivity|]. split; [reflexivity|].
  refine (proj1 (proj2 (proj2
            (only_playVerse_arms_the_stop (fun _ => None)
               [AudioContext.Loaded (Samples.status_at 8990);
                AudioContext.Loaded (Samples.status_at 9010);
                AudioContext.Loaded (Samples.status_at 20000)]
               (AudioControls.pause Cases.playing_alone)))) _).
  vm_compute. reflexivity.
Defined.

(** A run of X9 through every control. *)
Lemma boundary_only_in_single_verse_mode_witness :
  let actions :=
    [Terms.PlayVerse 1 2;
     Terms.StatusUpdate (AudioContext.Loaded (Samples.status_at 4100));
     Terms.Pause; Terms.Resume; Terms.PlayVerse 1 1;
     Terms.SetReciter AudioService.SUDAIS; Terms.TogglePlayPause;
     Terms.PlaySurah 1 (Some 2); Terms.Stop] in
  Terms.armed_in_single_verse_mode (AudioControls.world Cases.listener)
  /\ Terms.armed_in_single_verse_mode
       (AudioControls.world
          (Terms.perform_all (fun _ => None) Cases.loading_only actions
             Cases.listener)).
Proof.
  assert (H0 : Terms.armed_in_single_verse_mode
                 (AudioControls.world Cases.listener)).
  { intros H. exfalso. apply H. reflexivity. }
  split; [exact H0|].
  apply (boundary_only_in_single_verse_mode (fun _ => None)
           Cases.loading_only); [|exact H0].
  intros r s w _ H. exfalso. apply H. reflexivity.
Defined.

(** A run of X10: from Mishary Alafasy to Sudais with surah 1 loaded. *)
Lemma setReciter_forces_reload_witness :
  let p' := AudioControls.setReciter AudioService.SUDAIS Cases.listener in
  AudioControls.selectedReciterId p' = AudioService.SUDAIS
  /\ AudioContext.audioUrl (AudioControls.world p') = None
  /\ AudioContext.currentChapterId (AudioControls.world p') = None
  /\ AudioContext.verseTimings (AudioControls.world p') = []
  /\ (exists w',
        AudioContext.playVerse (fun _ => None)
          (Cases.loading_only AudioService.SUDAIS) 1 2 (AudioControls.world p')
        = Cases.loading_only AudioService.SUDAIS 1 w'
        /\ AudioContext.pendingActionRef w'
           = Some (AudioContext.PendingPlayVerse 1 2)
        /\ AudioContext.sound_commands w'
           = AudioContext.sound_commands (AudioControls.world Cases.listener))
  /\ (exists w',
        AudioControls.playSurah (fun _ => None)
          (Cases.loading_only AudioService.SUDAIS) 1 None
          (AudioControls.world p')
        = Cases.loading_only AudioService.SUDAIS 1 w'
        /\ AudioContext.pendingActionRef w'
           = Some (AudioContext.PendingPlaySurah 1 None)
        /\ AudioContext.sound_commands w'
           = AudioContext.sound_commands (AudioControls.world Cases.listener)).
Proof.
  apply (setReciter_forces_reload (fun _ => None) Cases.loading_only
           AudioService.SUDAIS Cases.listener 1 2 None).
  discriminate.
Defined.

(** ** hooks/useBookmarks.ts: toggling, thematic passages *)

Section ThematicBookmarksFacts.

Import Bookmarks ThematicBookmarks Spec.

Variable getUser : option User.
Variable now : Z.
Variable nowISO : string.
Variable insert_verse_bookmark : InsertRow -> Outcome (option DbError).
Variable delete_verse_bookmark : string -> Z -> Z -> Outcome (option DbError).
Variable insert_thematic_bookmark : ThematicRow -> Outcome (option DbError).
Variable delete_thematic_bookmark : string -> string
                                    -> Outcome (option DbError).
Variable select_verse_bookmarks
  : string -> option (list Bookmark) * option DbError.
Variable select_thematic_bookmarks
  : string -> option (list ThematicBookmark) * option DbError.



(** A call run from start to end is its two halves with nothing in
    between, followed by the refresh when one was started. *)
Lemma addThematicPassageBookmark_in_phases (passageId : string)
  (surahNumber : Z) (themeName : string) (note : option string) (w : World) :
  addThematicPassageBookmark getUser now nowISO insert_thematic_bookmark
    select_verse_bookmarks select_thematic_bookmarks passageId surahNumber
    themeName note w
  = match addThematicPassageBookmark_begin getUser now nowISO passageId
            surahNumber themeName note w with
    | (w1, None) => w1
    | (w1, Some p) =>
        match addThematicPassageBookmark_settle p
                (insert_thematic_bookmark (inserted_thematic_row p)) w1 with
        | (w2, true) =>
            fetchBookmarks getUser select_verse_bookmarks
              select_thematic_bookmarks w2
        | (w2, false) => w2
        end
    end.
Proof.
  unfold addThematicPassageBookmark, addThematicPassageBookmark_begin,
    addThematicPassageBookmark_settle.
  destruct getUser as [user|]; [|reflexivity].
  cbn [inserted_thematic_row optimisticThematicBookmark theme_name].
  destruct (insert_thematic_bookmark _) as [[err|]|t]; try reflexivity.
  unfold fetchBookmarks.
  destruct (select_verse_bookmarks (user_id user)) as [verseData [e|]];
    [reflexivity|].
  destruct (select_thematic_bookmarks (user_id user))
    as [thematicData [e|]]; reflexivity.
Qed.


Lemma existsb_filter_out {A} (f g : A -> bool) (l : list A) :
  (forall x, g x = true -> f x = false) ->
  existsb g (List.filter (fun x => negb (f x)) l) = existsb g l.
Proof.
  intros H. induction l as [|a l IH]; [reflexivity|].
  simpl. destruct (f a) eqn:Ef; simpl.
  - destruct (g a) eqn:Eg; [|exact IH].
    apply H in Eg. congruence.
  - now rewrite IH.
Qed.

Lemma existsb_filter_self {A} (f : A -> bool) (l : list A) :
  existsb f (List.filter (fun x => negb (f x)) l) = false.
Proof.
  induction l as [|a l IH]; [reflexivity|].
  simpl. destruct (f a) eqn:Ef; simpl; [exact IH|].
  now rewrite Ef, IH.
Qed.

(** X12: toggling a bookmarked verse removes the bookmarks of that verse
    and nothing else. For a signed-in user and a delete that the backend
    accepts, after [toggleBookmark(s, v)] on a bookmarked verse the
    verse is no longer bookmarked, every other verse is bookmarked
    exactly if it was before, the remaining bookmarks keep their order,
    and the thematic bookmarks are untouched. *)
Theorem toggleBookmark_removes_only_that_verse (user : User)
  (surahNumber verseNumber : Z) (w : World) :
  getUser = Some user ->
  isBookmarked surahNumber verseNumber w = true ->
  delete_verse_bookmark (user_id user) surahNumber verseNumber
  = Returns None ->
  let w' := toggleBookmark getUser now nowISO insert_verse_bookmark
              delete_verse_bookmark select_verse_bookmarks
              select_thematic_bookmarks surahNumber verseNumber w in
  isBookmarked surahNumber verseNumber w' = false
  /\ (forall s v,
        (s, v) <> (surahNumber, verseNumber) ->
        isBookmarked s v w' = isBookmarked s v w)
  /\ bookmarks w'
     = List.filter
         (fun b => negb ((surah_number b =? surahNumber)
                         && (verse_number b =? verseNumber)))
         (bookmarks w)
  /\ thematicBookmarks w' = thematicBookmarks w.
Proof.
  intros Huser Hmarked Hdel w'.
  assert (Hw' : bookmarks w'
                = List.filter
                    (fun b => negb ((surah_number b =? surahNumber)
                                    && (verse_number b =? verseNumber)))
                    (bookmarks w)
                /\ thematicBookmarks w' = thematicBookmarks w).
  { unfold w', toggleBookmark. rewrite Hmarked.
    unfold removeBookmark. rewrite Huser, Hdel. split; reflexivity. }
  destruct Hw' as [Hb Ht]. split; [|split; [|split]]; try assumption.
  - unfold isBookmarked. rewrite Hb.
    apply (existsb_filter_self
             (fun b => (surah_number b =? surahNumber)
                       && (verse_number b =? verseNumber))).
  - intros s v Hne. unfold isBookmarked. rewrite Hb.
    apply (existsb_filter_out
             (fun b => (surah_number b =? surahNumber)
                       && (verse_number b =? verseNumber))).
    intros b Hsv. apply andb_true_iff in Hsv as [Hs Hv].
    apply Z.eqb_eq in Hs, Hv.
    destruct (Z.eqb_spec (surah_number b) surahNumber);
      destruct (Z.eqb_spec (verse_number b) verseNumber);
      try reflexivity.
    exfalso. apply Hne. congruence.
Qed.

End ThematicBookmarksFacts.


(** A refresh started by an earlier call lands while the insert is
    pending: the rollback then works on the refreshed list, which is not
    the list that the call started from. *)
Lemma refresh_lands_before_rollback :
  let w := Cases.themes_world [] in
  let started :=
    ThematicBookmarks.addThematicPassageBookmark_begin (Some Samples.reader)
      5 "1970-01-01T00:00:00.005Z" "2-1-5" 2 "Guidance" None w in
  let refreshed :=
    Bookmarks.fetchBookmarks (Some Samples.reader)
      (fun _ => (Some [Samples.bookmark_2_255], None))
      (fun _ => (Some [Cases.theme_mercy], None)) (fst started) in
  exists p,
    snd started = Some p
    /\ Bookmarks.thematicBookmarks refreshed = [Cases.theme_mercy]
    /\ Bookmarks.thematicBookmarks
         (fst (ThematicBookmarks.addThematicPassageBookmark_settle p
                 (Throws (ThrownError "Network request failed")) refreshed))
       = [Cases.theme_mercy]
    /\ Bookmarks.thematicBookmarks w = [].
Proof. eexists. repeat split. Qed.

(** A run of X12: verse 2:255 is bookmarked and toggled. *)
Lemma toggleBookmark_removes_only_that_verse_witness :
  let w := Samples.bookmarks_world
             [Samples.bookmark_1_5; Samples.bookmark_2_255] in
  let w' := ThematicBookmarks.toggleBookmark (Some Samples.reader) 5
              "1970-01-01T00:00:00.005Z" (fun _ => Returns None)
              (fun _ _ _ => Returns None)
              (fun _ => (None, None)) (fun _ => (None, None)) 2 255 w in
  Bookmarks.isBookmarked 2 255 w' = false
  /\ (forall s v,
        (s, v) <> (2, 255) ->
        Bookmarks.isBookmarked s v w' = Bookmarks.isBookmarked s v w)
  /\ Bookmarks.bookmarks w' = [Samples.bookmark_1_5].
Proof.
  destruct (toggleBookmark_removes_only_that_verse (Some Samples.reader) 5
              "1970-01-01T00:00:00.005Z" (fun _ => Returns None)
              (fun _ _ _ => Returns None)
              (fun _ => (None, None)) (fun _ => (None, None))
              Samples.reader 2 255
              (Samples.bookmarks_world
                 [Samples.bookmark_1_5; Samples.bookmark_2_255])
              eq_refl eq_refl eq_refl) as (H1 & H2 & H3 & _).
  split; [exact H1|]. split; [exact H2|]. exact H3.
Defined.

(** ** hooks/useStripeSubscription.ts: cache helpers *)

Section CacheHelpersFacts.

Import StripeSubscription SubscriptionHook Terms.

Variable storage_rejects : StorageOp -> option Thrown.
Variable JSON_stringify : Json -> string.
Variable JSON_parse : string -> Outcome Json.

Lemma getCachedSubscription_cases (now : Z) (userId : string)
  (store : gmap string string) :
  exists v,
    getCachedSubscription storage_rejects JSON_parse now userId store
    = (store, Returns v)
    \/ (v = null
        /\ getCachedSubscription storage_rejects JSON_parse now userId store
           = (foldr delete store [SUBSCRIPTION_CACHE_KEY;
                                  SUBSCRIPTION_CACHE_EXPIRY_KEY],
              Returns null)).
Proof.
  unfold getCachedSubscription, try_catch, bind, getItem, multiRemove,
    lift, ret.
  destruct (storage_rejects (GetItem SUBSCRIPTION_CACHE_KEY));
    [eexists; left; reflexivity|].
  destruct (storage_rejects (GetItem SUBSCRIPTION_CACHE_EXPIRY_KEY));
    [eexists; left; reflexivity|].
  destruct (store !! SUBSCRIPTION_CACHE_KEY) as [cached|];
    [|eexists; left; reflexivity].
  destruct (store !! SUBSCRIPTION_CACHE_EXPIRY_KEY) as [expiry|];
    [|eexists; left; reflexivity].
  destruct (String.eqb cached "" || String.eqb expiry "");
    [eexists; left; reflexivity|].
  destruct (expired now expiry).
  - destruct (storage_rejects (MultiRemove _)); eexists;
      [left; reflexivity | right; split; reflexivity].
  - destruct (JSON_parse cached) as [parsed|t]; [|eexists; left; reflexivity].
    destruct (get "userId" parsed) as [uid|t];
      [|eexists; left; reflexivity].
    destruct (differs_from uid userId).
    + destruct (storage_rejects (MultiRemove _)); eexists;
        [left; reflexivity | right; split; reflexivity].
    + destruct (get "subscriptions" parsed); eexists; left; reflexivity.
Qed.

Lemma cacheSubscription_cases (now : Z) (userId : string)
  (subscriptions : StripeSubscriptions) (store : gmap string string) :
  exists store',
    cacheSubscription storage_rejects JSON_stringify now userId
      subscriptions store = (store', Returns tt)
    /\ forall k,
         k <> SUBSCRIPTION_CACHE_KEY -> k <> SUBSCRIPTION_CACHE_EXPIRY_KEY ->
         store' !! k = store !! k.
Proof.
  unfold cacheSubscription, try_catch, bind, setItem, ret.
  destruct (storage_rejects (SetItem SUBSCRIPTION_CACHE_KEY _));
    [eexists; split; [reflexivity | auto]|].
  destruct (storage_rejects (SetItem SUBSCRIPTION_CACHE_EXPIRY_KEY _));
    eexists; (split; [reflexivity|]); intros k Hk He.
  - now rewrite lookup_insert_ne by congruence.
  - now rewrite !lookup_insert_ne by congruence.
Qed.

Lemma clearSubscriptionCache_cases (store : gmap string string) :
  clearSubscriptionCache storage_rejects store
  = (match storage_rejects (MultiRemove [SUBSCRIPTION_CACHE_KEY;
                                         SUBSCRIPTION_CACHE_EXPIRY_KEY]) with
     | Some _ => store
     | None => foldr delete store [SUBSCRIPTION_CACHE_KEY;
                                   SUBSCRIPTION_CACHE_EXPIRY_KEY]
     end, Returns tt).
Proof.
  unfold clearSubscriptionCache, try_catch, multiRemove, ret.
  destruct (storage_rejects _); reflexivity.
Qed.

Lemma removed_other_key (store : gmap string string) (k : string) :
  k <> SUBSCRIPTION_CACHE_KEY -> k <> SUBSCRIPTION_CACHE_EXPIRY_KEY ->
  foldr delete store [SUBSCRIPTION_CACHE_KEY; SUBSCRIPTION_CACHE_EXPIRY_KEY]
    !! k = store !! k.
Proof.
  intros Hk He. simpl. now rewrite !lookup_delete_ne by congruence.
Qed.

(** X13: the cache functions are contained. Whatever the native store
    and the JSON parser do, [getCachedSubscription], [cacheSubscription],
    [clearSubscriptionCache] and [getCachedSubscriptionExists] never
    throw; [getCachedSubscription] either leaves the store as it is or
    removes the two cache keys and returns null; and none of them
    changes any key of the store other than the two cache keys. *)
Theorem cache_functions_are_contained (now : Z) (userId : string)
  (subscriptions : StripeSubscriptions) (store : gmap string string) :
  (exists v,
     getCachedSubscription storage_rejects JSON_parse now userId store
     = (store, Returns v)
     \/ getCachedSubscription storage_rejects JSON_parse now userId store
        = (foldr delete store [SUBSCRIPTION_CACHE_KEY;
                               SUBSCRIPTION_CACHE_EXPIRY_KEY],
           Returns null))
  /\ snd (cacheSubscription storage_rejects JSON_stringify now userId
            subscriptions store) = Returns tt
  /\ snd (clearSubscriptionCache storage_rejects store) = Returns tt
  /\ (forall u,
        exists b,
          snd (getCachedSubscriptionExists storage_rejects JSON_parse now u
                 store) = Returns b)
  /\ (forall k,
        k <> SUBSCRIPTION_CACHE_KEY -> k <> SUBSCRIPTION_CACHE_EXPIRY_KEY ->
        fst (getCachedSubscription storage_rejects JSON_parse now userId
               store) !! k = store !! k
        /\ fst (cacheSubscription storage_rejects JSON_stringify now userId
                  subscriptions store) !! k = store !! k
        /\ fst (clearSubscriptionCache storage_rejects store) !! k
           = store !! k
        /\ forall u,
             fst (getCachedSubscriptionExists storage_rejects JSON_parse
                    now u store) !! k = store !! k).
Proof.
  assert (Hget : forall u k,
            k <> SUBSCRIPTION_CACHE_KEY ->
            k <> SUBSCRIPTION_CACHE_EXPIRY_KEY ->
            fst (getCachedSubscription storage_rejects JSON_parse now u
                   store) !! k = store !! k).
  { intros u k Hk He.
    destruct (getCachedSubscription_cases now u store)
      as [v [-> | [_ ->]]]; [reflexivity|].
    now apply removed_other_key. }
  split; [|split; [|split; [|split]]].
  - destruct (getCachedSubscription_cases now userId store)
      as [v [H | [_ H]]]; exists v; auto.
  - destruct (cacheSubscription_cases now userId subscriptions store)
      as (store' & -> & _). reflexivity.
  - now rewrite clearSubscriptionCache_cases.
  - intros u. unfold getCachedSubscriptionExists.
    destruct (truthy_str u) as [id|]; [|eexists; reflexivity].
    unfold bind, ret.
    destruct (getCachedSubscription_cases now id store)
      as [v [-> | [_ ->]]]; eexists; reflexivity.
  - intros k Hk He. split; [now apply Hget|]. split; [|split].
    + destruct (cacheSubscription_cases now userId subscriptions store)
        as (store' & -> & Hother). now apply Hother.
    + rewrite clearSubscriptionCache_cases.
      destruct (storage_rejects _); [reflexivity|].
      now apply removed_other_key.
    + intros u. unfold getCachedSubscriptionExists.
      destruct (truthy_str u) as [id|]; [|reflexivity].
      unfold bind, ret. specialize (Hget id k Hk He).
      destruct (getCachedSubscription storage_rejects JSON_parse now id
                  store) as [st [v|t]]; exact Hget.
Qed.

(** X14: after [clearSubscriptionCache], when the store accepts the
    removal, nothing is cached for anybody: [getCachedSubscription]
    returns null for every user and time and leaves the store as it is,
    and [getCachedSubscriptionExists] answers false, also for a missing
    or empty user id. *)
Theorem cleared_cache_is_empty (store : gmap string string) :
  storage_rejects (MultiRemove [SUBSCRIPTION_CACHE_KEY;
                                SUBSCRIPTION_CACHE_EXPIRY_KEY]) = None ->
  let cleared := fst (clearSubscriptionCache storage_rejects store) in
  cleared !! SUBSCRIPTION_CACHE_KEY = None
  /\ cleared !! SUBSCRIPTION_CACHE_EXPIRY_KEY = None
  /\ (forall now userId,
        getCachedSubscription storage_rejects JSON_parse now userId cleared
        = (cleared, Returns null))
  /\ (forall now userId,
        getCachedSubscriptionExists storage_rejects JSON_parse now userId
          cleared
        = (cleared, Returns false)).
Proof.
  intros Haccept cleared.
  assert (Hkeys : cleared !! SUBSCRIPTION_CACHE_KEY = None
                  /\ cleared !! SUBSCRIPTION_CACHE_EXPIRY_KEY = None).
  { unfold cleared. rewrite clearSubscriptionCache_cases, Haccept.
    apply cache_removed. }
  destruct Hkeys as [Hk He].
  assert (Hget : forall now userId,
            getCachedSubscription storage_rejects JSON_parse now userId
              cleared = (cleared, Returns null)).
  { intros now userId.
    unfold getCachedSubscription, try_catch, bind, getItem, ret.
    destruct (storage_rejects (GetItem SUBSCRIPTION_CACHE_KEY));
      [reflexivity|].
    destruct (storage_rejects (GetItem SUBSCRIPTION_CACHE_EXPIRY_KEY));
      [reflexivity|].
    rewrite Hk. reflexivity. }
  split; [exact Hk|]. split; [exact He|]. split; [exact Hget|].
  intros now userId. unfold getCachedSubscriptionExists.
  destruct (truthy_str userId) as [id|]; [|reflexivity].
  unfold bind, ret. rewrite Hget. reflexivity.
Qed.


End CacheHelpersFacts.

(** A run of X14 on a store that holds a cached status. *)
Lemma cleared_cache_is_empty_witness :
  let store : gmap string string :=
    fst (StripeSubscription.cacheSubscription (fun _ => None)
           Samples.print_json 1700000000000 "user-1"
           Samples.bundle_subscriber ∅) in
  let cleared :=
    fst (SubscriptionHook.clearSubscriptionCache (fun _ => None) store) in
  store !! StripeSubscription.SUBSCRIPTION_CACHE_KEY <> None
  /\ (forall now userId,
        StripeSubscription.getCachedSubscription (fun _ => None)
          (fun _ => Throws ThrownValue) now userId cleared
        = (cleared, Returns StripeSubscription.null))
  /\ (forall now userId,
        SubscriptionHook.getCachedSubscriptionExists (fun _ => None)
          (fun _ => Throws ThrownValue) now userId cleared
        = (cleared, Returns false)).
Proof.
  intros store cleared. split; [discriminate|].
  destruct (cleared_cache_is_empty (fun _ => None)
              (fun _ => Throws ThrownValue) store eq_refl)
    as (_ & _ & Hget & Hexists).
  split; [exact Hget | exact Hexists].
Defined.


(** ** hooks/useStripeSubscription.ts: a check from start to cache *)

Section SubscriptionHookFacts.

Import StripeSubscription SubscriptionHook Notions Terms.

Variable storage_rejects : StorageOp -> option Thrown.
Variable JSON_stringify : Json -> string.
Variable JSON_parse : string -> Outcome Json.

Lemma cacheSubscription_returns (now : Z) (userId : string)
  (subscriptions : StripeSubscriptions) (store : gmap string string) :
  snd (cacheSubscription storage_rejects JSON_stringify now userId
         subscriptions store) = Returns tt.
Proof.
  unfold cacheSubscription, try_catch, bind, setItem, ret.
  destruct (storage_rejects (SetItem SUBSCRIPTION_CACHE_KEY _));
    [reflexivity|].
  destruct (storage_rejects (SetItem SUBSCRIPTION_CACHE_EXPIRY_KEY _));
    reflexivity.
Qed.

(** The state after a check that the backend answers with [data]. *)
Lemma performCheck_settle_success (env : CheckEnv) (pc : PendingCheck)
  (data : CheckData) (w : World) :
  check_succeeds env data ->
  let newSubscriptions :=
    compute_subscriptions (currentPlans pc) (data_subscriptions data) in
  let w' := fst (performCheck_settle storage_rejects JSON_stringify env pc
                   w) in
  subscriptions w' = newSubscriptions
  /\ loading w' = false
  /\ error w' = None
  /\ hasCachedData w' = true
  /\ inFlightRequestRef w' = None
  /\ lastCheckedUserIdRef w' = Some (user_id (currentUser pc))
  /\ hasCompletedInitialCheckRef w' = true
  /\ pending w' = pending w
  /\ store w'
     = fst (cacheSubscription storage_rejects JSON_stringify (env_now env)
              (user_id (currentUser pc)) newSubscriptions (store w)).
Proof.
  intros (session & Hs & Htok & Hinv & Herr) newSubscriptions w'.
  unfold w', performCheck_settle, try_finally, try_catch, bind, lift,
    modify, on_store.
  rewrite Hs. cbn -[cacheSubscription compute_subscriptions no_token].
  rewrite Htok, Hinv. cbn -[cacheSubscription compute_subscriptions].
  rewrite Herr. fold newSubscriptions.
  pose proof (cacheSubscription_returns (env_now env)
                (user_id (currentUser pc)) newSubscriptions (store w))
    as Hret.
  destruct (cacheSubscription storage_rejects JSON_stringify (env_now env)
              (user_id (currentUser pc)) newSubscriptions (store w))
    as [st o].
  simpl in Hret. subst o. cbn. repeat split; reflexivity.
Qed.

(** X16: what a successful check shows is what the cache serves. When
    the check behind promise [p] settles with an answer from the
    backend, the hook shows the subscriptions computed from the answer,
    with [hasCachedData] set, the spinner off and the error cleared; and
    with a store that does not reject and a parser that reads the
    written document back, [getCachedSubscription] for the checked user
    returns exactly the subscriptions shown, at any time up to one hour
    after the check. *)
Theorem successful_check_is_cached (p : nat) (env : CheckEnv)
  (pc : PendingCheck) (data : CheckData) (w : World) :
  (forall op, storage_rejects op = None) ->
  running p w = Some pc ->
  check_succeeds env data ->
  let w' := settle storage_rejects JSON_stringify p env w in
  let doc := json_of_cached {| cached_subscriptions := subscriptions w';
                               cached_userId := user_id (currentUser pc) |} in
  JSON_stringify doc <> "" ->
  JSON_parse (JSON_stringify doc) = Returns doc ->
  subscriptions w'
  = compute_subscriptions (currentPlans pc) (data_subscriptions data)
  /\ hasCachedData w' = true
  /\ loading w' = false
  /\ error w' = None
  /\ forall now,
       now <= env_now env + 3600000 ->
       getCachedSubscription storage_rejects JSON_parse now
         (user_id (currentUser pc)) (store w')
       = (store w', Returns (Some (json_of_subscriptions (subscriptions w')))).
Proof.
  intros Hreliable Hrun Hok w'.
  assert (Hw' : w' = fst (performCheck_settle storage_rejects JSON_stringify
                            env pc
                            (setPending
                               (List.filter
                                  (fun pc => negb (Nat.eqb (promise pc) p))
                                  (pending w))
                               (next_promise w) w))).
  { unfold w', settle. unfold running in Hrun. now rewrite Hrun. }
  destruct (performCheck_settle_success env pc data
              (setPending
                 (List.filter (fun pc => negb (Nat.eqb (promise pc) p))
                    (pending w))
                 (next_promise w) w) Hok)
    as (Hsubs & Hload & Herr & Hcached & _ & _ & _ & _ & Hstore).
  rewrite <- Hw' in Hsubs, Hload, Herr, Hcached, Hstore.
  cbv zeta. rewrite Hsubs. intros Htext Hparse.
  repeat (split; [assumption || reflexivity|]).
  intros now Hnow.
  destruct (cacheSubscription_store storage_rejects JSON_stringify Hreliable
              (env_now env) (user_id (currentUser pc))
              (compute_subscriptions (currentPlans pc)
                 (data_subscriptions data))
              (store (setPending
                        (List.filter
                           (fun pc => negb (Nat.eqb (promise pc) p))
                           (pending w))
                        (next_promise w) w)))
    as [Hdoc Hexp].
  rewrite <- Hstore in Hdoc, Hexp.
  rewrite (getCachedSubscription_read storage_rejects JSON_parse Hreliable
             now (env_now env + CACHE_DURATION_MS)
             (user_id (currentUser pc)) (user_id (currentUser pc))
             (compute_subscriptions (currentPlans pc)
                (data_subscriptions data))
             _ (store w') Hdoc Hexp Htext Hparse).
  change CACHE_DURATION_MS with 3600000.
  replace (now >? env_now env + 3600000) with false by lia.
  now rewrite String.eqb_refl.
Qed.

(** X17: the first-check effect runs a check once for each user. After
    a check for user [u] has settled with an answer from the backend,
    re-running the effect for [u], with any session that has a token and
    any plans, changes nothing: no new check is started. While auth or
    the plans are loading the effect does nothing at all, and without a
    token or a user id it resets the state to the defaults without
    starting a check. *)
Theorem first_check_runs_once (p : nat) (env : CheckEnv) (pc : PendingCheck)
  (data : CheckData) (w : World) (session : option Session)
  (plans : list SubscriptionPlan) :
  running p w = Some pc ->
  check_succeeds env data ->
  no_token session = false ->
  user_id (currentUser pc) <> "" ->
  let w' := settle storage_rejects JSON_stringify p env w in
  initialCheckEffect false false (Some (currentUser pc)) session plans w'
  = w'
  /\ (forall user session plans authLoading plansLoading,
        authLoading || plansLoading = true ->
        initialCheckEffect authLoading plansLoading user session plans w'
        = w')
  /\ (forall user session plans,
        no_token session || no_user_id user = true ->
        let w'' := initialCheckEffect false false user session plans w' in
        pending w'' = pending w'
        /\ inFlightRequestRef w'' = inFlightRequestRef w'
        /\ subscriptions w'' = DEFAULT_SUBSCRIPTIONS
        /\ loading w'' = false).
Proof.
  intros Hrun Hok Htok Hid w'.
  assert (Hw' : lastCheckedUserIdRef w' = Some (user_id (currentUser pc))
                /\ hasCompletedInitialCheckRef w' = true).
  { unfold w', settle. unfold running in Hrun. rewrite Hrun.
    destruct (performCheck_settle_success env pc data
                (setPending
                   (List.filter (fun pc => negb (Nat.eqb (promise pc) p))
                      (pending w))
                   (next_promise w) w) Hok)
      as (_ & _ & _ & _ & _ & Hlast & Hdone & _).
    split; assumption. }
  destruct Hw' as [Hlast Hdone]. split; [|split].
  - unfold initialCheckEffect, no_user_id, last_checked_is. cbn [orb].
    rewrite Htok, Hlast, Hdone, String.eqb_refl.
    destruct (String.eqb_spec (user_id (currentUser pc)) "");
      [contradiction | reflexivity].
  - intros user session' plans' authLoading plansLoading Hloading.
    unfold initialCheckEffect. now rewrite Hloading.
  - intros user session' plans' Hnone w''. unfold w'', initialCheckEffect.
    cbn [orb]. destruct user as [u|]; [rewrite Hnone|]; cbn; auto.
Qed.

(** *** The error shown *)

Lemma mentions_auth_guard (message : string) :
  negb (includes "Auth" message) && negb (includes "session" message) = true ->
  mentions_auth message = false.
Proof.
  unfold mentions_auth.
  destruct (includes "Auth" message), (includes "session" message);
    simpl; congruence.
Qed.

Lemma performCheck_settle_quiet (env : CheckEnv) (pc : PendingCheck) :
  respects quiet_step (performCheck_settle storage_rejects JSON_stringify
                         env pc).
Proof.
  assert (Hrefl : forall w, quiet_step w w) by (intros w H; exact H).
  assert (Htrans : forall a b c,
            quiet_step a b -> quiet_step b c -> quiet_step a c)
    by (intros a b c Hab Hbc H; auto).
  unfold performCheck_settle.
  repeat (first
    [ match goal with
      | |- forall _, respects _ _ => intro
      | |- respects _ (ret _) => apply respects_ret; assumption
      | |- respects _ (throw _) => apply respects_throw; assumption
      | |- respects _ (lift _) => apply respects_lift; assumption
      | |- respects _ (try_finally _ _) =>
          apply respects_try_finally; [assumption|..]
      | |- respects _ (try_catch _ _) =>
          apply respects_try_catch; [assumption|..]
      | |- respects _ (bind _ _) => apply respects_bind; [assumption|..]
      | |- respects _ (modify (setError (Some ?m))) =>
          apply respects_modify; intros ? _; unfold quiet_error; cbn;
          apply mentions_auth_guard; assumption
      | |- respects _ (modify (setError None)) =>
          apply respects_modify; intros ? _; exact I
      | |- respects _ (modify _) =>
          apply respects_modify; intros ? Hquiet; exact Hquiet
      | |- respects _ (on_store _) =>
          apply on_store_respects; intros ? ? Hquiet; exact Hquiet
      | |- respects _ (if ?c then _ else _) => destruct c eqn:?
      | |- respects _ (match ?x with _ => _ end) => destruct x eqn:?
      end ]).
Qed.

(** A running check that meets a failure whose message mentions "Auth"
    or "session": when the function resolves with the message (as its
    error, or in [data.error]) the subscriptions are reset to the
    default; when the call rejects with it, the [catch] block leaves
    the subscriptions as they are. The error is left as it was in every
    case. *)
Lemma settle_auth_failure (p : nat) (env : CheckEnv) (pc : PendingCheck)
  (session : option Session) (message : string) (w : World) :
  running p w = Some pc ->
  env_getSession env = Returns session ->
  no_token session = false ->
  mentions_auth message = true ->
  let w' := settle storage_rejects JSON_stringify p env w in
  (forall data,
     env_invoke env
     = Returns {| invoke_data := data; invoke_error := Some message |} ->
     subscriptions w' = DEFAULT_SUBSCRIPTIONS /\ error w' = error w)
  /\ (forall data,
        env_invoke env
        = Returns {| invoke_data := Some data; invoke_error := None |} ->
        data_error data = Some message ->
        subscriptions w' = DEFAULT_SUBSCRIPTIONS /\ error w' = error w)
  /\ (env_invoke env = Throws (ThrownError message) ->
      subscriptions w' = subscriptions w /\ error w' = error w).
Proof.
  intros Hrun Hs Htok Hm w'.
  assert (Hne : String.eqb message "" = false).
  { destruct (String.eqb_spec message "") as [->|]; [discriminate Hm|].
    reflexivity. }
  unfold w', settle. unfold running in Hrun. rewrite Hrun.
  unfold performCheck_settle, try_finally, try_catch, bind, lift, modify,
    throw.
  rewrite Hs. cbn -[mentions_auth includes no_token]. rewrite Htok.
  split; [|split].
  - intros data Hinv. rewrite Hinv. cbn -[mentions_auth includes].
    rewrite Hm. split; reflexivity.
  - intros data Hinv Herr. rewrite Hinv. cbn -[mentions_auth includes].
    rewrite Herr. unfold truthy_str. rewrite Hne, Hm. split; reflexivity.
  - intros Hinv. rewrite Hinv. cbn -[mentions_auth includes].
    unfold mentions_auth in Hm.
    destruct (includes "Auth" message), (includes "session" message);
      try discriminate Hm; split; reflexivity.
Qed.

(** X18: the hook never shows an error about the session. Through any
    sequence of calls of [checkSubscription] and of checks settling,
    whatever the backend and the store answer, an [error] that
    mentions neither "Auth" nor "session" (in particular no error, as
    after mounting) stays so. A running check that meets a failure
    whose message mentions "Auth" or "session" leaves the error as it
    was; it resets the subscriptions to the default when the function
    resolves with that message, and leaves the subscriptions in place
    when the call rejects with it. *)
Theorem error_never_mentions_auth (events : list Event) (w : World) :
  quiet_error w ->
  quiet_error (run storage_rejects JSON_stringify events w)
  /\ forall p env pc session message,
       running p w = Some pc ->
       env_getSession env = Returns session ->
       no_token session = false ->
       mentions_auth message = true ->
       let w' := settle storage_rejects JSON_stringify p env w in
       (forall data,
          env_invoke env
          = Returns {| invoke_data := data; invoke_error := Some message |} ->
          subscriptions w' = DEFAULT_SUBSCRIPTIONS /\ error w' = error w)
       /\ (forall data,
             env_invoke env
             = Returns {| invoke_data := Some data; invoke_error := None |} ->
             data_error data = Some message ->
             subscriptions w' = DEFAULT_SUBSCRIPTIONS /\ error w' = error w)
       /\ (env_invoke env = Throws (ThrownError message) ->
           subscriptions w' = subscriptions w /\ error w' = error w).
Proof.
  intros Hquiet.
  split; [|intros p env pc session message;
           apply (settle_auth_failure p env pc session message w)].
  revert w Hquiet. unfold run.
  induction events as [|e events IH]; intros w Hw; [exact Hw|].
  simpl. apply IH. clear IH.
  destruct e as [user session plans silent force | p env]; simpl.
  - unfold checkSubscription, start_check.
    destruct user as [u|]; [|exact Hw].
    destruct (no_token session); [exact Hw|].
    destruct (inFlightRequestRef w) as [q|];
      [destruct (negb force)|]; simpl; try exact Hw;
      destruct (negb silent && negb (hasCompletedInitialCheckRef w));
      exact Hw.
  - unfold settle. destruct (List.find _ _) as [pc|]; [|exact Hw].
    apply (performCheck_settle_quiet env pc
             (setPending _ (next_promise w) w)). exact Hw.
Qed.

(** X19: a check that settles always ends the spinner and frees the
    in-flight slot, whatever the backend and the store answer: after
    [settle] of a running check [loading] is false and
    [inFlightRequestRef] is null. *)
Theorem settled_check_stops_loading (p : nat) (env : CheckEnv)
  (pc : PendingCheck) (w : World) :
  running p w = Some pc ->
  let w' := settle storage_rejects JSON_stringify p env w in
  loading w' = false /\ inFlightRequestRef w' = None.
Proof.
  intros Hrun w'. unfold w', settle. unfold running in Hrun. rewrite Hrun.
  unfold performCheck_settle, try_finally, modify, bind.
  destruct (try_catch _ _ _) as [s' o]. cbn. split; reflexivity.
Qed.

End SubscriptionHookFacts.

(** A run of X16: the first check of a subscriber is answered at time
    1700000000000 and its result is read from the cache one hour
    later. *)
Lemma successful_check_is_cached_witness :
  let w' :=
    StripeSubscription.settle (fun _ => None) Samples.print_json 0
      Samples.answer Cases.checking_hook in
  let doc :=
    StripeSubscription.json_of_cached
      {| StripeSubscription.cached_subscriptions :=
           StripeSubscription.subscriptions w';
         StripeSubscription.cached_userId := "user-1" |} in
  StripeSubscription.hasCachedData w' = true
  /\ StripeSubscription.loading w' = false
  /\ StripeSubscription.getCachedSubscription (fun _ => None)
       (Samples.parse_only doc) 1700003600000 "user-1"
       (StripeSubscription.store w')
     = (StripeSubscription.store w',
        Returns (Some (StripeSubscription.json_of_subscriptions
                         (StripeSubscription.subscriptions w')))).
Proof.
  intros w' doc.
  assert (Hok : Terms.check_succeeds Samples.answer Cases.answer_data).
  { exists (Some Samples.signed_in). repeat split. }
  assert (Htext : Samples.print_json doc <> "") by (vm_compute; discriminate).
  assert (Hparse : Samples.parse_only doc (Samples.print_json doc)
                   = Returns doc) by (vm_compute; reflexivity).
  destruct (successful_check_is_cached (fun _ => None) Samples.print_json
              (Samples.parse_only doc) 0 Samples.answer Cases.first_check
              Cases.answer_data Cases.checking_hook (fun _ => eq_refl)
              eq_refl Hok Htext Hparse)
    as (_ & Hcached & Hloading & _ & Hread).
  split; [exact Hcached|]. split; [exact Hloading|].
  apply (Hread 1700003600000). simpl. lia.
Defined.

(** A run of X17: after the answered check, the effect runs again for
    the same subscriber. *)
Lemma first_check_runs_once_witness :
  let w' :=
    StripeSubscription.settle (fun _ => None) Samples.print_json 0
      Samples.answer Cases.checking_hook in
  SubscriptionHook.initialCheckEffect false false (Some Samples.subscriber)
    (Some Samples.signed_in) Samples.plans w' = w'
  /\ StripeSubscription.pending w' = [].
Proof.
  intros w'.
  assert (Hok : Terms.check_succeeds Samples.answer Cases.answer_data).
  { exists (Some Samples.signed_in). repeat split. }
  destruct (first_check_runs_once (fun _ => None) Samples.print_json 0
              Samples.answer Cases.first_check Cases.answer_data
              Cases.checking_hook (Some Samples.signed_in) Samples.plans
              eq_refl Hok eq_refl ltac:(discriminate))
    as (Honce & _).
  split; [exact Honce | reflexivity].
Defined.

(** A run of X18: an auth failure and a network outage after mounting;
    only the outage is shown. *)
Lemma error_never_mentions_auth_witness :
  let events :=
    [StripeSubscription.Call (Some Samples.subscriber)
       (Some Samples.signed_in) Samples.plans false false;
     StripeSubscription.Settle 0 Cases.auth_failure;
     StripeSubscription.Call (Some Samples.subscriber)
       (Some Samples.signed_in) Samples.plans false false;
     StripeSubscription.Settle 1 Cases.outage] in
  let w' :=
    StripeSubscription.run (fun _ => None) Samples.print_json events
      Samples.fresh_hook in
  let subscribed :=
    StripeSubscription.setSubscriptions Samples.bundle_subscriber
      Cases.checking_hook in
  (Terms.quiet_error w'
   /\ StripeSubscription.error w' = Some "Network request failed"
   /\ StripeSubscription.error
        (StripeSubscription.run (fun _ => None) Samples.print_json
           (firstn 2 events) Samples.fresh_hook) = None)
  /\ StripeSubscription.subscriptions
       (StripeSubscription.settle (fun _ => None) Samples.print_json 0
          Cases.auth_failure subscribed)
     = StripeSubscription.DEFAULT_SUBSCRIPTIONS
  /\ StripeSubscription.subscriptions
       (StripeSubscription.settle (fun _ => None) Samples.print_json 0
          Cases.auth_rejection subscribed)
     = Samples.bundle_subscriber.
Proof.
  intros events w' subscribed. split; [split; [|split; reflexivity]|].
  - apply (error_never_mentions_auth (fun _ => None) Samples.print_json
             events Samples.fresh_hook).
    exact I.
  - destruct (error_never_mentions_auth (fun _ => None) Samples.print_json
                [] subscribed I) as [_ Hauth].
    split.
    + destruct (Hauth 0%nat Cases.auth_failure Cases.first_check
                  (Some Samples.signed_in) "Auth session missing!"
                  eq_refl eq_refl eq_refl eq_refl) as (Hresolved & _ & _).
      exact (proj1 (Hresolved None eq_refl)).
    + destruct (Hauth 0%nat Cases.auth_rejection Cases.first_check
                  (Some Samples.signed_in) "Auth session missing!"
                  eq_refl eq_refl eq_refl eq_refl) as (_ & _ & Hrejected).
      exact (proj1 (Hrejected eq_refl)).
Defined.

(** A run of X19: the first check runs into a network outage. *)
Lemma settled_check_stops_loading_witness :
  StripeSubscription.loading Cases.checking_hook = true
  /\ let w' :=
       StripeSubscription.settle (fun _ => None) Samples.print_json 0
         Cases.outage Cases.checking_hook in
     StripeSubscription.loading w' = false
     /\ StripeSubscription.inFlightRequestRef w' = None.
Proof.
  split; [reflexivity|].
  apply (settled_check_stops_loading (fun _ => None) Samples.print_json 0
           Cases.outage Cases.first_check Cases.checking_hook).
  reflexivity.
Defined.

(** ** hooks/useStripeSubscription.ts: checkout and customer portal *)

Section CheckoutFacts.

Import StripeSubscription SubscriptionHook Terms.

Variable session : option Session.
Variable plans : list PricedPlan.
Variable invoke : string -> option CheckoutBody -> string
                  -> Outcome LinkResult.
Variable openURL_rejects : string -> option Thrown.

Lemma follow_link_trace (result : LinkResult) (log : list Effect) :
  exists rest,
    fst (follow_link openURL_rejects result log) = log ++ rest
    /\ opens_answered_link (Returns result) rest.
Proof.
  unfold follow_link, opens_answered_link, answers_link.
  destruct result as [[data|] [fnError|]]; cbn;
    try (exists []; split; [now rewrite app_nil_r|];
         split; [now left|];
         intros url; split; [discriminate|];
         intros (d & Hd & _); discriminate Hd).
  destruct (truthy_str (link_error data)) as [e|] eqn:He.
  - exists []. split; [now rewrite app_nil_r|]. split; [now left|].
    intros url. split; [discriminate|].
    intros (d & Hd & Hde & _). injection Hd as <-. congruence.
  - destruct (truthy_str (link_url data)) as [url|] eqn:Hu.
    + exists [OpenedURL url]. unfold bind, openURL, ret.
      split; [destruct (openURL_rejects url); reflexivity|].
      split; [right; eauto|].
      intros url'. split.
      * intros [= <-]. exists data. auto.
      * intros (d & Hd & _ & Hdu). injection Hd as <-. congruence.
    + exists []. split; [now rewrite app_nil_r|]. split; [now left|].
      intros url. split; [discriminate|].
      intros (d & Hd & _ & Hdu). injection Hd as <-. congruence.
Qed.

Lemma invoke_then_follow (name : string) (body : option CheckoutBody)
  (authorization : string) (log : list Effect) :
  exists rest,
    fst (bind (do_invoke invoke name body authorization)
           (follow_link openURL_rejects) log)
    = log ++ Invoked name body authorization :: rest
    /\ opens_answered_link (invoke name body authorization) rest.
Proof.
  unfold bind, do_invoke.
  destruct (invoke name body authorization) as [result|t] eqn:Hinv.
  - destruct (follow_link_trace result
                (log ++ [Invoked name body authorization]))
      as (rest & Hfst & Hrest).
    exists rest. split; [|exact Hrest].
    rewrite Hfst, <- app_assoc. reflexivity.
  - exists []. split; [reflexivity|]. split; [now left|].
    intros url. split; [discriminate|].
    intros (d & Hd & _). discriminate Hd.
Qed.

(** X20: checkout and the customer portal guard their calls. Without an
    access token both throw "You must be logged in ..." and do
    nothing; [createCheckout] for a product type without a plan throws
    "Plan not found ..." and does nothing. With a token (and, for the
    checkout, a plan) each calls its function exactly once, first of
    all, with the header [Bearer <token>], and after that does one thing
    at most: it opens the URL of the function's answer, exactly when
    the function answered one (no function error, no error in the data,
    a non-empty [url]). The body of [create-checkout] names the plan and
    the period exactly when the plan has a Stripe price id for the
    period, and the (missing) price id otherwise; the portal call has
    no body. *)
Theorem checkout_opens_only_answered_links (productType : string)
  (billingPeriod : BillingPeriod) (options : option CheckoutOptions)
  (log : list Effect) :
  let checkout :=
    createCheckout session plans invoke openURL_rejects productType
      billingPeriod options log in
  let portal := openCustomerPortal session invoke openURL_rejects log in
  (no_token session = true ->
   checkout = (log, Throws (ThrownError "You must be logged in to subscribe"))
   /\ portal
      = (log,
         Throws (ThrownError "You must be logged in to manage subscription")))
  /\ (no_token session = false ->
      getPlanByProductType plans productType = None ->
      checkout
      = (log,
         Throws (ThrownError
                   ("Plan not found for product type: " +:+ productType))))
  /\ (forall token,
        session = Some {| access_token := Some token |} ->
        token <> "" ->
        exists rest,
          fst portal
          = log ++ Invoked "customer-portal" None ("Bearer " +:+ token)
                     :: rest
          /\ opens_answered_link
               (invoke "customer-portal" None ("Bearer " +:+ token)) rest)
  /\ (forall token plan,
        session = Some {| access_token := Some token |} ->
        token <> "" ->
        getPlanByProductType plans productType = Some plan ->
        let trial := match options with
                     | Some o => extendedTrial o
                     | None => None
                     end in
        let enrollment := match options with
                          | Some o => challengeEnrollmentId o
                          | None => None
                          end in
        let body :=
          match truthy_str (getStripePriceId plan billingPeriod) with
          | Some _ => ByPlan (plan_id plan) billingPeriod trial enrollment
          | None =>
              ByPrice (getStripePriceId plan billingPeriod) trial enrollment
          end in
        exists rest,
          fst checkout
          = log ++ Invoked "create-checkout" (Some body)
                     ("Bearer " +:+ token) :: rest
          /\ opens_answered_link
               (invoke "create-checkout" (Some body) ("Bearer " +:+ token))
               rest).
Proof.
  intros checkout portal. unfold checkout, portal. clear checkout portal.
  unfold createCheckout, openCustomerPortal, no_token, falsy_str.
  split; [|split; [|split]].
  - destruct session as [[[token|]]|]; cbn; try (intros _; split; reflexivity).
    intros ->. split; reflexivity.
  - destruct session as [[[token|]]|]; cbn; try discriminate.
    intros -> ->. reflexivity.
  - intros token -> Htoken.
    destruct (String.eqb_spec token ""); [contradiction|].
    apply invoke_then_follow.
  - intros token plan -> Htoken ->. cbv zeta.
    destruct (String.eqb_spec token ""); [contradiction|].
    apply invoke_then_follow.
Qed.

End CheckoutFacts.

(** A run of X20: a signed-in reader opens the customer portal and
    subscribes to the read plan; each function is called once with the
    reader's token, and the link that it answers is opened. *)
Lemma checkout_opens_only_answered_links_witness :
  fst (SubscriptionHook.openCustomerPortal (Some Samples.signed_in)
         Cases.stripe (fun _ => None) [])
  = [SubscriptionHook.Invoked "customer-portal" None "Bearer jwt-1";
     SubscriptionHook.OpenedURL "https://billing.example/portal"]
  /\ fst (SubscriptionHook.createCheckout (Some Samples.signed_in)
            [Cases.read_plan] Cases.stripe (fun _ => None) "read"
            SubscriptionHook.annual None [])
     = [SubscriptionHook.Invoked "create-checkout"
          (Some (SubscriptionHook.ByPlan "plan-read" SubscriptionHook.annual
                   None None))
          "Bearer jwt-1"].
Proof.
  destruct (checkout_opens_only_answered_links (Some Samples.signed_in)
              [Cases.read_plan] Cases.stripe (fun _ => None) "read"
              SubscriptionHook.annual None [])
    as (_ & _ & Hportal & Hcheckout).
  split.
  - destruct (Hportal "jwt-1" eq_refl ltac:(discriminate))
      as (rest & Hfst & [_ Hopen]).
    rewrite Hfst.
    assert (Hrest : rest
                    = [SubscriptionHook.OpenedURL
                         "https://billing.example/portal"]).
    { apply Hopen.
      exists {| SubscriptionHook.link_error := None;
                SubscriptionHook.link_url :=
                  Some "https://billing.example/portal" |}.
      repeat split. }
    now rewrite Hrest.
  - destruct (Hcheckout "jwt-1" Cases.read_plan eq_refl ltac:(discriminate)
                eq_refl)
      as (rest & Hfst & [[-> | [url ->]] Hopen]).
    + exact Hfst.
    + exfalso. destruct (proj1 (Hopen url) eq_refl) as (d & Hd & He & _).
      injection Hd as <-. discriminate He.
Defined.

(** ** The verse marker of the reader: Arabic-Indic numerals *)

Section ArabicNumeralsFacts.

Import ArabicNumerals Terms.

Lemma numeral_of_digit (c : ascii) :
  is_digit c = true ->
  at_index (parseInt10 (String c "")) = Some (arabic_of_ascii c).
Proof.
  intros Hc.
  destruct c as [[] [] [] [] [] [] [] []]; cbv in Hc;
    try discriminate Hc; reflexivity.
Qed.

Lemma uint_text_digits (d : Decimal.uint) :
  Forall (fun c => is_digit c = true)
    (list_ascii_of_string (NilEmpty.string_of_uint d)).
Proof. induction d; simpl; constructor; auto. Qed.

Lemma numerals_of_digits (text : list ascii) :
  Forall (fun c => is_digit c = true) text ->
  concat
    (map (fun digit : ascii =>
            match at_index (parseInt10 (String digit "")) with
            | Some numeral => [numeral]
            | None => []
            end) text)
  = map arabic_of_ascii text.
Proof.
  induction 1 as [|c text Hc _ IH]; [reflexivity|].
  simpl. rewrite (numeral_of_digit c Hc), IH. reflexivity.
Qed.

Lemma String_of_Z_digits (num : Z) :
  0 <= num ->
  Forall (fun c => is_digit c = true) (list_ascii_of_string (String_of_Z num)).
Proof.
  intros Hnum. destruct num as [|p|p]; [repeat constructor| |lia].
  rewrite String_of_Z_pos. apply uint_text_digits.
Qed.

Lemma arabic_of_ascii_inj (a b : list ascii) :
  map arabic_of_ascii a = map arabic_of_ascii b -> a = b.
Proof.
  revert b. induction a as [|x a IH]; intros [|y b] H; try discriminate;
    [reflexivity|].
  simpl in H. injection H as Hxy Hab. f_equal; [|now apply IH].
  unfold arabic_of_ascii in Hxy.
  rewrite <- (ascii_N_embedding x), <- (ascii_N_embedding y).
  f_equal. lia.
Qed.

Lemma toArabicNumeral_nonneg (num : Z) :
  0 <= num ->
  toArabicNumeral num
  = map arabic_of_ascii (list_ascii_of_string (String_of_Z num)).
Proof.
  intros Hnum. unfold toArabicNumeral.
  apply numerals_of_digits, String_of_Z_digits, Hnum.
Qed.

(** X21: the verse marker. For a number that is a non-negative safe
    integer (0 to 2^53 - 1, printed in plain decimal)
    [toArabicNumeral] gives one Arabic-Indic numeral for each decimal
    digit, the digit [d] becoming U+0660 + [d], so different such
    numbers get different markers; the sign of the negative of such a
    number is dropped. *)
Theorem toArabicNumeral_digit_by_digit (num : Z) :
  0 <= num ->
  safe_integer num ->
  toArabicNumeral num
  = map arabic_of_ascii (list_ascii_of_string (String_of_Z num))
  /\ length (toArabicNumeral num) = String.length (String_of_Z num)
  /\ (forall other,
        0 <= other -> safe_integer other ->
        toArabicNumeral other = toArabicNumeral num ->
        other = num)
  /\ toArabicNumeral (- num) = toArabicNumeral num.
Proof.
  intros Hnum _. split; [now apply toArabicNumeral_nonneg|].
  split; [|split].
  - rewrite toArabicNumeral_nonneg, length_map by exact Hnum.
    generalize (String_of_Z num). intros s.
    induction s as [|c s IH]; simpl; congruence.
  - intros other Hother _ Heq.
    rewrite !toArabicNumeral_nonneg in Heq by assumption.
    apply arabic_of_ascii_inj in Heq.
    apply String_of_Z_inj.
    rewrite <- (string_of_list_ascii_of_string (String_of_Z other)),
            <- (string_of_list_ascii_of_string (String_of_Z num)).
    now rewrite Heq.
  - destruct num as [|p|p]; [reflexivity| |lia].
    change (- Z.pos p) with (Z.neg p).
    unfold toArabicNumeral. rewrite String_of_Z_neg, String_of_Z_pos.
    reflexivity.
Qed.

End ArabicNumeralsFacts.

(** A run of X21: verse 286 is marked with the numerals two, eight,
    six. *)
Lemma toArabicNumeral_digit_by_digit_witness :
  ArabicNumerals.toArabicNumeral 286 = [1634; 1640; 1638]%N
  /\ ArabicNumerals.toArabicNumeral (- (286)) = [1634; 1640; 1638]%N.
Proof.
  destruct (toArabicNumeral_digit_by_digit 286 ltac:(lia)
              ltac:(unfold safe_integer, MAX_SAFE_INTEGER; lia))
    as (Hdigits & _ & _ & Hneg).
  split; [rewrite Hdigits; reflexivity|].
  rewrite Hneg, Hdigits. reflexivity.
Defined.

(** ** contexts/QuranContext.tsx: parseFootnoteIds *)

Section FootnoteIdsFacts.

Import Footnotes FootnoteIds Terms.

Lemma plus_inv {A} (c : N) (k : list N -> option A) (s : list N) (r : A) :
  plus c k s = Some r ->
  exists n s', s = repeat c (S n) ++ s' /\ k s' = Some r.
Proof.
  revert r. induction s as [|u rest IH]; intros r; simpl; [discriminate|].
  destruct (N.eqb_spec u c) as [->|]; [|discriminate].
  destruct (plus c k rest) as [r'|] eqn:E.
  - intros [= <-]. destruct (IH r' eq_refl) as (n & s' & -> & Hk).
    exists (S n), s'. split; [reflexivity | exact Hk].
  - intros Hk. exists 0%nat, rest. split; [reflexivity | exact Hk].
Qed.

Lemma match_pieces_inv {A} (ps : list Piece) (k : list N -> option A)
  (s : list N) (r : A) :
  match_pieces ps k s = Some r ->
  exists pre s', s = pre ++ s' /\ spelled_by ps pre /\ k s' = Some r.
Proof.
  revert k s r. induction ps as [|[c|c] ps IH]; intros k s r; simpl.
  - intros Hk. exists [], s. auto.
  - destruct s as [|u rest]; [discriminate|].
    destruct (N.eqb_spec u c) as [->|]; [|discriminate].
    intros H. destruct (IH _ _ _ H) as (pre & s' & -> & Hpre & Hk).
    exists (c :: pre), s'. split; [reflexivity|]. split; [eauto | exact Hk].
  - intros H. destruct (plus_inv _ _ _ _ H) as (n & s1 & -> & H1).
    destruct (IH _ _ _ H1) as (pre & s' & -> & Hpre & Hk).
    exists (repeat c (S n) ++ pre), s'.
    split; [now rewrite <- app_assoc|]. split; [eauto | exact Hk].
Qed.

Lemma take_matched (pre s' : list N) :
  take (length (pre ++ s') - length s')%nat (pre ++ s') = pre.
Proof.
  rewrite length_app.
  replace (length pre + length s' - length s')%nat with (length pre) by lia.
  apply take_app_length.
Qed.

(** What a match looks like: the opening, a first group made of a
    backslash and letters [d], the middle, a second group of the same
    shape, the closing. *)
Lemma match_at_inv (s : list N) (m : Match) :
  match_at s = Some m ->
  exists p0 n1 p2 n2 p4 rest,
    s = p0 ++ (backslash :: repeat letter_d (S n1)) ++ p2
          ++ (backslash :: repeat letter_d (S n2)) ++ p4 ++ rest
    /\ spelled_by opening p0
    /\ spelled_by middle p2
    /\ spelled_by closing p4
    /\ group_1 m = backslash :: repeat letter_d (S n1)
    /\ group_2 m = backslash :: repeat letter_d (S n2).
Proof.
  unfold match_at. intros H.
  apply match_pieces_inv in H as (p0 & s1 & Hs & Hp0 & H).
  apply match_pieces_inv in H as (p1 & s2 & Hs1 & Hp1 & H).
  apply match_pieces_inv in H as (p2 & s3 & Hs2 & Hp2 & H).
  apply match_pieces_inv in H as (p3 & s4 & Hs3 & Hp3 & H).
  apply match_pieces_inv in H as (p4 & s5 & Hs4 & Hp4 & H).
  injection H as <-. cbn [group_1 group_2].
  destruct Hp1 as (q1 & -> & n1 & q1' & -> & ->).
  destruct Hp3 as (q3 & -> & n3 & q3' & -> & ->).
  rewrite !app_nil_r in *.
  exists p0, n1, p2, n3, p4, s5. subst s4 s3 s2.
  split; [rewrite Hs, Hs1; reflexivity|].
  split; [exact Hp0|]. split; [exact Hp2|]. split; [exact Hp4|].
  split.
  - rewrite Hs1.
    apply (take_matched (backslash :: repeat letter_d (S n1))).
  - apply (take_matched (backslash :: repeat letter_d (S n3))).
Qed.

Lemma match_at_backslash (s : list N) (m : Match) :
  match_at s = Some m -> backslash ∈ s.
Proof.
  intros H. apply match_at_inv in H
    as (p0 & n1 & p2 & n2 & p4 & rest & -> & _).
  apply elem_of_app. right. left.
Qed.

Lemma parseInt_units_backslash (text : list N) :
  parseInt_units (backslash :: text) = None.
Proof. reflexivity. Qed.

Lemma exec_from_entries (verse : Z) (skip : nat) (s : list N) :
  Forall (fun f =>
            id f = None /\ verseNumber f = verse
            /\ exists n, number f = backslash :: repeat letter_d (S n))
    (exec_from verse skip s).
Proof.
  revert skip. induction s as [|u rest IH]; intros skip; simpl;
    [constructor|].
  destruct skip as [|k]; [|apply IH].
  destruct (match_at (u :: rest)) as [m|] eqn:E; [|apply IH].
  constructor; [|apply IH].
  apply match_at_inv in E
    as (p0 & n1 & p2 & n2 & p4 & rest' & _ & _ & _ & _ & H1 & H2).
  cbn [id verseNumber number]. rewrite H1, H2.
  split; [apply parseInt_units_backslash|]. split; [reflexivity|]. eauto.
Qed.

Lemma exec_from_without_backslash (verse : Z) (skip : nat) (s : list N) :
  Forall (fun u => u <> backslash) s -> exec_from verse skip s = [].
Proof.
  intros Hs. revert skip.
  induction Hs as [|u rest Hu Hrest IH]; intros skip; [reflexivity|].
  simpl. destruct skip as [|k]; [|apply IH].
  destruct (match_at (u :: rest)) as [m|] eqn:E; [|apply IH].
  exfalso. apply match_at_backslash in E.
  apply elem_of_cons in E as [E|E]; [congruence|].
  rewrite Forall_forall in Hrest. now apply (Hrest backslash).
Qed.

Lemma footnote_tag_without_backslash (i n : string) :
  Forall (fun u => u <> backslash) (code_units i) ->
  Forall (fun u => u <> backslash) (code_units n) ->
  Forall (fun u => u <> backslash) (footnote_tag i n).
Proof.
  intros Hi Hn. unfold footnote_tag.
  repeat (apply Forall_app; split);
    try assumption; repeat constructor; discriminate.
Qed.

(** X23: as written, with doubled backslashes in the regular expression
    literal, [parseFootnoteIds] finds a footnote only where the text
    holds literal backslashes: on a text without a backslash, in
    particular on a tag [<footnote id="ID" number="NUMBER">], it
    returns the empty list. Every entry it does return, on any text,
    has the id [NaN] (the first group starts with a backslash) and a
    marker made of a backslash and letters [d]. *)
Theorem parseFootnoteIds_needs_backslashes (text : list N) (verse : Z) :
  (Forall (fun u => u <> backslash) text ->
   parseFootnoteIds text verse = [])
  /\ (forall i n before after,
        Forall (fun u => u <> backslash)
          (before ++ code_units i ++ code_units n ++ after) ->
        parseFootnoteIds (before ++ footnote_tag i n ++ after) verse = [])
  /\ Forall (fun f =>
               id f = None /\ verseNumber f = verse
               /\ exists n, number f = backslash :: repeat letter_d (S n))
       (parseFootnoteIds text verse).
Proof.
  split; [|split].
  - apply exec_from_without_backslash.
  - intros i n before after H.
    apply Forall_app in H as [Hb H]. apply Forall_app in H as [Hi H].
    apply Forall_app in H as [Hn Ha].
    apply exec_from_without_backslash.
    apply Forall_app. split; [exact Hb|].
    apply Forall_app. split; [|exact Ha].
    now apply footnote_tag_without_backslash.
  - apply exec_from_entries.
Qed.

End FootnoteIdsFacts.

(** A run of X23: a translation with a footnote tag yields no
    reference; a text that spells the backslashes out yields one, whose
    id is [NaN]. *)
Lemma parseFootnoteIds_needs_backslashes_witness :
  let text :=
    Footnotes.code_units "Praise be to God"
      ++ Terms.footnote_tag "1155" "166"
      ++ Footnotes.code_units ", Lord of the worlds" in
  let escaped :=
    Footnotes.code_units "<footnote" ++ [92; 115]%N
      ++ Footnotes.code_units "id=" ++ [92; 34; 92; 100; 92; 34; 92; 115]%N
      ++ Footnotes.code_units "number=" ++ [92; 34; 92; 100; 100; 92; 34; 62]%N in
  FootnoteIds.parseFootnoteIds text 2 = []
  /\ FootnoteIds.parseFootnoteIds escaped 2
     = [{| FootnoteIds.id := None;
           FootnoteIds.number := [92; 100; 100]%N;
           FootnoteIds.verseNumber := 2 |}].
Proof.
  intros text escaped. split; [|vm_compute; reflexivity].
  refine (proj1 (parseFootnoteIds_needs_backslashes text 2) _).
  unfold text, Terms.footnote_tag.
  repeat (apply Forall_app; split); repeat constructor; discriminate.
Defined.

(** ** screens/ReadScreen.tsx: saving and restoring the last position *)

Section LastReadFacts.

Import ReadScreenNav LastRead.

Variable JSON_stringify : Json -> string.
Variable JSON_parse : string -> Outcome Json.
Variable getUser : Outcome (option User).
Variable select_progress : string -> Outcome (option ProgressRow * bool).

(** What the scheduled save writes is the document of the surah, a
    verse and the scroll position. *)
Lemma saved_position_document (offsets : gmap Z Z) (insets_top : Z)
  (regular applied scrolled : bool) (contextVerseNumber : option Z)
  (s y : Z) (doc : Json) :
  saved_position offsets insets_top regular applied scrolled
    contextVerseNumber s y = Some doc ->
  exists v, doc = lastRead_document s v y.
Proof.
  unfold saved_position.
  destruct (negb applied && negb scrolled); [discriminate|].
  destruct (regular && bool_decide (offsets = ∅)); [discriminate|].
  intros [= <-]. eauto.
Qed.

(** The restore of a stored document of a non-zero surah. *)
Lemma restore_document (s y : Z) (v : option Z) (route : option string)
  (text : string) (w : World) :
  s <> 0 ->
  text <> "" ->
  JSON_parse text = Returns (lastRead_document s v y) ->
  hasRestoredRef w = false ->
  store w !! "lastRead" = Some text ->
  exists w',
    restoreLastRead None JSON_parse getUser select_progress route w
    = (w', Returns tt)
    /\ hasRestoredRef w' = true
    /\ hasRestoreTargetRef w' = true
    /\ match truthy_str route with
       | None =>
           effects w' = effects w ++ [Navigate (String_of_Z s) None]
           /\ initialScrollOffsetRef w' = Some y
           /\ initialVerseRef w' = initialVerseRef w
           /\ restoringRef w' = true
       | Some r =>
           restoringRef w' = restoringRef w
           /\ if String.eqb (String_of_Z s) r then
                effects w' = effects w ++ [TryRestoreScroll]
                /\ initialScrollOffsetRef w' = Some y
                /\ initialVerseRef w' = initialVerseRef w
              else
                effects w' = effects w
                /\ initialScrollOffsetRef w' = initialScrollOffsetRef w
                /\ initialVerseRef w'
                   = match v with
                     | Some n => Some n
                     | None => initialVerseRef w
                     end
       end.
Proof.
  intros Hs Htext Hparse Hfresh Hstored.
  unfold restoreLastRead, bind, read, modify, getItem_lastRead, try_catch.
  rewrite Hfresh. cbn [store setRestoreCheckedRef]. rewrite Hstored.
  unfold truthy_str at 1.
  destruct (String.eqb_spec text "") as [|_]; [contradiction|].
  unfold restore_from_document, bind, lift, modify. rewrite Hparse.
  unfold lastRead_document.
  cbn [get_optional lookup_field String.eqb Ascii.eqb Bool.eqb as_number
       truthy negb String_of_json].
  destruct (Z.eqb_spec s 0) as [|_]; [contradiction|]. cbn [negb].
  destruct (truthy_str route) as [r|].
  - destruct (String.eqb (String_of_Z s) r); destruct v as [verse|]; cbn;
      eexists; repeat split; reflexivity.
  - destruct v as [verse|]; cbn; eexists; repeat split; reflexivity.
Qed.

(** X24: a saved position is restored. The surah shown is a safe
    integer and numbers are integers. When the save scheduled by
    [handleScroll] writes a document for the surah shown and the scroll
    position [y], the store accepts the write and the read, and
    [JSON.parse] reads the written text back, the next
    [restoreLastRead] (before any restore has happened) marks the
    restore as done and finds a restore target, in each of three cases:
    without a route parameter it navigates to the saved surah, which
    the screen reads back as the same surah id, and keeps [y] as the
    initial scroll offset; opened on the saved surah it keeps [y] and
    restores the scroll without navigating; opened on another surah it
    neither navigates nor takes the offset, and keeps the saved verse
    number, if it is a number, as the initial verse. *)
Theorem saved_position_is_restored (offsets : gmap Z Z) (insets_top : Z)
  (regular applied scrolled : bool) (contextVerseNumber : option Z)
  (route : option string) (y : Z) (doc : Json) (w : World) :
  safe_integer (surahId route) ->
  saved_position offsets insets_top regular applied scrolled
    contextVerseNumber (surahId route) y = Some doc ->
  JSON_stringify doc <> "" ->
  JSON_parse (JSON_stringify doc) = Returns doc ->
  hasRestoredRef w = false ->
  let s := surahId route in
  let saved := fst (persist None JSON_stringify doc w) in
  let restore := restoreLastRead None JSON_parse getUser select_progress in
  (exists w',
     restore None saved = (w', Returns tt)
     /\ effects w' = effects w ++ [Navigate (String_of_Z s) None]
     /\ surahId (Some (String_of_Z s)) = s
     /\ initialScrollOffsetRef w' = Some y
     /\ restoringRef w' = true
     /\ hasRestoredRef w' = true
     /\ hasRestoreTargetRef w' = true)
  /\ (exists w',
        restore (Some (String_of_Z s)) saved = (w', Returns tt)
        /\ effects w' = effects w ++ [TryRestoreScroll]
        /\ initialScrollOffsetRef w' = Some y
        /\ restoringRef w' = restoringRef w
        /\ hasRestoredRef w' = true
        /\ hasRestoreTargetRef w' = true)
  /\ (forall other,
        other <> "" -> other <> String_of_Z s ->
        exists w',
          restore (Some other) saved = (w', Returns tt)
          /\ effects w' = effects w
          /\ initialScrollOffsetRef w' = initialScrollOffsetRef w
          /\ initialVerseRef w'
             = match as_number (get_optional "verseNumber" doc) with
               | Some n => Some n
               | None => initialVerseRef w
               end
          /\ restoringRef w' = restoringRef w
          /\ hasRestoredRef w' = true
          /\ hasRestoreTargetRef w' = true).
Proof.
  intros _ Hsaved Htext Hparse Hfresh s saved restore.
  destruct (saved_position_document _ _ _ _ _ _ _ _ _ Hsaved) as [v Hdoc].
  fold s in Hdoc.
  assert (Hs : s <> 0) by apply surahId_nonzero.
  assert (Hstored : store saved !! "lastRead" = Some (JSON_stringify doc)).
  { unfold saved, persist. cbn. apply lookup_insert_eq. }
  assert (Hfresh' : hasRestoredRef saved = false) by exact Hfresh.
  rewrite Hdoc in Hparse at 2.
  assert (Hrestore := fun r =>
            restore_document s y v r (JSON_stringify doc) saved Hs Htext
              Hparse Hfresh' Hstored).
  split; [|split].
  - destruct (Hrestore None) as (w' & Hrun & Hdone & Htarget & He & Hy & _ & Hr).
    exists w'. split; [exact Hrun|]. split; [exact He|].
    split; [now apply surahId_String_of_Z|]. auto.
  - destruct (Hrestore (Some (String_of_Z s)))
      as (w' & Hrun & Hdone & Htarget & Hcase).
    unfold truthy_str in Hcase.
    destruct (String.eqb_spec (String_of_Z s) "") as [E|_];
      [now apply String_of_Z_nonempty in E|].
    rewrite String.eqb_refl in Hcase.
    destruct Hcase as (Hr & He & Hy & _).
    exists w'. auto 10.
  - intros other Hother Hne.
    destruct (Hrestore (Some other)) as (w' & Hrun & Hdone & Htarget & Hcase).
    unfold truthy_str in Hcase.
    destruct (String.eqb_spec other ""); [contradiction|].
    destruct (String.eqb_spec (String_of_Z s) other) as [E|_];
      [now symmetry in E|].
    destruct Hcase as (Hr & He & Hy & Hv).
    exists w'. split; [exact Hrun|]. split; [exact He|].
    split; [exact Hy|]. split; [|auto].
    rewrite Hv, Hdoc. now destruct v.
Qed.

End LastReadFacts.

(** A run of X24: in surah 2 the reader scrolls to 600, where verse 3
    is the last one scrolled past; the position is saved, and a later
    visit without a route parameter is sent back to surah 2 at offset
    600. *)
Lemma saved_position_is_restored_witness :
  let doc := LastRead.lastRead_document 2 (Some 3) 600 in
  let saved :=
    fst (LastRead.persist None Samples.print_json doc Cases.first_visit) in
  LastRead.saved_position Cases.layout 44 true false true (Some 1)
    (ReadScreenNav.surahId (Some "2")) 600 = Some doc
  /\ exists w',
       LastRead.restoreLastRead None (Samples.parse_only doc)
         (Returns None) (fun _ => Returns (None, false)) None saved
       = (w', Returns tt)
       /\ LastRead.effects w' = [LastRead.Navigate "2" None]
       /\ LastRead.initialScrollOffsetRef w' = Some 600
       /\ LastRead.hasRestoredRef w' = true
       /\ LastRead.hasRestoreTargetRef w' = true.
Proof.
  intros doc saved.
  assert (Hsafe : safe_integer (ReadScreenNav.surahId (Some "2")))
    by (unfold safe_integer; vm_compute; split; discriminate).
  assert (Hsaved : LastRead.saved_position Cases.layout 44 true false true
                     (Some 1) (ReadScreenNav.surahId (Some "2")) 600
                   = Some doc) by (vm_compute; reflexivity).
  assert (Htext : Samples.print_json doc <> "") by (vm_compute; discriminate).
  assert (Hparse : Samples.parse_only doc (Samples.print_json doc)
                   = Returns doc) by (vm_compute; reflexivity).
  split; [exact Hsaved|].
  destruct (saved_position_is_restored Samples.print_json
              (Samples.parse_only doc) (Returns None)
              (fun _ => Returns (None, false)) Cases.layout 44 true false
              true (Some 1) (Some "2") 600 doc Cases.first_visit
              Hsafe Hsaved Htext Hparse eq_refl)
    as ((w' & Hrun & He & _ & Hy & _ & Hdone & Htarget) & _).
  exists w'. split; [exact Hrun|]. split; [exact He|]. auto.
Defined.

(** ** services/quranAudioService.ts: what a fetched recitation is *)

Section FetchSurahAudioFacts.

Import AudioService.

Variable SUPABASE_URL : option string.
Variable SUPABASE_ANON_KEY : option string.
Variable fetch : Request -> Outcome Response.

(** X22: when [fetchSurahAudio] returns, it has sent exactly one
    request, to the audio proxy under the configured URL with the
    reciter's number and the surah in the query and the configured key
    in [apikey]; the response was ok; and the result is read off the
    first entry of [audio_files] when there is one, off [audio_file]
    otherwise, with [verseTimings] defaulting to the empty list and
    [duration] to 0. The surah id ranges over the integers. *)
Theorem fetchSurahAudio_returns_first_file (surahId : Z)
  (reciterId : ReciterId) (log log' : list Request)
  (result : SurahAudioData) :
  fetchSurahAudio SUPABASE_URL SUPABASE_ANON_KEY fetch surahId reciterId log
  = (log', Returns result) ->
  exists base key response data file,
       truthy_str SUPABASE_URL = Some base
       /\ truthy_str SUPABASE_ANON_KEY = Some key
       /\ let request :=
            {| req_url :=
                 base +:+ "/functions/v1/quran-audio-proxy?reciterId="
                   +:+ String_of_Z (reciter_number reciterId)
                   +:+ "&chapter=" +:+ String_of_Z surahId;
               req_apikey := key;
               req_content_type := "application/json" |} in
          log' = log ++ [request]
          /\ fetch request = Returns response
          /\ resp_ok response = true
          /\ resp_json response = Returns data
          /\ match audio_files data with
             | Some (first :: _) => file = first
             | _ => audio_file data = Some file
             end
          /\ audioUrl result = audio_url file
          /\ verseTimings result
             = match verse_timings file with
               | Some timings => timings
               | None => []
               end
          /\ duration result
             = match file_duration file with
               | Some d => d
               | None => 0
               end
          /\ chapterId result = chapter_id file.
Proof.
  unfold fetchSurahAudio.
  destruct (truthy_str SUPABASE_URL) as [base|]; [|discriminate].
  destruct (truthy_str SUPABASE_ANON_KEY) as [key|]; [|discriminate].
  destruct (Z.ltb_spec surahId 1) as [|Hlow]; [discriminate|].
  destruct (surahId >? 114) eqn:Hhigh; [discriminate|]. cbn [orb].
  unfold bind, do_fetch, throw, lift, ret.
  destruct (fetch _) as [response|t] eqn:Hfetch; [|discriminate].
  destruct (resp_ok response) eqn:Hok; [|discriminate]. cbn [negb].
  destruct (resp_json response) as [data|t] eqn:Hjson; [|discriminate].
  destruct (pick_audio_file data) as [file|] eqn:Hpick; [|discriminate].
  intros Hresult. injection Hresult as <- <-.
  exists base, key, response, data, file.
  repeat (split; [reflexivity || assumption|]).
  split; [|repeat split; reflexivity].
  unfold pick_audio_file in Hpick.
  destruct (audio_files data) as [[|first rest]|]; congruence.
Qed.

End FetchSurahAudioFacts.

(** A run of X22: the proxy lists two files; the first is used, with no
    timings and no duration. *)
Lemma fetchSurahAudio_returns_first_file_witness :
  let request :=
    {| AudioService.req_url :=
         "https://project.example/functions/v1/quran-audio-proxy?reciterId=7&chapter=1";
       AudioService.req_apikey := "anon-key";
       AudioService.req_content_type := "application/json" |} in
  let result :=
    {| AudioService.audioUrl := "https://audio.example/7/1.mp3";
       AudioService.verseTimings := [];
       AudioService.duration := 0;
       AudioService.chapterId := 1 |} in
  AudioService.fetchSurahAudio (Some "https://project.example")
    (Some "anon-key") Cases.proxy 1 AudioService.MISHARY_ALAFASY []
  = ([request], Returns result)
  /\ exists file,
       AudioService.audioUrl result = AudioService.audio_url file
       /\ file = Cases.recitation.
Proof.
  intros request result.
  assert (Hrun : AudioService.fetchSurahAudio (Some "https://project.example")
                   (Some "anon-key") Cases.proxy 1
                   AudioService.MISHARY_ALAFASY []
                 = ([request], Returns result))
    by (vm_compute; reflexivity).
  split; [exact Hrun|].
  destruct (fetchSurahAudio_returns_first_file (Some "https://project.example")
              (Some "anon-key") Cases.proxy 1 AudioService.MISHARY_ALAFASY
              [] [request] result Hrun)
    as (base & key & response & data & file & Hb & Hk & _ & Hf & _ & Hj
        & Hfile & Hurl & _).
  exists file. split; [exact Hurl|].
  injection Hf as <-. injection Hj as <-. exact Hfile.
Defined.
